(** * Metrics derivation engine of the OpenRewrite data-tables viewer

    A shallow embedding of [DataProcessor] and [DataLoader]
    (src/services/DataLoader.ts) and of the data that the views of [App]
    prepare from them (src/types/data.ts), with the properties of the
    derivation functions, of the loader and of those views.

    ** Numbers

    A JavaScript [number] is modelled by [number]: an exact rational
    ([Fin q], [q] a canonical rational), the two infinities and NaN, with
    the arithmetic of ECMAScript on them (what is an infinity, what is
    NaN, what a comparison with NaN answers).  The model abstracts from
    binary64 rounding: finite results are exact, and there is a single
    zero, read as +0.  [Math.sqrt], whose results are irrational, is a
    parameter.  What is stated of the code is therefore stated with the
    code's own operations, in the order in which the code applies them,
    and rests on none of the identities that exact numbers have and
    binary64 has not (an operation undone by its inverse, sums regrouped,
    results that stay finite); integers are taken below 2^53.  Where
    rounding decides a question, [calculateROIMetrics] is embedded a
    second time over binary64, the primitive floats of the kernel
    ([Binary64]).

    ** Containers

    Arrays are lists.  A [Map] is an association list in insertion order
    and a [Set] a duplicate-free list in insertion order, since
    [Array.from] exposes that order.

    ** Store

    The derivations are pure functions of the contents of their arrays.
    For the one property that is about the arrays as objects (a call
    leaves them as they are), they are restated over references into an
    explicit store.

    ** Loader and views

    The loader is modelled from the rows that [d3.csv] delivers on; what
    [d3.csv] answers for a path is a parameter of each load, and so are
    the string built-ins.  The cache is threaded through the loads, which
    are taken in two steps, before and after [await d3.csv], so that
    loads running together are sequences of such steps.  [loadAllData],
    which only starts the three and waits for them, [formatNumber], which
    rests on [Intl], and the drawing of the views are left out.  *)

From Stdlib Require Import ZArith QArith Qcanon Qround.
From Stdlib Require Import List String Ascii Bool Lia DecimalString.
From Stdlib Require Import Permutation Sorted.
From Stdlib Require Import Floats.PrimFloat.
Import ListNotations.

Set Implicit Arguments.

Open Scope string_scope.
Open Scope list_scope.

(** ** The number model *)

Inductive number : Type :=
| Fin (q : Qc)
| PInf
| NInf
| NaN.

Declare Scope num_scope.
Delimit Scope num_scope with num.
Bind Scope num_scope with number.

Definition numZ (z : Z) : number := Fin (Q2Qc (inject_Z z)).
Definition numQ (q : Q) : number := Fin (Q2Qc q).
Definition num_of_nat (n : nat) : number := numZ (Z.of_nat n).

Definition Qc_ltb (a b : Qc) : bool :=
  match (a ?= b)%Qc with Lt => true | _ => false end.

Abbreviation Qc_zero := (Q2Qc 0).

(** The infinity with the sign given by a comparison against zero; NaN when
    the sign is that of zero (0 * Infinity, 0 / 0). *)
Definition inf_of_sign (c : comparison) : number :=
  match c with Gt => PInf | Lt => NInf | Eq => NaN end.

Definition num_neg (x : number) : number :=
  match x with
  | Fin q => Fin (- q)%Qc
  | PInf => NInf
  | NInf => PInf
  | NaN => NaN
  end.

Definition num_add (x y : number) : number :=
  match x, y with
  | NaN, _ | _, NaN => NaN
  | Fin a, Fin b => Fin (a + b)%Qc
  | PInf, NInf | NInf, PInf => NaN
  | PInf, _ | _, PInf => PInf
  | NInf, _ | _, NInf => NInf
  end.

Definition num_sub (x y : number) : number := num_add x (num_neg y).

Definition num_mul (x y : number) : number :=
  match x, y with
  | NaN, _ | _, NaN => NaN
  | Fin a, Fin b => Fin (a * b)%Qc
  | Fin a, PInf | PInf, Fin a => inf_of_sign (a ?= Qc_zero)%Qc
  | Fin a, NInf | NInf, Fin a => inf_of_sign (Qc_zero ?= a)%Qc
  | PInf, PInf | NInf, NInf => PInf
  | PInf, NInf | NInf, PInf => NInf
  end.

(** Division: a finite value over zero is an infinity of the dividend's
    sign (the zero is +0), 0 / 0 and Infinity / Infinity are NaN. *)
Definition num_div (x y : number) : number :=
  match x, y with
  | NaN, _ | _, NaN => NaN
  | Fin a, Fin b =>
      if Qc_eq_bool b Qc_zero then inf_of_sign (a ?= Qc_zero)%Qc
      else Fin (a / b)%Qc
  | Fin _, PInf | Fin _, NInf => Fin Qc_zero
  | PInf, Fin b => if Qc_ltb b Qc_zero then NInf else PInf
  | NInf, Fin b => if Qc_ltb b Qc_zero then PInf else NInf
  | _, _ => NaN
  end.

(** [x < y]; false as soon as an operand is NaN. *)
Definition num_ltb (x y : number) : bool :=
  match x, y with
  | NaN, _ | _, NaN => false
  | Fin a, Fin b => Qc_ltb a b
  | NInf, NInf | PInf, _ | _, NInf => false
  | NInf, _ | _, PInf => true
  end.

Definition num_gtb (x y : number) : bool := num_ltb y x.

(** SameValueZero, the key equality of [Map] and [Set]; NaN equals NaN. *)
Definition num_eqb (x y : number) : bool :=
  match x, y with
  | Fin a, Fin b => Qc_eq_bool a b
  | PInf, PInf | NInf, NInf | NaN, NaN => true
  | _, _ => false
  end.

(** Strict equality [===] on numbers; NaN differs from itself. *)
Definition num_strict_eqb (x y : number) : bool :=
  match x, y with
  | NaN, _ | _, NaN => false
  | _, _ => num_eqb x y
  end.

(** ToBoolean on a number: 0 and NaN are falsy. *)
Definition num_truthy (x : number) : bool :=
  match x with
  | Fin q => negb (Qc_eq_bool q Qc_zero)
  | NaN => false
  | _ => true
  end.

(** Truncation towards zero of a rational. *)
Definition Qtrunc (q : Q) : Z := Z.quot (Qnum q) (Zpos (Qden q)).

(** The remainder [n % d]: the sign of the dividend, NaN for an infinite
    dividend or a zero divisor, the dividend itself for an infinite
    divisor. *)
Definition num_rem (n d : number) : number :=
  match n, d with
  | NaN, _ | _, NaN => NaN
  | PInf, _ | NInf, _ => NaN
  | Fin a, PInf | Fin a, NInf => Fin a
  | Fin a, Fin b =>
      if Qc_eq_bool b Qc_zero then NaN
      else Fin (a - b * Q2Qc (inject_Z (Qtrunc (a / b)%Qc)))%Qc
  end.

Infix "+" := num_add : num_scope.
Infix "-" := num_sub : num_scope.
Infix "*" := num_mul : num_scope.
Infix "/" := num_div : num_scope.
Infix "<?" := num_ltb (at level 70) : num_scope.
Infix ">?" := num_gtb (at level 70) : num_scope.

Definition num0 : number := numZ 0.

(** The order of the extended rationals, as a proposition; NaN is
    unrelated to everything. *)
Definition num_le (x y : number) : Prop :=
  match x, y with
  | NaN, _ | _, NaN => False
  | Fin a, Fin b => (a <= b)%Qc
  | NInf, _ | _, PInf => True
  | _, _ => False
  end.

Definition num_lt (x y : number) : Prop := num_ltb x y = true.

(** *** Integral results: [Math.floor], [Math.round] and their printing *)

(** [Math.floor] and [Math.round] return an integral Number, an infinity
    or NaN; the model keeps that in the type, so that Number::toString is
    needed on integral values only. *)
Inductive integral : Type :=
| IntZ (z : Z)
| IntPInf
| IntNInf
| IntNaN.

Definition num_of_integral (i : integral) : number :=
  match i with
  | IntZ z => numZ z
  | IntPInf => PInf
  | IntNInf => NInf
  | IntNaN => NaN
  end.

Definition Math_floor (x : number) : integral :=
  match x with
  | Fin q => IntZ (Qfloor q)
  | PInf => IntPInf
  | NInf => IntNInf
  | NaN => IntNaN
  end.

(** [Math.round] rounds half-way cases towards +Infinity. *)
Definition Math_round (x : number) : integral :=
  match x with
  | Fin q => IntZ (Qfloor (q + Q2Qc (1 # 2))%Qc)
  | PInf => IntPInf
  | NInf => IntNInf
  | NaN => IntNaN
  end.

(** The decimal digits of an integer, as a template literal prints a
    Number of magnitude below 10^21 (beyond it JavaScript switches to the
    exponent notation of the binary64 value, which is outside the
    model). *)
Definition Z_toString (z : Z) : string := NilZero.string_of_int (Z.to_int z).

Definition toString (i : integral) : string :=
  match i with
  | IntZ z => Z_toString z
  | IntPInf => "Infinity"
  | IntNInf => "-Infinity"
  | IntNaN => "NaN"
  end.

(** ** Arrays, sets and maps *)

(** [arr[i]] for a Number [i]: [undefined] ([None]) unless [i] is a
    non-negative integer below the length. *)
Definition Array_get {A : Type} (arr : list A) (i : number) : option A :=
  match i with
  | Fin q =>
      let z := Qfloor q in
      if Qc_eq_bool q (Q2Qc (inject_Z z)) && (0 <=? z)%Z
      then nth_error arr (Z.to_nat z)
      else None
  | _ => None
  end.

(** [v || 0] on a possibly undefined Number. *)
Definition or_zero (v : option number) : number :=
  match v with
  | Some x => if num_truthy x then x else num0
  | None => num0
  end.

(** [Array.prototype.sort] with a comparator: a stable sort that places
    [b] before [a] exactly when the comparator answers a positive number
    on [(a, b)] (a NaN answer counts as 0).  For a consistent comparator
    the result is the one ECMAScript prescribes; the algorithm chosen here
    is insertion of the elements in their original order. *)
Section ArraySort.
Variable A : Type.
Variable compareFn : A -> A -> number.

Fixpoint sort_insert (x : A) (sorted : list A) : list A :=
  match sorted with
  | [] => [x]
  | y :: ys =>
      if (compareFn y x >? num0)%num then x :: y :: ys
      else y :: sort_insert x ys
  end.

Definition Array_sort (arr : list A) : list A :=
  fold_left (fun acc x => sort_insert x acc) arr [].
End ArraySort.

Section JsSet.
Variable A : Type.
Variable eqb : A -> A -> bool.

Definition Set_has (s : list A) (x : A) : bool := existsb (eqb x) s.

Definition Set_add (s : list A) (x : A) : list A :=
  if Set_has s x then s else s ++ [x].

(** [new Set(iterable)] *)
Definition Set_from (l : list A) : list A := fold_left Set_add l [].
End JsSet.

Section JsMap.
Variables K V : Type.
Variable eqb : K -> K -> bool.

Fixpoint Map_get (m : list (K * V)) (k : K) : option V :=
  match m with
  | [] => None
  | (k', v) :: m' => if eqb k k' then Some v else Map_get m' k
  end.

Definition Map_has (m : list (K * V)) (k : K) : bool :=
  match Map_get m k with Some _ => true | None => false end.

(** [set] keeps the position of a key already present and appends a new
    one; writing through the object [get] returned is a [set] on its
    key. *)
Fixpoint Map_set (m : list (K * V)) (k : K) (v : V) : list (K * V) :=
  match m with
  | [] => [(k, v)]
  | (k', v') :: m' =>
      if eqb k k' then (k', v) :: m' else (k', v') :: Map_set m' k v
  end.
End JsMap.

(** ** Strings *)

(** ToBoolean on a string: only the empty string is falsy. *)
Definition str_truthy (s : string) : bool :=
  match s with EmptyString => false | _ => true end.

(** ToBoolean on [string | null]. *)
Definition path_truthy (p : option string) : bool :=
  match p with Some s => str_truthy s | None => false end.

(** [a || b] on [string | null]. *)
Definition path_or (a b : option string) : option string :=
  if path_truthy a then a else b.

Definition path_eqb (a b : option string) : bool :=
  match a, b with
  | Some x, Some y => String.eqb x y
  | None, None => true
  | _, _ => false
  end.

(** [s.includes(needle)] *)
Fixpoint includes (s needle : string) : bool :=
  prefix needle s ||
  match s with
  | EmptyString => false
  | String _ s' => includes s' needle
  end.

(** [s.split(sep)] for a one-character separator. *)
Fixpoint split (sep : ascii) (s : string) : list string :=
  match s with
  | EmptyString => [EmptyString]
  | String c s' =>
      if Ascii.eqb c sep then EmptyString :: split sep s'
      else match split sep s' with
           | [] => [String c EmptyString]
           | p :: ps => String c p :: ps
           end
  end.

(** ** The data model (src/types/data.ts) *)

Record RecipeRunStats : Type := {
  recipe : string;
  sourceFileCount : number;
  sourceFileChangedCount : number;
  cumulativeScanningTime : number;
  percentile99ScanningTime : number;
  maxScanningTime : number;
  cumulativeEditTime : number;
  percentile99EditTime : number;
  maxEditTime : number
}.

Record SourceFileResults : Type := {
  sourcePathBefore : option string;
  sourcePathAfter : option string;
  recipeChanges : string;
  estimatedTimeSaving : number;
  cycle : number
}.

Module ROIMetrics.
Record t : Type := {
  totalTimeSaved : number;
  totalExecutionTime : number;
  roi : number;
  efficiency : number;
  impactPerFile : number;
  totalFilesProcessed : number;
  totalFilesChanged : number
}.
End ROIMetrics.

(** [RecipePerformanceMetrics extends RecipeRunStats]: the spread
    [...stats] is the field [stats]. *)
Module RecipePerformanceMetrics.
Record t : Type := {
  stats : RecipeRunStats;
  totalExecutionTimeMs : number;
  scanEditRatio : number;
  changeEfficiency : number;
  totalTimeSaved : number;
  recipeROI : number
}.
End RecipePerformanceMetrics.

Module ChangeTypeAggregation.
Record t : Type := {
  changeType : string;
  filesAffected : number;
  timeSaved : number;
  executionTime : number;
  recipes : list string
}.
End ChangeTypeAggregation.

(** The value type of [aggregationMap] in [aggregateByChangeType]. *)
Module Bucket.
Record t : Type := {
  filesAffected : list string;
  timeSaved : number;
  executionTime : number;
  recipes : list string
}.
End Bucket.

(** The value type of [cycleMap] in [calculateTimeSeries]. *)
Module CycleData.
Record t : Type := {
  timeSaved : number;
  files : list string;
  recipes : list string
}.
End CycleData.

(** An element of the intermediate array [cycles]. *)
Module CycleRow.
Record t : Type := {
  cycle : number;
  timeSaved : number;
  filesChanged : number;
  recipes : list string
}.
End CycleRow.

Module TimeSeriesPoint.
Record t : Type := {
  cycle : number;
  cumulativeTimeSaved : number;
  filesChanged : number;
  recipes : list string
}.
End TimeSeriesPoint.

Module DistributionStats.
Record t : Type := {
  mean : number;
  median : number;
  min : number;
  max : number;
  stdDev : number;
  percentile95 : number
}.
End DistributionStats.

(** ** DataProcessor *)

Open Scope num_scope.

(** [calculateROIMetrics] *)
Definition calculateROIMetrics
    (recipeStats : list RecipeRunStats)
    (sourceResults : list SourceFileResults) : ROIMetrics.t :=
  let totalTimeSaved :=
    fold_left (fun sum result => sum + estimatedTimeSaving result)
              sourceResults num0 in
  let totalExecutionTime :=
    fold_left (fun sum stats =>
                 let scanTimeMs := cumulativeScanningTime stats / numZ 1000000 in
                 let editTimeMs := cumulativeEditTime stats / numZ 1000000 in
                 sum + (scanTimeMs + editTimeMs) / numZ 1000)
              recipeStats num0 in
  let roi :=
    if totalExecutionTime >? num0
    then (totalTimeSaved / totalExecutionTime) * numZ 100
    else num0 in
  let totalFilesProcessed :=
    fold_left (fun sum stats => sum + sourceFileCount stats) recipeStats num0 in
  let uniqueFilesChanged :=
    num_of_nat
      (List.length
         (Set_from path_eqb
            (map (fun result =>
                    path_or (sourcePathAfter result) (sourcePathBefore result))
                 (filter (fun result =>
                            path_truthy
                              (path_or (sourcePathAfter result)
                                       (sourcePathBefore result)))
                         sourceResults)))) in
  let efficiency :=
    if totalFilesProcessed >? num0
    then (uniqueFilesChanged / totalFilesProcessed) * numZ 100
    else num0 in
  let impactPerFile :=
    if uniqueFilesChanged >? num0
    then totalTimeSaved / uniqueFilesChanged
    else num0 in
  {| ROIMetrics.totalTimeSaved := totalTimeSaved;
     ROIMetrics.totalExecutionTime := totalExecutionTime;
     ROIMetrics.roi := roi;
     ROIMetrics.efficiency := efficiency;
     ROIMetrics.impactPerFile := impactPerFile;
     ROIMetrics.totalFilesProcessed := totalFilesProcessed;
     ROIMetrics.totalFilesChanged := uniqueFilesChanged |}.

(** [enrichRecipeStats] *)
Definition enrichRecipeStats
    (recipeStats : list RecipeRunStats)
    (sourceResults : list SourceFileResults)
    : list RecipePerformanceMetrics.t :=
  map (fun stats =>
         let totalExecutionTimeMs :=
           (cumulativeScanningTime stats + cumulativeEditTime stats)
           / numZ 1000000 in
         let scanEditRatio :=
           if cumulativeEditTime stats >? num0
           then cumulativeScanningTime stats / cumulativeEditTime stats
           else if cumulativeScanningTime stats >? num0 then PInf else num0 in
         let changeEfficiency :=
           if sourceFileCount stats >? num0
           then (sourceFileChangedCount stats / sourceFileCount stats)
                * numZ 100
           else num0 in
         let totalTimeSaved :=
           fold_left (fun sum result => sum + estimatedTimeSaving result)
                     (filter (fun result =>
                                String.eqb (recipeChanges result) (recipe stats))
                             sourceResults)
                     num0 in
         let executionTimeSec := totalExecutionTimeMs / numZ 1000 in
         let recipeROI :=
           if executionTimeSec >? num0
           then (totalTimeSaved / executionTimeSec) * numZ 100
           else num0 in
         {| RecipePerformanceMetrics.stats := stats;
            RecipePerformanceMetrics.totalExecutionTimeMs := totalExecutionTimeMs;
            RecipePerformanceMetrics.scanEditRatio := scanEditRatio;
            RecipePerformanceMetrics.changeEfficiency := changeEfficiency;
            RecipePerformanceMetrics.totalTimeSaved := totalTimeSaved;
            RecipePerformanceMetrics.recipeROI := recipeROI |})
      recipeStats.

(** [extractChangeType] *)
Definition extractChangeType (recipeName : string) : string :=
  if negb (str_truthy recipeName) then "Unknown"
  else if includes recipeName "migrate" then "Migration"
  else if includes recipeName "OrderImports" then "Import Organization"
  else if includes recipeName "StringFormatted" then "String Formatting"
  else if includes recipeName "CompositeRecipe" then "Composite"
  else if includes recipeName "security" then "Security"
  else if includes recipeName "junit" then "Testing"
  else if includes recipeName "logging" then "Logging"
  else
    let parts := split "." recipeName in
    if (2 <? List.length parts)%nat then
      match nth_error parts (List.length parts - 2) with
      | Some part => if str_truthy part then part else "Other"
      | None => "Other"
      end
    else "Other".

Definition emptyBucket : Bucket.t :=
  {| Bucket.filesAffected := [];
     Bucket.timeSaved := num0;
     Bucket.executionTime := num0;
     Bucket.recipes := [] |}.

(** The body of the first [forEach] of [aggregateByChangeType].  The
    non-null assertion on [get] cannot fail, the key having just been
    set. *)
Definition aggregateSourceResult
    (aggregationMap : list (string * Bucket.t)) (result : SourceFileResults)
    : list (string * Bucket.t) :=
  let changeType := extractChangeType (recipeChanges result) in
  let aggregationMap :=
    if negb (Map_has String.eqb aggregationMap changeType)
    then Map_set String.eqb aggregationMap changeType emptyBucket
    else aggregationMap in
  match Map_get String.eqb aggregationMap changeType with
  | Some agg =>
      let filesAffected :=
        match sourcePathAfter result with
        | Some p =>
            if str_truthy p then Set_add String.eqb (Bucket.filesAffected agg) p
            else Bucket.filesAffected agg
        | None => Bucket.filesAffected agg
        end in
      Map_set String.eqb aggregationMap changeType
        {| Bucket.filesAffected := filesAffected;
           Bucket.timeSaved := Bucket.timeSaved agg + estimatedTimeSaving result;
           Bucket.executionTime := Bucket.executionTime agg;
           Bucket.recipes :=
             Set_add String.eqb (Bucket.recipes agg) (recipeChanges result) |}
  | None => aggregationMap
  end.

(** The body of the second [forEach]. *)
Definition aggregateRecipeStats
    (aggregationMap : list (string * Bucket.t)) (stats : RecipeRunStats)
    : list (string * Bucket.t) :=
  let changeType := extractChangeType (recipe stats) in
  match Map_get String.eqb aggregationMap changeType with
  | Some agg =>
      Map_set String.eqb aggregationMap changeType
        {| Bucket.filesAffected := Bucket.filesAffected agg;
           Bucket.timeSaved := Bucket.timeSaved agg;
           Bucket.executionTime :=
             Bucket.executionTime agg
             + (cumulativeScanningTime stats + cumulativeEditTime stats)
               / numZ 1000000;
           Bucket.recipes := Bucket.recipes agg |}
  | None => aggregationMap
  end.

(** [aggregateByChangeType] *)
Definition aggregateByChangeType
    (recipeStats : list RecipeRunStats)
    (sourceResults : list SourceFileResults)
    : list ChangeTypeAggregation.t :=
  let aggregationMap := fold_left aggregateSourceResult sourceResults [] in
  let aggregationMap := fold_left aggregateRecipeStats recipeStats aggregationMap in
  map (fun '(changeType, data) =>
         {| ChangeTypeAggregation.changeType := changeType;
            ChangeTypeAggregation.filesAffected :=
              num_of_nat (List.length (Bucket.filesAffected data));
            ChangeTypeAggregation.timeSaved := Bucket.timeSaved data;
            ChangeTypeAggregation.executionTime := Bucket.executionTime data;
            ChangeTypeAggregation.recipes := Bucket.recipes data |})
      aggregationMap.

Definition emptyCycle : CycleData.t :=
  {| CycleData.timeSaved := num0; CycleData.files := []; CycleData.recipes := [] |}.

(** The body of the [forEach] of [calculateTimeSeries]. *)
Definition addToCycle
    (cycleMap : list (number * CycleData.t)) (result : SourceFileResults)
    : list (number * CycleData.t) :=
  let cycleMap :=
    if negb (Map_has num_eqb cycleMap (cycle result))
    then Map_set num_eqb cycleMap (cycle result) emptyCycle
    else cycleMap in
  match Map_get num_eqb cycleMap (cycle result) with
  | Some c =>
      let files :=
        match sourcePathAfter result with
        | Some p =>
            if str_truthy p then Set_add String.eqb (CycleData.files c) p
            else CycleData.files c
        | None => CycleData.files c
        end in
      Map_set num_eqb cycleMap (cycle result)
        {| CycleData.timeSaved := CycleData.timeSaved c + estimatedTimeSaving result;
           CycleData.files := files;
           CycleData.recipes :=
             Set_add String.eqb (CycleData.recipes c) (recipeChanges result) |}
  | None => cycleMap
  end.

(** The last [map] of [calculateTimeSeries]; its closure updates the
    variable [cumulativeTimeSaved], here the first argument. *)
Fixpoint accumulate (cumulativeTimeSaved : number) (cycles : list CycleRow.t)
    : list TimeSeriesPoint.t :=
  match cycles with
  | [] => []
  | c :: rest =>
      let cumulativeTimeSaved := cumulativeTimeSaved + CycleRow.timeSaved c in
      {| TimeSeriesPoint.cycle := CycleRow.cycle c;
         TimeSeriesPoint.cumulativeTimeSaved := cumulativeTimeSaved;
         TimeSeriesPoint.filesChanged := CycleRow.filesChanged c;
         TimeSeriesPoint.recipes := CycleRow.recipes c |}
      :: accumulate cumulativeTimeSaved rest
  end.

(** [calculateTimeSeries] *)
Definition calculateTimeSeries (sourceResults : list SourceFileResults)
    : list TimeSeriesPoint.t :=
  let cycleMap := fold_left addToCycle sourceResults [] in
  let cycles :=
    map (fun '(cycleNum, data) =>
           {| CycleRow.cycle := cycleNum;
              CycleRow.timeSaved := CycleData.timeSaved data;
              CycleRow.filesChanged := num_of_nat (List.length (CycleData.files data));
              CycleRow.recipes := CycleData.recipes data |})
        (Array_sort (fun a b => fst a - fst b) cycleMap) in
  accumulate num0 cycles.

(** [formatDuration] *)
Definition formatDuration (seconds : number) : string :=
  if seconds <? numZ 60 then
    (toString (Math_round seconds) ++ "s")%string
  else if seconds <? numZ 3600 then
    let minutes := Math_floor (seconds / numZ 60) in
    let remainingSeconds := Math_round (num_rem seconds (numZ 60)) in
    (toString minutes ++ "min " ++ toString remainingSeconds ++ "s")%string
  else
    let hours := Math_floor (seconds / numZ 3600) in
    let minutes := Math_floor (num_rem seconds (numZ 3600) / numZ 60) in
    (toString hours ++ "h " ++ toString minutes ++ "min")%string.

(** [calculateDistributionStats]; [Math.sqrt] is a parameter. *)
Section DistributionStats.
Variable Math_sqrt : number -> number.

(** The part of [calculateDistributionStats] after the sort: the
    statistics, read from the array [values] and its sorted copy.
    [Math.pow(x, 2)] is the product [x * x].  The factor 0.95 is exact
    here; its binary64 value is a little below, by less than half a unit
    in the last place of any product [0.95 * N], so that the rounded
    product has the floor of the exact one. *)
Definition statsFromSorted (values sorted : list number) : DistributionStats.t :=
  let len := num_of_nat (List.length sorted) in
  let mean :=
    fold_left (fun sum val => sum + val) values num0
    / num_of_nat (List.length values) in
  let median :=
    if num_strict_eqb (num_rem len (numZ 2)) num0
    then (or_zero (Array_get sorted (len / numZ 2 - numZ 1))
          + or_zero (Array_get sorted (len / numZ 2))) / numZ 2
    else or_zero
           (Array_get sorted (num_of_integral (Math_floor (len / numZ 2)))) in
  let variance :=
    fold_left (fun sum val => sum + (val - mean) * (val - mean)) values num0
    / num_of_nat (List.length values) in
  let stdDev := Math_sqrt variance in
  let percentile95Index := Math_floor (len * numQ (95 # 100)) in
  let percentile95 :=
    or_zero (Array_get sorted (num_of_integral percentile95Index)) in
  {| DistributionStats.mean := mean;
     DistributionStats.median := median;
     DistributionStats.min := or_zero (Array_get sorted num0);
     DistributionStats.max := or_zero (Array_get sorted (len - numZ 1));
     DistributionStats.stdDev := stdDev;
     DistributionStats.percentile95 := percentile95 |}.

Definition zeroStats : DistributionStats.t :=
  {| DistributionStats.mean := num0; DistributionStats.median := num0;
     DistributionStats.min := num0; DistributionStats.max := num0;
     DistributionStats.stdDev := num0;
     DistributionStats.percentile95 := num0 |}.

Definition calculateDistributionStats (values : list number)
    : DistributionStats.t :=
  if (List.length values =? 0)%nat then zeroStats
  else
    let sorted := Array_sort (fun a b => a - b) values in
    statsFromSorted values sorted.
End DistributionStats.

(** ** The derivations on objects in a store

    The engine receives its arrays by reference.  To speak of what a call
    does to them, the store is made explicit: a reference is an index into
    a list of objects, and the five derivations are restated over
    references, with each access to an input written as the load, the
    allocation or the store the source performs. *)

Definition ref : Type := nat.

Inductive object : Type :=
| ObjNumbers (elems : list number)
| ObjRefs (elems : list ref)
| ObjRecipeRunStats (r : RecipeRunStats)
| ObjSourceFileResults (r : SourceFileResults).

Definition heap : Type := list object.

(** A computation on the store; [None] is a type error (a reference to
    nothing, or to an object of another shape), which TypeScript excludes. *)
Definition M (A : Type) : Type := heap -> option (A * heap).

Definition ret {A : Type} (a : A) : M A := fun h => Some (a, h).

Definition bind {A B : Type} (m : M A) (f : A -> M B) : M B :=
  fun h => match m h with
           | Some (a, h') => f a h'
           | None => None
           end.

Definition type_error {A : Type} : M A := fun _ => None.

Notation "x <- m ;; k" := (bind m (fun x => k))
  (at level 61, m at next level, right associativity).

Definition load (r : ref) : M object :=
  fun h => match nth_error h r with
           | Some o => Some (o, h)
           | None => None
           end.

(** A new object, at a reference not in use. *)
Definition alloc (o : object) : M ref :=
  fun h => Some (List.length h, h ++ [o]).

(** Overwriting the object at a reference. *)
Definition store (r : ref) (o : object) : M unit :=
  fun h => if (r <? List.length h)%nat
           then Some (tt, firstn r h ++ o :: skipn (S r) h)
           else None.

Definition load_numbers (r : ref) : M (list number) :=
  o <- load r ;;
  match o with ObjNumbers elems => ret elems | _ => type_error end.

Definition load_recipe (r : ref) : M RecipeRunStats :=
  o <- load r ;;
  match o with ObjRecipeRunStats v => ret v | _ => type_error end.

Definition load_result (r : ref) : M SourceFileResults :=
  o <- load r ;;
  match o with ObjSourceFileResults v => ret v | _ => type_error end.

Fixpoint load_each {A : Type} (get : ref -> M A) (refs : list ref) : M (list A) :=
  match refs with
  | [] => ret []
  | r :: rest =>
      v <- get r ;;
      vs <- load_each get rest ;;
      ret (v :: vs)
  end.

(** What [reduce], [filter], [map] and [forEach] see of an array of
    records: its elements, and through the callbacks' field reads the
    records themselves. *)
Definition load_records {A : Type} (get : ref -> M A) (arr : ref) : M (list A) :=
  o <- load arr ;;
  match o with ObjRefs refs => load_each get refs | _ => type_error end.

(** [arr.sort(compareFn)] sorts the array in place. *)
Definition sort_numbers (arr : ref) (compareFn : number -> number -> number)
    : M unit :=
  elems <- load_numbers arr ;;
  store arr (ObjNumbers (Array_sort compareFn elems)).

(** [[...arr]] allocates a copy. *)
Definition spread_numbers (arr : ref) : M ref :=
  elems <- load_numbers arr ;;
  alloc (ObjNumbers elems).

Definition calculateROIMetrics_ref (recipeStats sourceResults : ref)
    : M ROIMetrics.t :=
  rs <- load_records load_recipe recipeStats ;;
  srs <- load_records load_result sourceResults ;;
  ret (calculateROIMetrics rs srs).

Definition enrichRecipeStats_ref (recipeStats sourceResults : ref)
    : M (list RecipePerformanceMetrics.t) :=
  rs <- load_records load_recipe recipeStats ;;
  srs <- load_records load_result sourceResults ;;
  ret (enrichRecipeStats rs srs).

Definition aggregateByChangeType_ref (recipeStats sourceResults : ref)
    : M (list ChangeTypeAggregation.t) :=
  srs <- load_records load_result sourceResults ;;
  rs <- load_records load_recipe recipeStats ;;
  ret (aggregateByChangeType rs srs).

Definition calculateTimeSeries_ref (sourceResults : ref)
    : M (list TimeSeriesPoint.t) :=
  srs <- load_records load_result sourceResults ;;
  ret (calculateTimeSeries srs).

Definition calculateDistributionStats_ref
    (Math_sqrt : number -> number) (values : ref) : M DistributionStats.t :=
  elems <- load_numbers values ;;
  if (List.length elems =? 0)%nat then ret zeroStats
  else
    sorted <- spread_numbers values ;;
    _ <- sort_numbers sorted (fun a b => a - b) ;;
    sortedElems <- load_numbers sorted ;;
    ret (statsFromSorted Math_sqrt elems sortedElems).

(** The array of records [vs] is in the store at [arr]. *)
Definition holds_records {A : Type} (inj : A -> object)
    (h : heap) (arr : ref) (vs : list A) : Prop :=
  exists refs : list ref,
    nth_error h arr = Some (ObjRefs refs)
    /\ Forall2 (fun r v => nth_error h r = Some (inj v)) refs vs.

Definition holds_numbers (h : heap) (arr : ref) (vs : list number) : Prop :=
  nth_error h arr = Some (ObjNumbers vs).

(** Every object of [h] is in [h'], at the same reference, unchanged. *)
Definition preserved (h h' : heap) : Prop :=
  forall (r : ref) (o : object), nth_error h r = Some o -> nth_error h' r = Some o.

(** ** Definitions used to state the properties *)

(** The sum of an array of numbers, accumulated from 0 in the order of
    the array, as [reduce] and a running [+=] do. *)
Definition num_sum (l : list number) : number := fold_left num_add l num0.

(** [s] contains [needle] as a substring. *)
Definition contains (s needle : string) : Prop :=
  exists pre post : string, s = (pre ++ needle ++ post)%string.

(** The strings joined by a separator character. *)
Fixpoint join (sep : ascii) (parts : list string) : string :=
  match parts with
  | [] => EmptyString
  | [p] => p
  | p :: ps => (p ++ String sep (join sep ps))%string
  end.

(** [s] has the character [c]. *)
Fixpoint has_char (c : ascii) (s : string) : bool :=
  match s with
  | EmptyString => false
  | String c' s' => Ascii.eqb c' c || has_char c s'
  end.

(** The substring tests of the change-type classification, in order, with
    the change type each one selects. *)
Definition classification_rules : list (string * string) :=
  [ ("migrate", "Migration");
    ("OrderImports", "Import Organization");
    ("StringFormatted", "String Formatting");
    ("CompositeRecipe", "Composite");
    ("security", "Security");
    ("junit", "Testing");
    ("logging", "Logging") ].

(** [a ?? b] on [string | null]. *)
Definition path_nullish (a b : option string) : option string :=
  match a with Some p => Some p | None => b end.

(** The non-null values of [sourcePathAfter ?? sourcePathBefore]. *)
Definition nullish_paths (sourceResults : list SourceFileResults) : list string :=
  flat_map (fun r =>
              match path_nullish (sourcePathAfter r) (sourcePathBefore r) with
              | Some p => [p]
              | None => []
              end) sourceResults.

(** The values of [sourcePathAfter || sourcePathBefore] that are neither
    null nor empty. *)
Definition truthy_paths (sourceResults : list SourceFileResults) : list string :=
  flat_map (fun r =>
              match path_or (sourcePathAfter r) (sourcePathBefore r) with
              | Some p => if str_truthy p then [p] else []
              | None => []
              end) sourceResults.

(** The number of distinct elements of a list of strings. *)
Definition distinct_count (l : list string) : nat :=
  List.length (nodup string_dec l).

(** The execution time, in ms, that a recipe run contributes. *)
Definition executionTimeMs (r : RecipeRunStats) : number :=
  (cumulativeScanningTime r + cumulativeEditTime r) / numZ 1000000.

(** The recipe runs that classify to a change type. *)
Definition runs_of_type (changeType : string) (recipeStats : list RecipeRunStats)
    : list RecipeRunStats :=
  filter (fun r => String.eqb (extractChangeType (recipe r)) changeType) recipeStats.

(** The bucket with [x] added to its [executionTime]. *)
Definition add_executionTime (x : number) (b : Bucket.t) : Bucket.t :=
  {| Bucket.filesAffected := Bucket.filesAffected b;
     Bucket.timeSaved := Bucket.timeSaved b;
     Bucket.executionTime := Bucket.executionTime b + x;
     Bucket.recipes := Bucket.recipes b |}.

(** The last [map] of [aggregateByChangeType], on one entry. *)
Definition toAggregation (entry : string * Bucket.t) : ChangeTypeAggregation.t :=
  let '(changeType, data) := entry in
  {| ChangeTypeAggregation.changeType := changeType;
     ChangeTypeAggregation.filesAffected :=
       num_of_nat (List.length (Bucket.filesAffected data));
     ChangeTypeAggregation.timeSaved := Bucket.timeSaved data;
     ChangeTypeAggregation.executionTime := Bucket.executionTime data;
     ChangeTypeAggregation.recipes := Bucket.recipes data |}.

(** What the first [forEach] of [aggregateByChangeType] makes of a bucket
    when it processes a file change. *)
Definition absorbResult (agg : Bucket.t) (result : SourceFileResults) : Bucket.t :=
  {| Bucket.filesAffected :=
       match sourcePathAfter result with
       | Some p =>
           if str_truthy p then Set_add String.eqb (Bucket.filesAffected agg) p
           else Bucket.filesAffected agg
       | None => Bucket.filesAffected agg
       end;
     Bucket.timeSaved := Bucket.timeSaved agg + estimatedTimeSaving result;
     Bucket.executionTime := Bucket.executionTime agg;
     Bucket.recipes :=
       Set_add String.eqb (Bucket.recipes agg) (recipeChanges result) |}.

(** The value, or a default when there is none. *)
Definition get_or {V : Type} (default : V) (v : option V) : V :=
  match v with Some x => x | None => default end.

Abbreviation string_eqb_spec := String.eqb_eq.

(** What holds of the map after the first pass, over the file changes. *)
Definition first_pass_entry (sourceResults : list SourceFileResults)
    (entry : string * Bucket.t) : Prop :=
  (exists sr, In sr sourceResults
              /\ extractChangeType (recipeChanges sr) = fst entry
              /\ In (recipeChanges sr) (Bucket.recipes (snd entry)))
  /\ Bucket.executionTime (snd entry) = num0.

(** What the [forEach] of [calculateTimeSeries] makes of a cycle's entry
    when it processes a file change. *)
Definition absorbCycle (c : CycleData.t) (result : SourceFileResults) : CycleData.t :=
  {| CycleData.timeSaved := CycleData.timeSaved c + estimatedTimeSaving result;
     CycleData.files :=
       match sourcePathAfter result with
       | Some p =>
           if str_truthy p then Set_add String.eqb (CycleData.files c) p
           else CycleData.files c
       | None => CycleData.files c
       end;
     CycleData.recipes :=
       Set_add String.eqb (CycleData.recipes c) (recipeChanges result) |}.

(** The [map] after the sort in [calculateTimeSeries], on one entry. *)
Definition toCycleRow (entry : number * CycleData.t) : CycleRow.t :=
  let '(cycleNum, data) := entry in
  {| CycleRow.cycle := cycleNum;
     CycleRow.timeSaved := CycleData.timeSaved data;
     CycleRow.filesChanged := num_of_nat (List.length (CycleData.files data));
     CycleRow.recipes := CycleData.recipes data |}.

(** The median of a sorted sequence: the mean of the two middle elements
    for an even length, the middle element for an odd one. *)
Definition median_of (sorted : list number) : number :=
  let n := List.length sorted in
  if Nat.even n
  then (nth (n / 2 - 1) sorted num0 + nth (n / 2) sorted num0) / numZ 2
  else nth (n / 2) sorted num0.

(** The population variance: the mean squared deviation from the mean. *)
Definition population_variance (values : list number) : number :=
  let mean := num_sum values / num_of_nat (List.length values) in
  num_sum (map (fun v => (v - mean) * (v - mean)) values)
  / num_of_nat (List.length values).

(** The statistics of the one-element array [5]. *)
Definition statsOfFive : DistributionStats.t :=
  {| DistributionStats.mean := numZ 5; DistributionStats.median := numZ 5;
     DistributionStats.min := numZ 5; DistributionStats.max := numZ 5;
     DistributionStats.stdDev := num0;
     DistributionStats.percentile95 := numZ 5 |}.

(** ** Sample data *)

(** A recipe run of 2 s of scanning and 1 s of editing. *)
Definition run_3s : RecipeRunStats :=
  {| recipe := "org.openrewrite.java.OrderImports";
     sourceFileCount := numZ 10;
     sourceFileChangedCount := numZ 4;
     cumulativeScanningTime := numZ 2000000000;
     percentile99ScanningTime := num0;
     maxScanningTime := num0;
     cumulativeEditTime := numZ 1000000000;
     percentile99EditTime := num0;
     maxEditTime := num0 |}.

(** A file change that saves 6 s. *)
Definition change_6s : SourceFileResults :=
  {| sourcePathBefore := Some "src/A.java";
     sourcePathAfter := Some "src/A.java";
     recipeChanges := "org.openrewrite.java.OrderImports";
     estimatedTimeSaving := numZ 6;
     cycle := numZ 1 |}.

(** A file change with the given paths. *)
Definition change_of (before after : option string) : SourceFileResults :=
  {| sourcePathBefore := before;
     sourcePathAfter := after;
     recipeChanges := "org.openrewrite.java.OrderImports";
     estimatedTimeSaving := numZ 6;
     cycle := numZ 1 |}.

(** A recipe run with the given cumulative times. *)
Definition stats_of (scan edit : number) : RecipeRunStats :=
  {| recipe := "org.openrewrite.java.OrderImports";
     sourceFileCount := numZ 10;
     sourceFileChangedCount := numZ 4;
     cumulativeScanningTime := scan;
     percentile99ScanningTime := num0;
     maxScanningTime := num0;
     cumulativeEditTime := edit;
     percentile99EditTime := num0;
     maxEditTime := num0 |}.

(** A recipe run of change type "Testing". *)
Definition junit_run : RecipeRunStats :=
  {| recipe := "org.openrewrite.java.testing.junit5.JUnit5BestPractices";
     sourceFileCount := numZ 7;
     sourceFileChangedCount := num0;
     cumulativeScanningTime := numZ 5000000;
     percentile99ScanningTime := num0;
     maxScanningTime := num0;
     cumulativeEditTime := numZ 1000000;
     percentile99EditTime := num0;
     maxEditTime := num0 |}.

(** Two files whose path after the run is the empty string. *)
Definition two_renamed_to_empty : list SourceFileResults :=
  [change_of (Some "src/A.java") (Some ""); change_of (Some "src/B.java") (Some "")].

(** A file change in cycle [c] with the given saving. *)
Definition change_in (c saving : Z) : SourceFileResults :=
  {| sourcePathBefore := Some "src/A.java";
     sourcePathAfter := Some "src/A.java";
     recipeChanges := "org.openrewrite.java.OrderImports";
     estimatedTimeSaving := numZ saving;
     cycle := numZ c |}.

(** A saving of 5 in cycle 1, then of -3 in cycle 2. *)
Definition saving_then_loss : list SourceFileResults :=
  [change_in 1 5; change_in 2 (-3)].

(** Three changes over two cycles, out of order. *)
Definition three_changes : list SourceFileResults :=
  [change_in 2 4; change_in 1 5; change_in 2 0].

(** A stand-in for [Math.sqrt] on the model: the square root rounded
    down to a multiple of 2^-53 (NaN on negative numbers). *)
Definition sqrt_lower (x : number) : number :=
  match x with
  | Fin q =>
      if Qc_ltb q Qc_zero then NaN
      else
        let scale := (2 ^ 53)%positive in
        Fin (Q2Qc (Z.sqrt (Qnum q * Zpos (Qden q) * Zpos scale * Zpos scale)
                   # (Qden q * scale)))
  | PInf => PInf
  | NInf | NaN => NaN
  end.

(** A store with one recipe run, one file change, the two arrays holding
    them and an array of numbers. *)
Definition sample_heap : heap :=
  [ ObjRecipeRunStats run_3s;
    ObjSourceFileResults change_6s;
    ObjRefs [0%nat];
    ObjRefs [1%nat];
    ObjNumbers [numZ 3; numZ 1; numZ 2] ].

(** ** [calculateROIMetrics] on binary64 numbers

    The same function with Number read as binary64 (the primitive floats
    of the kernel), every operation rounded as ECMAScript rounds it.  It
    decides what the exact numbers above cannot: whether two ways of
    computing a value give the same Number. *)

Module Binary64.
Local Open Scope float_scope.

Record RecipeRunStats : Type := {
  recipe : string;
  sourceFileCount : float;
  sourceFileChangedCount : float;
  cumulativeScanningTime : float;
  percentile99ScanningTime : float;
  maxScanningTime : float;
  cumulativeEditTime : float;
  percentile99EditTime : float;
  maxEditTime : float
}.

Record SourceFileResults : Type := {
  sourcePathBefore : option string;
  sourcePathAfter : option string;
  recipeChanges : string;
  estimatedTimeSaving : float;
  cycle : float
}.

Module ROIMetrics.
Record t : Type := {
  totalTimeSaved : float;
  totalExecutionTime : float;
  roi : float;
  efficiency : float;
  impactPerFile : float;
  totalFilesProcessed : float;
  totalFilesChanged : float
}.
End ROIMetrics.

(** The size of a set as a Number. *)
Fixpoint of_size (n : nat) : float :=
  match n with
  | O => 0
  | S n' => of_size n' + 1
  end.

(** [calculateROIMetrics] *)
Definition calculateROIMetrics
    (recipeStats : list RecipeRunStats)
    (sourceResults : list SourceFileResults) : ROIMetrics.t :=
  let totalTimeSaved :=
    fold_left (fun sum result => sum + estimatedTimeSaving result)
              sourceResults 0 in
  let totalExecutionTime :=
    fold_left (fun sum stats =>
                 let scanTimeMs := cumulativeScanningTime stats / 1000000 in
                 let editTimeMs := cumulativeEditTime stats / 1000000 in
                 sum + (scanTimeMs + editTimeMs) / 1000)
              recipeStats 0 in
  let roi :=
    if 0 <? totalExecutionTime
    then (totalTimeSaved / totalExecutionTime) * 100
    else 0 in
  let totalFilesProcessed :=
    fold_left (fun sum stats => sum + sourceFileCount stats) recipeStats 0 in
  let uniqueFilesChanged :=
    of_size
      (List.length
         (Set_from path_eqb
            (map (fun result =>
                    path_or (sourcePathAfter result) (sourcePathBefore result))
                 (filter (fun result =>
                            path_truthy
                              (path_or (sourcePathAfter result)
                                       (sourcePathBefore result)))
                         sourceResults)))) in
  let efficiency :=
    if 0 <? totalFilesProcessed
    then (uniqueFilesChanged / totalFilesProcessed) * 100
    else 0 in
  let impactPerFile :=
    if 0 <? uniqueFilesChanged
    then totalTimeSaved / uniqueFilesChanged
    else 0 in
  {| ROIMetrics.totalTimeSaved := totalTimeSaved;
     ROIMetrics.totalExecutionTime := totalExecutionTime;
     ROIMetrics.roi := roi;
     ROIMetrics.efficiency := efficiency;
     ROIMetrics.impactPerFile := impactPerFile;
     ROIMetrics.totalFilesProcessed := totalFilesProcessed;
     ROIMetrics.totalFilesChanged := uniqueFilesChanged |}.

(** A sum accumulated from 0 in the order of the array, as [reduce]
    does. *)
Definition accumulated (l : list float) : float := fold_left PrimFloat.add l 0.

(** The total execution time as the specification words it: the sum of
    [(cumulativeScanningTime + cumulativeEditTime) / 1e9]. *)
Definition stated_totalExecutionTime (recipeStats : list RecipeRunStats) : float :=
  accumulated (map (fun stats =>
                      (cumulativeScanningTime stats + cumulativeEditTime stats)
                      / 1000000000)
                   recipeStats).

(** A recipe run of 1 ns of scanning. *)
Definition run_1ns : RecipeRunStats :=
  {| recipe := "org.openrewrite.java.OrderImports";
     sourceFileCount := 10;
     sourceFileChangedCount := 4;
     cumulativeScanningTime := 1;
     percentile99ScanningTime := 0;
     maxScanningTime := 0;
     cumulativeEditTime := 0;
     percentile99EditTime := 0;
     maxEditTime := 0 |}.

(** A file change that saves 6 s. *)
Definition change_6s : SourceFileResults :=
  {| sourcePathBefore := Some "src/A.java";
     sourcePathAfter := Some "src/A.java";
     recipeChanges := "org.openrewrite.java.OrderImports";
     estimatedTimeSaving := 6;
     cycle := 1 |}.
End Binary64.

(** ** More of DataProcessor *)

Module TimeUnit.
Inductive t : Type := ns | ms | s | min | h.
End TimeUnit.

(** [convertTimeUnit], on the five values of [TimeUnit]. *)
Definition convertTimeUnit (nanoseconds : number) (targetUnit : TimeUnit.t)
    : number :=
  match targetUnit with
  | TimeUnit.ns => nanoseconds
  | TimeUnit.ms => nanoseconds / numZ 1000000
  | TimeUnit.s => nanoseconds / numZ 1000000000
  | TimeUnit.min => nanoseconds / numZ 60000000000
  | TimeUnit.h => nanoseconds / numZ 3600000000000
  end.

Module RecipeHierarchy.
#[warnings="-register-all"]
Inductive t : Type := make {
  name : string;
  parent : option string;
  children : list t;
  metrics : RecipePerformanceMetrics.t;
  depth : number
}.
End RecipeHierarchy.

(** [buildRecipeHierarchy] *)
Definition buildRecipeHierarchy
    (recipeStats : list RecipeRunStats)
    (sourceResults : list SourceFileResults) : list RecipeHierarchy.t :=
  let enrichedStats := enrichRecipeStats recipeStats sourceResults in
  let hierarchyMap :=
    fold_left
      (fun hierarchyMap stats =>
         Map_set String.eqb hierarchyMap
           (recipe (RecipePerformanceMetrics.stats stats))
           {| RecipeHierarchy.name := recipe (RecipePerformanceMetrics.stats stats);
              RecipeHierarchy.parent := None;
              RecipeHierarchy.children := [];
              RecipeHierarchy.metrics := stats;
              RecipeHierarchy.depth := num0 |})
      enrichedStats [] in
  map snd hierarchyMap.

(** ** More definitions used to state properties *)

(** The last element of a list that satisfies a test. *)
Definition find_last {A : Type} (test : A -> bool) (l : list A) : option A :=
  find test (rev l).

(** The file changes that classify to a change type. *)
Definition changes_of_type (changeType : string)
    (sourceResults : list SourceFileResults) : list SourceFileResults :=
  filter (fun sr => String.eqb (extractChangeType (recipeChanges sr)) changeType)
         sourceResults.

(** The paths after the run that are neither null nor empty. *)
Definition paths_after (sourceResults : list SourceFileResults) : list string :=
  flat_map (fun sr =>
              match sourcePathAfter sr with
              | Some p => if str_truthy p then [p] else []
              | None => []
              end) sourceResults.


(** The node [buildRecipeHierarchy] makes of the metrics of a recipe. *)
Definition rootNode (stats : RecipePerformanceMetrics.t) : RecipeHierarchy.t :=
  {| RecipeHierarchy.name := recipe (RecipePerformanceMetrics.stats stats);
     RecipeHierarchy.parent := None;
     RecipeHierarchy.children := [];
     RecipeHierarchy.metrics := stats;
     RecipeHierarchy.depth := num0 |}.

(** The recipe name of an entry of [enrichRecipeStats]. *)
Definition recipeOf (m : RecipePerformanceMetrics.t) : string :=
  recipe (RecipePerformanceMetrics.stats m).

(** The change type of a file change. *)
Definition typeOf (sr : SourceFileResults) : string :=
  extractChangeType (recipeChanges sr).

(** ** DataLoader

    The part of the loader after [d3.csv] has delivered the rows.  A row
    is the object [d3.csv] makes of a line: its columns, each name once,
    with their texts, in the order of [Object.values] (the order of the
    header, no column of these files being named by an integer).  The
    string built-ins the loader calls ([trim], [toLowerCase],
    [toUpperCase], [parseFloat]) are parameters, gathered in
    [Builtins]. *)

Record Builtins : Type := {
  trim : string -> string;
  toLowerCase : string -> string;
  toUpperCase : string -> string;
  parseFloat : string -> number
}.

Definition row : Type := list (string * string).

(** [row[column]]; [None] is [undefined]. *)
Definition column (r : row) (name : string) : option string :=
  Map_get String.eqb r name.

(** [s.startsWith(c)] and [s.endsWith(c)] for a one-character [c]. *)
Definition startsWith (s : string) (c : ascii) : bool :=
  match s with
  | String c' _ => Ascii.eqb c' c
  | EmptyString => false
  end.

Fixpoint endsWith (s : string) (c : ascii) : bool :=
  match s with
  | EmptyString => false
  | String c' EmptyString => Ascii.eqb c' c
  | String _ s' => endsWith s' c
  end.

Fixpoint dropLast (s : string) : string :=
  match s with
  | EmptyString => EmptyString
  | String _ EmptyString => EmptyString
  | String c s' => String c (dropLast s')
  end.

(** [s.slice(1, -1)] *)
Definition slice_1_m1 (s : string) : string :=
  match s with
  | EmptyString => EmptyString
  | String _ s' => dropLast s'
  end.

(** The double quote. *)
Definition double_quote : ascii := ascii_of_nat 34.

(** The test for a pair of enclosing quotes, double or single. *)
Definition quoted (str : string) : bool :=
  (startsWith str double_quote && endsWith str double_quote)
  || (startsWith str "'" && endsWith str "'").

(** [array.filter((x, index) => f(x, index))] *)
Fixpoint filter_from {A : Type} (f : A -> nat -> bool) (index : nat) (l : list A)
    : list A :=
  match l with
  | [] => []
  | x :: l' =>
      if f x index then x :: filter_from f (S index) l'
      else filter_from f (S index) l'
  end.

Definition filter_indexed {A : Type} (f : A -> nat -> bool) (l : list A) : list A :=
  filter_from f 0 l.

Module UsageReportEntry.
Record t : Type := {
  runId : string;
  recipeId : string;
  organizationId : string;
  recipeRunState : string;
  repositoryOrigin : string;
  repositoryPath : string;
  repositoryBranch : string;
  recipeRunUserEmail : string;
  errorMarkers : number;
  warningMarkers : number;
  infoMarkers : number;
  debugMarkers : number;
  totalFilesResults : number;
  totalFilesSearched : number;
  totalFilesChanges : number;
  timeSavingsInMinutes : number;
  astLoadInMilliseconds : number;
  recipeRunInMilliseconds : number;
  dependencyResolutionInMilliseconds : number;
  recipeRunCreatedAt : string;
  recipeRunUpdatedAt : string;
  stack : string;
  priority : string;
  commitId : option string;
  type : option string;
  commitState : option string;
  commitUserEmail : option string;
  commitModifiedAt : option string
}.
End UsageReportEntry.

(** The arrays the cache holds, by kind ([any[]] in the source). *)
Inductive CacheEntry : Type :=
| CachedRecipeStats (data : list RecipeRunStats)
| CachedSourceResults (data : list SourceFileResults)
| CachedUsageReport (data : list UsageReportEntry.t).

Definition Cache : Type := list (string * CacheEntry).

(** What a load comes to: the array; the error thrown when [d3.csv]
    fails; or a cached array of another kind, which the unchecked cast
    [as T[]] would hand out. *)
Inductive outcome (A : Type) : Type :=
| Loaded (data : A)
| LoadError (filePath : string)
| Miscast (entry : CacheEntry).

Arguments Loaded {A} data.
Arguments LoadError {A} filePath.
Arguments Miscast {A} entry.

Section Loader.
Variable js : Builtins.

(** [parseString] *)
Definition parseString (value : option string) : string :=
  match value with
  | None => ""
  | Some value =>
      let str := trim js value in
      if quoted str then slice_1_m1 str else str
  end.

(** [parseStringOrNull] *)
Definition parseStringOrNull (value : option string) : option string :=
  let parsed := parseString value in
  if String.eqb parsed "" || String.eqb (toLowerCase js parsed) "null"
  then None else Some parsed.

(** [isNaN] on a number. *)
Definition isNaN (x : number) : bool :=
  match x with NaN => true | _ => false end.

(** [parseNumber] *)
Definition parseNumber (value : option string) : number :=
  match value with
  | None => num0
  | Some value =>
      if String.eqb value "" then num0
      else
        let str := trim js value in
        let str := if quoted str then trim js (slice_1_m1 str) else str in
        if String.eqb str "" || String.eqb (toLowerCase js str) "null" then num0
        else
          let parsed := parseFloat js str in
          if isNaN parsed then num0 else parsed
  end.

Definition descriptionKeywords : list string :=
  [ "The recipe whose stats are being measured";
    "The source path of the file before the run";
    "measured both individually";
    "null when" ].

(** [isDescriptionRow]; [None] is the [undefined] that [csvData[0]] is on
    an empty array. *)
Definition isDescriptionRow (r : option row) : bool :=
  match r with
  | None => false
  | Some r =>
      match r with
      | [] => false
      | (_, firstValue) :: _ =>
          if negb (str_truthy firstValue) then false
          else existsb (fun keyword =>
                          includes (toLowerCase js firstValue)
                                   (toLowerCase js keyword))
                       descriptionKeywords
      end
  end.

(** The rows kept: all but a first row of descriptions. *)
Definition dataRows (csvData : list row) : list row :=
  filter_indexed (fun _ index =>
                    (0 <? index)%nat || negb (isDescriptionRow (nth_error csvData 0)))
                 csvData.

(** [item.field && item.field.trim() !== ''] *)
Definition not_blank (s : string) : bool :=
  str_truthy s && negb (String.eqb (trim js s) "").

(** The rows of RecipeRunStats.csv, as [loadRecipeRunStats] parses them. *)
Definition parseRecipeRunStats (csvData : list row) : list RecipeRunStats :=
  filter (fun item => not_blank (recipe item))
    (map (fun r =>
            {| recipe := parseString (column r "The recipe");
               sourceFileCount := parseNumber (column r "Source file count");
               sourceFileChangedCount :=
                 parseNumber (column r "Source file changed count");
               cumulativeScanningTime :=
                 parseNumber (column r "Cumulative scanning time (ns)");
               percentile99ScanningTime :=
                 parseNumber (column r "99th percentile scanning time (ns)");
               maxScanningTime := parseNumber (column r "Max scanning time (ns)");
               cumulativeEditTime :=
                 parseNumber (column r "Cumulative edit time (ns)");
               percentile99EditTime :=
                 parseNumber (column r "99th percentile edit time (ns)");
               maxEditTime := parseNumber (column r "Max edit time (ns)") |})
         (dataRows csvData)).

(** The rows of SourcesFileResults.csv, as [loadSourceFileResults] parses
    them. *)
Definition parseSourceFileResults (csvData : list row) : list SourceFileResults :=
  filter (fun item => not_blank (recipeChanges item))
    (map (fun r =>
            {| sourcePathBefore :=
                 parseStringOrNull (column r "Source path before the run");
               sourcePathAfter :=
                 parseStringOrNull (column r "Source path after the run");
               recipeChanges := parseString (column r "Recipe that made changes");
               estimatedTimeSaving := parseNumber (column r "Estimated time saving");
               cycle := parseNumber (column r "Cycle") |})
         (dataRows csvData)).

(** The rows of usage-report.csv, as [loadUsageReport] parses them (no
    description row there). *)
Definition parseUsageReport (csvData : list row) : list UsageReportEntry.t :=
  filter (fun item =>
            if negb (str_truthy (UsageReportEntry.runId item))
               || negb (str_truthy (UsageReportEntry.recipeId item))
            then false
            else
              let commitState :=
                toUpperCase js
                  (trim js
                     (match UsageReportEntry.commitState item with
                      | Some s => if str_truthy s then s else ""
                      | None => ""
                      end)) in
              String.eqb commitState "COMPLETED")
    (map (fun r =>
            {| UsageReportEntry.runId := parseString (column r "runId");
               UsageReportEntry.recipeId := parseString (column r "recipeId");
               UsageReportEntry.organizationId :=
                 parseString (column r "organizationId");
               UsageReportEntry.recipeRunState :=
                 parseString (column r "recipeRunState");
               UsageReportEntry.repositoryOrigin :=
                 parseString (column r "repositoryOrigin");
               UsageReportEntry.repositoryPath :=
                 parseString (column r "repositoryPath");
               UsageReportEntry.repositoryBranch :=
                 parseString (column r "repositoryBranch");
               UsageReportEntry.recipeRunUserEmail :=
                 parseString (column r "recipeRunUserEmail");
               UsageReportEntry.errorMarkers := parseNumber (column r "errorMarkers");
               UsageReportEntry.warningMarkers :=
                 parseNumber (column r "warningMarkers");
               UsageReportEntry.infoMarkers := parseNumber (column r "infoMarkers");
               UsageReportEntry.debugMarkers := parseNumber (column r "debugMarkers");
               UsageReportEntry.totalFilesResults :=
                 parseNumber (column r "totalFilesResults");
               UsageReportEntry.totalFilesSearched :=
                 parseNumber (column r "totalFilesSearched");
               UsageReportEntry.totalFilesChanges :=
                 parseNumber (column r "totalFilesChanges");
               UsageReportEntry.timeSavingsInMinutes :=
                 parseNumber (column r "timeSavingsInMinutes");
               UsageReportEntry.astLoadInMilliseconds :=
                 parseNumber (column r "astLoadInMilliseconds");
               UsageReportEntry.recipeRunInMilliseconds :=
                 parseNumber (column r "recipeRunInMilliseconds");
               UsageReportEntry.dependencyResolutionInMilliseconds :=
                 parseNumber (column r "dependencyResolutionInMilliseconds");
               UsageReportEntry.recipeRunCreatedAt :=
                 parseString (column r "recipeRunCreatedAt");
               UsageReportEntry.recipeRunUpdatedAt :=
                 parseString (column r "recipeRunUpdatedAt");
               UsageReportEntry.stack := parseString (column r "stack");
               UsageReportEntry.priority := parseString (column r "priority");
               UsageReportEntry.commitId := parseStringOrNull (column r "commitId");
               UsageReportEntry.type := parseStringOrNull (column r "type");
               UsageReportEntry.commitState :=
                 parseStringOrNull (column r "commitState");
               UsageReportEntry.commitUserEmail :=
                 parseStringOrNull (column r "commitUserEmail");
               UsageReportEntry.commitModifiedAt :=
                 parseStringOrNull (column r "commitModifiedAt") |})
         csvData).

(** A load runs in two steps with [await d3.csv(filePath)] between them,
    and other loads and [clearCache] can run in between.  The first step
    looks the path up in the cache ([cache.has] and [cache.get] are the
    one lookup); the second, from the answer of [d3.csv] on, works on the
    cache as it is by then. *)

(** [loadRecipeRunStats] up to [await]: the array from the cache, or
    [None] when the file is to be read. *)
Definition loadRecipeRunStats_start (filePath : string) (cache : Cache)
    : option (outcome (list RecipeRunStats)) :=
  let cacheKey := ("recipe-stats-" ++ filePath)%string in
  match Map_get String.eqb cache cacheKey with
  | Some (CachedRecipeStats data) => Some (Loaded data)
  | Some entry => Some (Miscast entry)
  | None => None
  end.

(** [loadRecipeRunStats] from the answer of [d3.csv] on; the answer is
    the rows, or [None] when the promise is rejected. *)
Definition loadRecipeRunStats_resume
    (filePath : string) (answer : option (list row)) (cache : Cache)
    : outcome (list RecipeRunStats) * Cache :=
  let cacheKey := ("recipe-stats-" ++ filePath)%string in
  match answer with
  | Some csvData =>
      let parsedData := parseRecipeRunStats csvData in
      (Loaded parsedData,
       Map_set String.eqb cache cacheKey (CachedRecipeStats parsedData))
  | None => (LoadError filePath, cache)
  end.

(** [loadSourceFileResults] up to [await] *)
Definition loadSourceFileResults_start (filePath : string) (cache : Cache)
    : option (outcome (list SourceFileResults)) :=
  let cacheKey := ("source-results-" ++ filePath)%string in
  match Map_get String.eqb cache cacheKey with
  | Some (CachedSourceResults data) => Some (Loaded data)
  | Some entry => Some (Miscast entry)
  | None => None
  end.

(** [loadSourceFileResults] from the answer of [d3.csv] on *)
Definition loadSourceFileResults_resume
    (filePath : string) (answer : option (list row)) (cache : Cache)
    : outcome (list SourceFileResults) * Cache :=
  let cacheKey := ("source-results-" ++ filePath)%string in
  match answer with
  | Some csvData =>
      let parsedData := parseSourceFileResults csvData in
      (Loaded parsedData,
       Map_set String.eqb cache cacheKey (CachedSourceResults parsedData))
  | None => (LoadError filePath, cache)
  end.

(** [loadUsageReport] up to [await] *)
Definition loadUsageReport_start (filePath : string) (cache : Cache)
    : option (outcome (list UsageReportEntry.t)) :=
  let cacheKey := ("usage-report-" ++ filePath)%string in
  match Map_get String.eqb cache cacheKey with
  | Some (CachedUsageReport data) => Some (Loaded data)
  | Some entry => Some (Miscast entry)
  | None => None
  end.

(** [loadUsageReport] from the answer of [d3.csv] on *)
Definition loadUsageReport_resume
    (filePath : string) (answer : option (list row)) (cache : Cache)
    : outcome (list UsageReportEntry.t) * Cache :=
  let cacheKey := ("usage-report-" ++ filePath)%string in
  match answer with
  | Some csvData =>
      let parsedData := parseUsageReport csvData in
      (Loaded parsedData,
       Map_set String.eqb cache cacheKey (CachedUsageReport parsedData))
  | None => (LoadError filePath, cache)
  end.

(** What [d3.csv] answers for a path at the time of a call. *)
Variable csv : string -> option (list row).

(** [loadRecipeRunStats] with nothing else running between its two
    steps. *)
Definition loadRecipeRunStats (filePath : string) (cache : Cache)
    : outcome (list RecipeRunStats) * Cache :=
  match loadRecipeRunStats_start filePath cache with
  | Some result => (result, cache)
  | None => loadRecipeRunStats_resume filePath (csv filePath) cache
  end.

(** [loadSourceFileResults] with nothing else running between its two
    steps. *)
Definition loadSourceFileResults (filePath : string) (cache : Cache)
    : outcome (list SourceFileResults) * Cache :=
  match loadSourceFileResults_start filePath cache with
  | Some result => (result, cache)
  | None => loadSourceFileResults_resume filePath (csv filePath) cache
  end.

(** [loadUsageReport] with nothing else running between its two steps. *)
Definition loadUsageReport (filePath : string) (cache : Cache)
    : outcome (list UsageReportEntry.t) * Cache :=
  match loadUsageReport_start filePath cache with
  | Some result => (result, cache)
  | None => loadUsageReport_resume filePath (csv filePath) cache
  end.
End Loader.

(** [clearCache] *)
Definition clearCache (cache : Cache) : Cache := [].

Definition entry_length (entry : CacheEntry) : nat :=
  match entry with
  | CachedRecipeStats data => List.length data
  | CachedSourceResults data => List.length data
  | CachedUsageReport data => List.length data
  end.

Module CacheStats.
Record t : Type := {
  size : number;
  keys : list string;
  totalItems : number
}.
End CacheStats.

(** [getCacheStats] *)
Definition getCacheStats (cache : Cache) : CacheStats.t :=
  let keys := map fst cache in
  let totalItems :=
    fold_left (fun sum arr => sum + num_of_nat (entry_length arr))
              (map snd cache) num0 in
  {| CacheStats.size := num_of_nat (List.length cache);
     CacheStats.keys := keys;
     CacheStats.totalItems := totalItems |}.

(** ** Definitions used to state properties of the loader *)

(** The key prefix under which each kind of array is cached. *)
Definition key_prefix (entry : CacheEntry) : string :=
  match entry with
  | CachedRecipeStats _ => "recipe-stats-"
  | CachedSourceResults _ => "source-results-"
  | CachedUsageReport _ => "usage-report-"
  end.

(** Every array of the cache sits under a key of its own kind. *)
Definition well_kinded (cache : Cache) : Prop :=
  forall key entry, In (key, entry) cache -> prefix (key_prefix entry) key = true.

(** No load has handed out an array of another kind. *)
Definition well_cast {A : Type} (result : outcome A) : Prop :=
  match result with
  | Miscast _ => False
  | _ => True
  end.

(** A text in quotes. *)
Definition in_quotes (q : ascii) (s : string) : string :=
  String q (s ++ String q "").

(** *** Stand-ins for the built-ins, on ASCII text and unsigned integers *)

Fixpoint map_string (f : ascii -> ascii) (s : string) : string :=
  match s with
  | EmptyString => EmptyString
  | String c s' => String (f c) (map_string f s')
  end.

Definition ascii_lower (c : ascii) : ascii :=
  let n := nat_of_ascii c in
  if ((65 <=? n) && (n <=? 90))%nat then ascii_of_nat (n + 32) else c.

Definition ascii_upper (c : ascii) : ascii :=
  let n := nat_of_ascii c in
  if ((97 <=? n) && (n <=? 122))%nat then ascii_of_nat (n - 32) else c.

Fixpoint trim_start (s : string) : string :=
  match s with
  | String c s' => if Ascii.eqb c " " then trim_start s' else s
  | EmptyString => EmptyString
  end.

Fixpoint trim_end (s : string) : string :=
  match s with
  | EmptyString => EmptyString
  | String c s' =>
      let t := trim_end s' in
      if Ascii.eqb c " " && String.eqb t "" then "" else String c t
  end.

Fixpoint leading_digits (s : string) (acc : option Z) : option Z :=
  match s with
  | EmptyString => acc
  | String c s' =>
      let n := nat_of_ascii c in
      if ((48 <=? n) && (n <=? 57))%nat
      then leading_digits s'
             (Some (10 * match acc with Some a => a | None => 0 end
                    + Z.of_nat (n - 48)))%Z
      else acc
  end.

Definition sample_js : Builtins :=
  {| trim := fun s => trim_end (trim_start s);
     toLowerCase := map_string ascii_lower;
     toUpperCase := map_string ascii_upper;
     parseFloat := fun s =>
       match leading_digits s None with
       | Some z => numZ z
       | None => NaN
       end |}.

(** A SourcesFileResults.csv: the row of descriptions, then two file
    changes. *)
Definition results_row (before after recipeName saving cycleNo : string) : row :=
  [ ("Source path before the run", before);
    ("Source path after the run", after);
    ("Recipe that made changes", recipeName);
    ("Estimated time saving", saving);
    ("Cycle", cycleNo) ].

Definition sample_results_csv : list row :=
  [ results_row "The source path of the file before the run. null when a file was created"
                "A recipe may modify the source path"
                "The specific recipe that made a change"
                "An estimated effort"
                "The recipe cycle";
    results_row "src/A.java" "src/A.java" "org.openrewrite.java.RemoveUnusedImports"
                "300" "1";
    results_row "null" " 'src/B.java' " "org.openrewrite.java.format.AutoFormat"
                "120" "2" ].

(** [d3.csv] where only that file exists. *)
Definition sample_csv (filePath : string) : option (list row) :=
  if String.eqb filePath "data/org.openrewrite.table.SourcesFileResults.csv"
  then Some sample_results_csv else None.

(** What changes the cache while loads run together: a load of a file
    gets the answer of [d3.csv] and goes on from there, or [clearCache] is
    called.  (The first step of a load changes nothing.) *)
Inductive cache_event : Type :=
| RecipeStatsAnswered (filePath : string) (answer : option (list row))
| SourceResultsAnswered (filePath : string) (answer : option (list row))
| UsageReportAnswered (filePath : string) (answer : option (list row))
| CacheCleared.

Definition after_event (js : Builtins) (cache : Cache) (e : cache_event) : Cache :=
  match e with
  | RecipeStatsAnswered filePath answer =>
      snd (loadRecipeRunStats_resume js filePath answer cache)
  | SourceResultsAnswered filePath answer =>
      snd (loadSourceFileResults_resume js filePath answer cache)
  | UsageReportAnswered filePath answer =>
      snd (loadUsageReport_resume js filePath answer cache)
  | CacheCleared => clearCache cache
  end.

Definition after_events (js : Builtins) (events : list cache_event) (cache : Cache)
    : Cache :=
  fold_left (after_event js) events cache.

(** The key under which an event stores an array, and the array. *)
Definition stored (js : Builtins) (e : cache_event) : option (string * CacheEntry) :=
  match e with
  | RecipeStatsAnswered filePath (Some csvData) =>
      Some (("recipe-stats-" ++ filePath)%string,
            CachedRecipeStats (parseRecipeRunStats js csvData))
  | SourceResultsAnswered filePath (Some csvData) =>
      Some (("source-results-" ++ filePath)%string,
            CachedSourceResults (parseSourceFileResults js csvData))
  | UsageReportAnswered filePath (Some csvData) =>
      Some (("usage-report-" ++ filePath)%string,
            CachedUsageReport (parseUsageReport js csvData))
  | _ => None
  end.

(** An event that takes away or replaces what the cache holds under a
    key: [clearCache], or a file read and stored under that key. *)
Definition disturbs (js : Builtins) (key : string) (e : cache_event) : Prop :=
  e = CacheCleared \/ exists entry, stored js e = Some (key, entry).

(** A usage-report.csv: a completed commit, then a run without commit. *)
Definition usage_row (run recipeName state : string) : row :=
  [ ("runId", run); ("recipeId", recipeName); ("commitState", state) ].

Definition sample_usage_csv : list row :=
  [ usage_row "run-1" "org.openrewrite.java.OrderImports" " completed ";
    usage_row "run-2" "org.openrewrite.java.format.AutoFormat" "null" ].

(** ** The views of the application: the data they prepare

    Of the methods of [App] that draw a chart or a table, the part that
    prepares its data from the loaded and the derived records.  [sort]
    works in place on [enrichedStats], which the views share: a view is
    given the array in the order it has when the view is drawn. *)

Module ConvertedData.
Record t : Type := {
  metrics : RecipePerformanceMetrics.t;
  totalExecutionTimeConverted : number;
  scanTimeConverted : number;
  editTimeConverted : number
}.
End ConvertedData.

(** [convertTime] of [renderExecutionTimeChart], for the time unit of the
    active button. *)
Definition convertTime (timeUnit : string) (nanoseconds : number) : number :=
  if String.eqb timeUnit "s" then nanoseconds / numZ 1000000000
  else if String.eqb timeUnit "ms" then nanoseconds / numZ 1000000
  else nanoseconds / numZ 1000000.

(** [chartData] of [renderExecutionTimeChart] *)
Definition renderExecutionTimeChart_chartData
    (enrichedStats : list RecipePerformanceMetrics.t)
    : list RecipePerformanceMetrics.t :=
  firstn 10
    (Array_sort (fun a b => RecipePerformanceMetrics.totalExecutionTimeMs b
                            - RecipePerformanceMetrics.totalExecutionTimeMs a)
                enrichedStats).

(** [convertedData] of [renderExecutionTimeChart] *)
Definition renderExecutionTimeChart_convertedData
    (timeUnit : string) (enrichedStats : list RecipePerformanceMetrics.t)
    : list ConvertedData.t :=
  map (fun d =>
         let stats := RecipePerformanceMetrics.stats d in
         {| ConvertedData.metrics := d;
            ConvertedData.totalExecutionTimeConverted :=
              convertTime timeUnit
                (cumulativeScanningTime stats + cumulativeEditTime stats);
            ConvertedData.scanTimeConverted :=
              convertTime timeUnit (cumulativeScanningTime stats);
            ConvertedData.editTimeConverted :=
              convertTime timeUnit (cumulativeEditTime stats) |})
      (renderExecutionTimeChart_chartData enrichedStats).


Section FilesTable.
(** [a.localeCompare(b)] *)
Variable localeCompare : string -> string -> number.

(** [p || ''] on [string | null] *)
Definition path_or_empty (p : option string) : string :=
  match p with
  | Some s => if str_truthy s then s else ""
  | None => ""
  end.

(** [sortFilesTable]: [sortedData], the rows it hands to
    [renderFilesTableRows]. *)
Definition sortFilesTable (sortKey : string)
    (sourceResults : list SourceFileResults) : list SourceFileResults :=
  let sortedData := sourceResults in
  if String.eqb sortKey "file" then
    Array_sort (fun a b =>
                  let pathA :=
                    path_or_empty (path_or (sourcePathAfter a) (sourcePathBefore a)) in
                  let pathB :=
                    path_or_empty (path_or (sourcePathAfter b) (sourcePathBefore b)) in
                  localeCompare pathA pathB)
               sortedData
  else if String.eqb sortKey "recipe" then
    Array_sort (fun a b => localeCompare (recipeChanges a) (recipeChanges b))
               sortedData
  else if String.eqb sortKey "timeSaved" then
    Array_sort (fun a b => estimatedTimeSaving b - estimatedTimeSaving a) sortedData
  else if String.eqb sortKey "cycle" then
    Array_sort (fun a b => or_zero (Some (cycle b)) - or_zero (Some (cycle a)))
               sortedData
  else sortedData.
End FilesTable.

(** Descending order of a key. *)
Definition descending {A : Type} (key : A -> number) (a b : A) : Prop :=
  num_le (key b) (key a).


(** * Properties *)

(** ** Tactics *)

Ltac qc_eq := apply Qc_is_canon; vm_compute; reflexivity.

(** Equality of two closed numbers, by evaluation. *)
Ltac num_eq :=
  solve [ vm_compute;
          repeat first [ reflexivity
                       | apply Qc_is_canon; reflexivity
                       | progress f_equal ] ].

(** Rewrites with the instance of [Hb] at the earlier rule [j]. *)
Ltac use_prior Hb j :=
  let E := fresh "E" in
  pose proof (Hb j _ ltac:(lia) eq_refl) as E; cbn [fst] in E; rewrite E; clear E.

(** ** Arithmetic of the number model *)

Lemma num_add_comm (x y : number) : x + y = y + x.
Proof.
  destruct x, y; simpl; try reflexivity.
  now rewrite Qcplus_comm.
Qed.

Lemma num_add_assoc (x y z : number) : x + (y + z) = (x + y) + z.
Proof.
  destruct x, y, z; simpl; try reflexivity.
  now rewrite Qcplus_assoc.
Qed.

Lemma num_add_0_l (x : number) : num0 + x = x.
Proof.
  destruct x; simpl; try reflexivity.
  f_equal. apply Qcplus_0_l.
Qed.

Lemma num_add_0_r (x : number) : x + num0 = x.
Proof. rewrite num_add_comm. apply num_add_0_l. Qed.

Lemma fold_left_map_add {A : Type} (f : A -> number) (l : list A) (acc : number) :
  fold_left (fun sum x => sum + f x) l acc = fold_left num_add (map f l) acc.
Proof.
  revert acc. induction l as [|a l IH]; intros acc; cbn [fold_left map];
    [reflexivity | apply IH].
Qed.

Lemma fold_left_num_sum {A : Type} (f : A -> number) (l : list A) :
  fold_left (fun sum x => sum + f x) l num0 = num_sum (map f l).
Proof. apply fold_left_map_add. Qed.

Lemma fold_left_num_add_from (l : list number) (acc : number) :
  fold_left num_add l acc = acc + num_sum l.
Proof.
  unfold num_sum. revert acc. induction l as [|a l IH]; intros acc;
    cbn [fold_left].
  - now rewrite num_add_0_r.
  - rewrite IH, (IH (num0 + a)), num_add_0_l. apply eq_sym, num_add_assoc.
Qed.

Lemma num_sum_cons (x : number) (l : list number) :
  num_sum (x :: l) = x + num_sum l.
Proof.
  unfold num_sum. cbn [fold_left].
  now rewrite fold_left_num_add_from, num_add_0_l.
Qed.


Lemma Qc_ltb_lt (a b : Qc) : Qc_ltb a b = true <-> (a < b)%Qc.
Proof.
  unfold Qc_ltb. rewrite Qclt_alt.
  destruct (a ?= b)%Qc; split; intros H; try reflexivity; discriminate.
Qed.

Lemma Qc_ltb_irrefl (a : Qc) : Qc_ltb a a = false.
Proof.
  destruct (Qc_ltb a a) eqn:E; [|reflexivity].
  apply Qc_ltb_lt in E. now apply Qclt_not_eq in E.
Qed.

Lemma Qc_eq_bool_true (a b : Qc) : Qc_eq_bool a b = true <-> a = b.
Proof.
  split.
  - apply Qc_eq_bool_correct.
  - intros ->. unfold Qc_eq_bool. destruct (Qc_eq_dec b b); congruence.
Qed.

Lemma Qc_eq_bool_false (a b : Qc) : Qc_eq_bool a b = false <-> a <> b.
Proof.
  rewrite <- Qc_eq_bool_true. destruct (Qc_eq_bool a b); split; congruence.
Qed.

(** Dividing by a positive finite constant. *)
Lemma num_div_pos (x : number) (c : Qc) :
  (Qc_zero < c)%Qc ->
  x / Fin c = match x with Fin a => Fin (a / c)%Qc | _ => x end.
Proof.
  intros Hc.
  assert (Hne : Qc_eq_bool c Qc_zero = false).
  { apply Qc_eq_bool_false. intros ->. now apply Qclt_not_eq in Hc. }
  assert (Hlt : Qc_ltb c Qc_zero = false).
  { destruct (Qc_ltb c Qc_zero) eqn:E; [|reflexivity].
    apply Qc_ltb_lt in E. exfalso.
    apply (Qclt_not_le _ _ E). now apply Qclt_le_weak. }
  destruct x; simpl; rewrite ?Hne, ?Hlt; reflexivity.
Qed.

(** Two unit steps (ns to ms, ms to s) are one division by their product,
    and the division distributes over the sum. *)


(** ** The order on numbers *)

Lemma num_eqb_spec (x y : number) : num_eqb x y = true <-> x = y.
Proof.
  destruct x, y; cbn; try (split; congruence).
  rewrite Qc_eq_bool_true. split; congruence.
Qed.

Lemma Qc_ltb_false_le (a b : Qc) : Qc_ltb a b = false <-> (b <= a)%Qc.
Proof.
  split.
  - intros H. apply Qcnot_lt_le. intros Hlt. apply Qc_ltb_lt in Hlt. congruence.
  - intros H. destruct (Qc_ltb a b) eqn:E; [|reflexivity].
    apply Qc_ltb_lt in E. now apply Qcle_not_lt in H.
Qed.

Lemma Qc_sub_pos (a b : Qc) : Qc_ltb Qc_zero (a - b)%Qc = Qc_ltb b a.
Proof.
  destruct (Qc_ltb b a) eqn:E.
  - apply Qc_ltb_lt. apply Qc_ltb_lt in E.
    apply Qclt_minus_iff in E. exact E.
  - apply Qc_ltb_false_le. apply Qc_ltb_false_le in E.
    apply Qcle_minus_iff in E.
    replace (a - b)%Qc with (- (b + - a))%Qc by ring.
    apply Qcopp_le_compat in E. exact E.
Qed.

(** The comparator [(a, b) => a - b] answers a positive number exactly
    when [b < a], provided neither is NaN. *)
Lemma num_sub_pos (x y : number) :
  x <> NaN -> y <> NaN -> (x - y >? num0) = (y <? x).
Proof.
  intros Hx Hy. destruct x, y; try congruence; try reflexivity.
  unfold num_gtb, num_sub. cbn [num_neg num_add num_ltb num0 numZ].
  apply Qc_sub_pos.
Qed.

Lemma num_ltb_false_le (x y : number) :
  x <> NaN -> y <> NaN -> (x <? y) = false <-> num_le y x.
Proof.
  intros Hx Hy. destruct x, y; try congruence; cbn;
    try (split; [intros _; exact I | reflexivity]);
    try (split; [discriminate | intros []]).
  apply Qc_ltb_false_le.
Qed.

Lemma num_ltb_true_le (x y : number) : (x <? y) = true -> num_le x y.
Proof.
  destruct x, y; cbn; try discriminate; try (intros _; exact I).
  intros H. apply Qc_ltb_lt in H. now apply Qclt_le_weak.
Qed.

Lemma num_le_neq_lt (x y : number) : num_le x y -> x <> y -> num_lt x y.
Proof.
  unfold num_lt. destruct x, y; cbn; try tauto; try congruence.
  intros Hle Hne. apply Qc_ltb_lt.
  destruct (Qcle_lt_or_eq _ _ Hle) as [H|H]; [assumption|congruence].
Qed.

Lemma num_le_trans (x y z : number) : num_le x y -> num_le y z -> num_le x z.
Proof.
  destruct x, y, z; cbn; try tauto. apply Qcle_trans.
Qed.

Lemma num_le_not_NaN (x y : number) : num_le x y -> x <> NaN /\ y <> NaN.
Proof. destruct x, y; cbn; try tauto; split; discriminate. Qed.

Lemma num_le_add_nonneg (x y : number) :
  num_le num0 x -> num_le num0 y -> num_le num0 (x + y).
Proof.
  destruct x, y; cbn; try tauto.
  intros Hx Hy. pose proof (Qcplus_le_compat _ _ _ _ Hx Hy) as H.
  now rewrite Qcplus_0_l in H.
Qed.

Lemma num_le_add_r (x y : number) :
  num_le num0 x -> num_le num0 y -> num_le x (x + y).
Proof.
  destruct x, y; cbn; try tauto.
  intros _ Hy. pose proof (Qcplus_le_compat _ _ _ _ (Qcle_refl q) Hy) as H.
  now rewrite Qcplus_0_r in H.
Qed.

(** ** Integers in the number model *)

Lemma this_numZ (z : Z) : this (Q2Qc (inject_Z z)) = inject_Z z.
Proof.
  cbn [this Q2Qc]. apply Qred_identity. cbn [Qnum Qden inject_Z].
  apply Z.gcd_1_r.
Qed.

Lemma numZ_inj (a b : Z) : numZ a = numZ b -> a = b.
Proof.
  unfold numZ. intros E.
  assert (H : Q2Qc (inject_Z a) = Q2Qc (inject_Z b)) by congruence.
  apply (f_equal this) in H. rewrite !this_numZ in H.
  unfold inject_Z in H. congruence.
Qed.

Lemma numZ_add (a b : Z) : numZ a + numZ b = numZ (a + b).
Proof.
  unfold numZ. cbn [num_add]. f_equal. apply Qc_is_canon.
  cbn [this Qcplus Q2Qc]. rewrite !Qred_correct. now rewrite inject_Z_plus.
Qed.

Lemma numZ_sub (a b : Z) : numZ a - numZ b = numZ (a - b).
Proof.
  unfold numZ, num_sub. cbn [num_neg num_add]. f_equal. apply Qc_is_canon.
  cbn [this Qcplus Qcopp Q2Qc]. rewrite !Qred_correct.
  unfold Z.sub. now rewrite inject_Z_plus, inject_Z_opp.
Qed.

Lemma numZ_ltb (a b : Z) : (numZ a <? numZ b) = (a <? b)%Z.
Proof.
  unfold numZ. cbn [num_ltb].
  destruct (a <? b)%Z eqn:E.
  - apply Qc_ltb_lt. apply Z.ltb_lt in E. unfold Qclt.
    rewrite !this_numZ. now rewrite <- Zlt_Qlt.
  - apply Qc_ltb_false_le. apply Z.ltb_ge in E. unfold Qcle.
    rewrite !this_numZ. now rewrite <- Zle_Qle.
Qed.

Lemma Qc_eq_bool_numZ (a b : Z) :
  Qc_eq_bool (Q2Qc (inject_Z a)) (Q2Qc (inject_Z b)) = (a =? b)%Z.
Proof.
  destruct (a =? b)%Z eqn:E.
  - apply Z.eqb_eq in E. subst. now apply Qc_eq_bool_true.
  - apply Qc_eq_bool_false. intros H. apply Z.eqb_neq in E. apply E.
    apply (f_equal this) in H. rewrite !this_numZ in H.
    unfold inject_Z in H. congruence.
Qed.

(** The rational value of a quotient of integers. *)
Lemma this_div_numZ (a b : Z) :
  (this (Q2Qc (inject_Z a) / Q2Qc (inject_Z b))%Qc == inject_Z a / inject_Z b)%Q.
Proof.
  unfold Qcdiv, Qcmult, Qcinv. cbn [this Q2Qc].
  rewrite !Qred_correct. reflexivity.
Qed.

Lemma numZ_div_fin (a b : Z) :
  b <> 0%Z ->
  numZ a / numZ b = Fin (Q2Qc (inject_Z a) / Q2Qc (inject_Z b))%Qc.
Proof.
  intros Hb. unfold numZ. cbn [num_div].
  change (Q2Qc 0) with (Q2Qc (inject_Z 0)).
  rewrite Qc_eq_bool_numZ. now rewrite (proj2 (Z.eqb_neq b 0) Hb).
Qed.

(** [Math.floor(a / b)] is the integer quotient. *)
Lemma Math_floor_div (a b : Z) :
  b <> 0%Z -> Math_floor (numZ a / numZ b) = IntZ (a / b).
Proof.
  intros Hb. rewrite numZ_div_fin by assumption. cbn [Math_floor]. f_equal.
  rewrite (Qfloor_comp _ _ (this_div_numZ a b)). symmetry. apply Zdiv_Qdiv.
Qed.

(** An exact quotient of integers is the integer. *)
Lemma numZ_div_exact (k b : Z) : b <> 0%Z -> numZ (k * b) / numZ b = numZ k.
Proof.
  intros Hb. rewrite numZ_div_fin by assumption. unfold numZ. f_equal.
  apply Qc_is_canon. rewrite this_div_numZ, this_numZ.
  rewrite inject_Z_mult. field.
  intros H. apply Hb. now apply (inject_Z_injective b 0).
Qed.

Lemma Math_round_numZ (z : Z) : Math_round (numZ z) = IntZ z.
Proof.
  unfold numZ. cbn [Math_round]. f_equal.
  assert (E : (this (Q2Qc (inject_Z z) + Q2Qc (1 # 2))%Qc
               == inject_Z z + (1 # 2))%Q).
  { cbn [this Qcplus Q2Qc]. rewrite !Qred_correct. reflexivity. }
  rewrite (Qfloor_comp _ _ E).
  unfold Qfloor, Qplus, inject_Z. cbn [Qnum Qden].
  replace (z * 2 + 1 * 1)%Z with (1 + z * 2)%Z by ring.
  change (Z.pos (1 * 2)) with 2%Z.
  rewrite Z.div_add by discriminate. reflexivity.
Qed.

Lemma Qtrunc_nonneg (q : Q) : (0 <= Qnum q)%Z -> Qtrunc q = Qfloor q.
Proof.
  intros H. unfold Qtrunc, Qfloor. destruct q as [n d]. cbn [Qnum Qden] in *.
  apply Z.quot_div_nonneg; [assumption|reflexivity].
Qed.

(** [a % b] on non-negative integers is the integer remainder. *)
Lemma num_rem_numZ (a b : Z) :
  (0 <= a)%Z -> (0 < b)%Z -> num_rem (numZ a) (numZ b) = numZ (a mod b).
Proof.
  intros Ha Hb. unfold numZ. cbn [num_rem].
  change (Q2Qc 0) with (Q2Qc (inject_Z 0)).
  rewrite Qc_eq_bool_numZ.
  rewrite (proj2 (Z.eqb_neq b 0)) by lia.
  f_equal. apply Qc_is_canon.
  set (q := this (Q2Qc (inject_Z a) / Q2Qc (inject_Z b))%Qc).
  assert (Hq : (q == inject_Z a / inject_Z b)%Q) by apply this_div_numZ.
  clearbody q.
  assert (Hq0 : (0 <= Qnum q)%Z).
  { assert (H0 : (0 <= q)%Q).
    { rewrite Hq. apply Qle_shift_div_l.
      - change 0%Q with (inject_Z 0). rewrite <- Zlt_Qlt. assumption.
      - rewrite Qmult_0_l. change 0%Q with (inject_Z 0).
        now rewrite <- Zle_Qle. }
    unfold Qle in H0. cbn [Qnum Qden] in H0. lia. }
  rewrite (Qtrunc_nonneg _ Hq0), (Qfloor_comp _ _ Hq), <- Zdiv_Qdiv.
  cbn [this Qcminus Qcplus Qcopp Qcmult Q2Qc]. rewrite !Qred_correct.
  rewrite Z.mod_eq by lia.
  unfold Z.sub. rewrite inject_Z_plus, inject_Z_opp, inject_Z_mult.
  reflexivity.
Qed.

(** [arr[i]] at an integer index. *)
Lemma Array_get_numZ {A : Type} (arr : list A) (z : Z) :
  (0 <= z)%Z -> Array_get arr (numZ z) = nth_error arr (Z.to_nat z).
Proof.
  intros Hz. unfold numZ, Array_get.
  rewrite this_numZ, Qfloor_Z.
  rewrite (proj2 (Qc_eq_bool_true _ _) eq_refl).
  now rewrite (proj2 (Z.leb_le 0 z) Hz).
Qed.

Lemma Array_get_nat {A : Type} (arr : list A) (n : nat) :
  Array_get arr (num_of_nat n) = nth_error arr n.
Proof.
  unfold num_of_nat. rewrite Array_get_numZ by lia. now rewrite Nat2Z.id.
Qed.

Lemma or_zero_Some (x : number) : x <> NaN -> or_zero (Some x) = x.
Proof.
  intros Hx. destruct x as [q| | |]; cbn; try reflexivity; try congruence.
  destruct (Qc_eq_bool q (Q2Qc 0)) eqn:E; cbn; [|reflexivity].
  apply Qc_eq_bool_true in E. subst q. reflexivity.
Qed.
(** ** Global ROI *)

Lemma fold_left_accumulated64 {A : Type} (f : A -> float) (l : list A) :
  fold_left (fun sum x => PrimFloat.add sum (f x)) l 0%float
  = Binary64.accumulated (map f l).
Proof.
  unfold Binary64.accumulated. generalize 0%float.
  induction l as [|x l IH]; intros acc; cbn [map fold_left];
    [reflexivity | apply IH].
Qed.

(** Two binary64 numbers that the comparison tells apart are not the
    same. *)
Ltac float_neq :=
  let H := fresh in
  intros H;
  match type of H with
  | _ = ?b => apply (f_equal (fun x => PrimFloat.eqb x b)) in H
  end;
  vm_compute in H; discriminate H.

(** C1.  [calculateROIMetrics] is a total function (nothing in it can
    raise).  Its [totalTimeSaved] is the sum of [estimatedTimeSaving] over
    the file changes and its [totalExecutionTime] the sum over the recipe
    runs of [(cumulativeScanningTime / 1e6 + cumulativeEditTime / 1e6) /
    1000], both accumulated from 0 in the order of the array.  Its [roi] is
    [(totalTimeSaved / totalExecutionTime) * 100] when [totalExecutionTime
    > 0], and 0 otherwise, so when [totalExecutionTime] is 0, whatever
    [totalTimeSaved] is.  This holds with the operations read on the exact
    numbers and with them read on binary64; nothing is regrouped. *)
Theorem calculateROIMetrics_roi :
  (forall (recipeStats : list RecipeRunStats)
          (sourceResults : list SourceFileResults),
      let totalTimeSaved := num_sum (map estimatedTimeSaving sourceResults) in
      let totalExecutionTime :=
        num_sum
          (map (fun stats =>
                  (cumulativeScanningTime stats / numZ 1000000
                   + cumulativeEditTime stats / numZ 1000000) / numZ 1000)
               recipeStats) in
      let m := calculateROIMetrics recipeStats sourceResults in
      ROIMetrics.totalTimeSaved m = totalTimeSaved /\
      ROIMetrics.totalExecutionTime m = totalExecutionTime /\
      ((totalExecutionTime >? num0) = true ->
       ROIMetrics.roi m = (totalTimeSaved / totalExecutionTime) * numZ 100) /\
      ((totalExecutionTime >? num0) = false -> ROIMetrics.roi m = num0) /\
      (totalExecutionTime = num0 -> ROIMetrics.roi m = num0))
  /\
  (forall (recipeStats : list Binary64.RecipeRunStats)
          (sourceResults : list Binary64.SourceFileResults),
      let totalTimeSaved :=
        Binary64.accumulated (map Binary64.estimatedTimeSaving sourceResults) in
      let totalExecutionTime :=
        Binary64.accumulated
          (map (fun stats =>
                  (Binary64.cumulativeScanningTime stats / 1000000
                   + Binary64.cumulativeEditTime stats / 1000000) / 1000)%float
               recipeStats) in
      let m := Binary64.calculateROIMetrics recipeStats sourceResults in
      Binary64.ROIMetrics.totalTimeSaved m = totalTimeSaved /\
      Binary64.ROIMetrics.totalExecutionTime m = totalExecutionTime /\
      ((0 <? totalExecutionTime)%float = true ->
       Binary64.ROIMetrics.roi m
       = (totalTimeSaved / totalExecutionTime * 100)%float) /\
      ((0 <? totalExecutionTime)%float = false ->
       Binary64.ROIMetrics.roi m = 0%float) /\
      (totalExecutionTime = 0%float -> Binary64.ROIMetrics.roi m = 0%float)).
Proof.
  split.
  - intros recipeStats sourceResults tts tet m.
    assert (Hs : ROIMetrics.totalTimeSaved m = tts).
    { unfold m, calculateROIMetrics; cbn [ROIMetrics.totalTimeSaved].
      apply (fold_left_num_sum estimatedTimeSaving). }
    assert (He : ROIMetrics.totalExecutionTime m = tet).
    { unfold m, calculateROIMetrics; cbn [ROIMetrics.totalExecutionTime].
      cbv zeta.
      apply (fold_left_num_sum
               (fun stats =>
                  (cumulativeScanningTime stats / numZ 1000000
                   + cumulativeEditTime stats / numZ 1000000) / numZ 1000)). }
    assert (Hr : ROIMetrics.roi m =
                 if tet >? num0 then (tts / tet) * numZ 100 else num0).
    { rewrite <- Hs, <- He. reflexivity. }
    split; [exact Hs|]. split; [exact He|]. split; [|split].
    + intros Hpos. now rewrite Hr, Hpos.
    + intros Hnot. now rewrite Hr, Hnot.
    + intros H0. rewrite Hr, H0. reflexivity.
  - intros recipeStats sourceResults tts tet m.
    assert (Hs : Binary64.ROIMetrics.totalTimeSaved m = tts).
    { unfold m, Binary64.calculateROIMetrics;
        cbn [Binary64.ROIMetrics.totalTimeSaved].
      apply (fold_left_accumulated64 Binary64.estimatedTimeSaving). }
    assert (He : Binary64.ROIMetrics.totalExecutionTime m = tet).
    { unfold m, Binary64.calculateROIMetrics;
        cbn [Binary64.ROIMetrics.totalExecutionTime].
      cbv zeta.
      apply (fold_left_accumulated64
               (fun stats =>
                  (Binary64.cumulativeScanningTime stats / 1000000
                   + Binary64.cumulativeEditTime stats / 1000000) / 1000)%float). }
    assert (Hr : Binary64.ROIMetrics.roi m =
                 if (0 <? tet)%float then (tts / tet * 100)%float else 0%float).
    { rewrite <- Hs, <- He. reflexivity. }
    split; [exact Hs|]. split; [exact He|]. split; [|split].
    + intros Hpos. now rewrite Hr, Hpos.
    + intros Hnot. now rewrite Hr, Hnot.
    + intros H0. rewrite Hr, H0. reflexivity.
Qed.

Lemma calculateROIMetrics_roi_witness :
  ROIMetrics.roi (calculateROIMetrics [run_3s] [change_6s])
  = (numZ 6 / numZ 3) * numZ 100
  /\ ROIMetrics.roi (calculateROIMetrics [] [change_6s]) = num0
  /\ Binary64.ROIMetrics.roi
       (Binary64.calculateROIMetrics [Binary64.run_1ns] [Binary64.change_6s])
     = 0x1.176592e000001p+39%float.
Proof.
  destruct calculateROIMetrics_roi as [Hexact Hbinary64].
  split; [|split].
  - destruct (Hexact [run_3s] [change_6s]) as (_ & _ & H & _).
    rewrite H.
    + vm_compute. reflexivity.
    + vm_compute. reflexivity.
  - destruct (Hexact [] [change_6s]) as (_ & _ & _ & _ & H).
    apply H. reflexivity.
  - destruct (Hbinary64 [Binary64.run_1ns] [Binary64.change_6s])
      as (_ & _ & H & _).
    rewrite H.
    + vm_compute. reflexivity.
    + vm_compute. reflexivity.
Defined.

(** C1 as stated fails in binary64: on one recipe run of 1 ns and a
    saving of 6 s the code's [totalExecutionTime] is
    9.999999999999999e-10 and its [roi] 600000000000.0001, where the sum
    of [(cumulativeScanningTime + cumulativeEditTime) / 1e9] is 1e-9,
    positive, and the stated [roi] 600000000000. *)
Lemma calculateROIMetrics_rounding_counterexample :
  let m := Binary64.calculateROIMetrics [Binary64.run_1ns] [Binary64.change_6s] in
  let stated := Binary64.stated_totalExecutionTime [Binary64.run_1ns] in
  (0 <? stated)%float = true
  /\ Binary64.ROIMetrics.totalExecutionTime m = 0x1.12e0be826d694p-30%float
  /\ stated = 0x1.12e0be826d695p-30%float
  /\ Binary64.ROIMetrics.totalExecutionTime m <> stated
  /\ Binary64.ROIMetrics.roi m = 0x1.176592e000001p+39%float
  /\ (Binary64.ROIMetrics.totalTimeSaved m / stated * 100)%float
     = 0x1.176592ep+39%float
  /\ Binary64.ROIMetrics.roi m
     <> (Binary64.ROIMetrics.totalTimeSaved m / stated * 100)%float.
Proof.
  intros m stated.
  split; [vm_compute; reflexivity|].
  split; [vm_compute; reflexivity|].
  split; [vm_compute; reflexivity|].
  split; [unfold m, stated; float_neq|].
  split; [vm_compute; reflexivity|].
  split; [vm_compute; reflexivity|].
  unfold m, stated. float_neq.
Qed.

(** ** Per-recipe enrichment *)

(** C2.  [enrichRecipeStats] yields one entry per [RecipeRunStats], in
    order; the entry of [r] has [scanEditRatio] equal to
    [cumulativeScanningTime / cumulativeEditTime] when the edit time is
    positive, to +Infinity when the edit time is 0 and the scan time
    positive, and to 0 when both are 0, in which case
    [totalExecutionTimeMs] is 0 too. *)
Theorem enrichRecipeStats_scanEditRatio
    (recipeStats : list RecipeRunStats) (sourceResults : list SourceFileResults) :
  List.length (enrichRecipeStats recipeStats sourceResults)
  = List.length recipeStats /\
  forall (i : nat) (r : RecipeRunStats),
    nth_error recipeStats i = Some r ->
    exists m : RecipePerformanceMetrics.t,
      nth_error (enrichRecipeStats recipeStats sourceResults) i = Some m /\
      RecipePerformanceMetrics.stats m = r /\
      ((cumulativeEditTime r >? num0) = true ->
       RecipePerformanceMetrics.scanEditRatio m
       = cumulativeScanningTime r / cumulativeEditTime r) /\
      (cumulativeEditTime r = num0 ->
       (cumulativeScanningTime r >? num0) = true ->
       RecipePerformanceMetrics.scanEditRatio m = PInf) /\
      (cumulativeEditTime r = num0 ->
       cumulativeScanningTime r = num0 ->
       RecipePerformanceMetrics.scanEditRatio m = num0 /\
       RecipePerformanceMetrics.totalExecutionTimeMs m = num0).
Proof.
  split.
  - unfold enrichRecipeStats. apply length_map.
  - intros i r Hi. unfold enrichRecipeStats.
    rewrite nth_error_map, Hi. cbn [option_map].
    eexists. split; [reflexivity|].
    cbn [RecipePerformanceMetrics.stats RecipePerformanceMetrics.scanEditRatio
         RecipePerformanceMetrics.totalExecutionTimeMs].
    split; [reflexivity|].
    split; [|split].
    + intros He. now rewrite He.
    + intros He Hs. rewrite He, Hs. reflexivity.
    + intros He Hs. rewrite He, Hs. split; [reflexivity | num_eq].
Qed.

Lemma enrichRecipeStats_scanEditRatio_witness :
  map RecipePerformanceMetrics.scanEditRatio
      (enrichRecipeStats
         [stats_of (numZ 6) (numZ 3); stats_of (numZ 6) num0; stats_of num0 num0]
         [change_6s])
  = [numZ 6 / numZ 3; PInf; num0].
Proof.
  set (rs := [stats_of (numZ 6) (numZ 3); stats_of (numZ 6) num0;
              stats_of num0 num0]).
  destruct (enrichRecipeStats_scanEditRatio rs [change_6s]) as [Hlen H].
  destruct (H 0%nat _ eq_refl) as (m0 & E0 & _ & R0 & _).
  destruct (H 1%nat _ eq_refl) as (m1 & E1 & _ & _ & R1 & _).
  destruct (H 2%nat _ eq_refl) as (m2 & E2 & _ & _ & _ & R2).
  destruct (enrichRecipeStats rs [change_6s]) as [|a [|b [|c [|d l]]]];
    try discriminate Hlen.
  cbn in E0, E1, E2. injection E0 as ->. injection E1 as ->. injection E2 as ->.
  cbn [map]. rewrite (R0 eq_refl), (R1 eq_refl eq_refl).
  destruct (R2 eq_refl eq_refl) as [-> _]. reflexivity.
Defined.

(** ** Sets in insertion order *)

Section SetFacts.
Variable A : Type.
Variable eqb : A -> A -> bool.
Hypothesis eqb_spec : forall x y : A, eqb x y = true <-> x = y.

Lemma Set_has_In (s : list A) (x : A) : Set_has eqb s x = true <-> In x s.
Proof.
  unfold Set_has. rewrite existsb_exists. split.
  - intros (y & Hy & E). apply eqb_spec in E. now subst.
  - intros H. exists x. split; [assumption|]. now apply eqb_spec.
Qed.

Lemma Set_add_In (s : list A) (x y : A) :
  In y (Set_add eqb s x) <-> In y s \/ y = x.
Proof.
  unfold Set_add. destruct (Set_has eqb s x) eqn:E.
  - apply Set_has_In in E. split; [now left|].
    intros [H| ->]; assumption.
  - rewrite in_app_iff. cbn. intuition congruence.
Qed.

Lemma Set_add_NoDup (s : list A) (x : A) : NoDup s -> NoDup (Set_add eqb s x).
Proof.
  intros Hs. unfold Set_add. destruct (Set_has eqb s x) eqn:E; [assumption|].
  assert (Hx : ~ In x s).
  { intros H. apply Set_has_In in H. congruence. }
  apply NoDup_app; [assumption | repeat constructor; intros [] | ].
  intros y Hy [<-|[]]. contradiction.
Qed.

Lemma Set_add_not_nil (s : list A) (x : A) : Set_add eqb s x <> [].
Proof.
  unfold Set_add. destruct (Set_has eqb s x) eqn:E.
  - apply Set_has_In in E. destruct s; [destruct E | discriminate].
  - destruct s; discriminate.
Qed.

Lemma fold_Set_add_In (l s : list A) (y : A) :
  In y (fold_left (Set_add eqb) l s) <-> In y s \/ In y l.
Proof.
  revert s. induction l as [|x l IH]; intros s; cbn [fold_left].
  - cbn. tauto.
  - rewrite IH, Set_add_In. cbn. intuition congruence.
Qed.

Lemma fold_Set_add_NoDup (l s : list A) :
  NoDup s -> NoDup (fold_left (Set_add eqb) l s).
Proof.
  revert s. induction l as [|x l IH]; intros s Hs; cbn [fold_left].
  - assumption.
  - apply IH. now apply Set_add_NoDup.
Qed.

Lemma Set_from_In (l : list A) (y : A) : In y (Set_from eqb l) <-> In y l.
Proof. unfold Set_from. rewrite fold_Set_add_In. cbn. tauto. Qed.

Lemma Set_from_NoDup (l : list A) : NoDup (Set_from eqb l).
Proof. apply fold_Set_add_NoDup. constructor. Qed.

(** The size of [new Set(l)] is the number of distinct elements of [l]. *)
Lemma Set_from_length (dec : forall x y : A, {x = y} + {x <> y}) (l : list A) :
  List.length (Set_from eqb l) = List.length (nodup dec l).
Proof.
  apply Permutation_length, NoDup_Permutation.
  - apply Set_from_NoDup.
  - apply NoDup_nodup.
  - intros y. now rewrite Set_from_In, nodup_In.
Qed.
End SetFacts.

Lemma path_eqb_spec (a b : option string) : path_eqb a b = true <-> a = b.
Proof.
  destruct a as [x|], b as [y|]; cbn; try (split; congruence).
  rewrite String.eqb_eq. split; congruence.
Qed.

Lemma option_string_dec (a b : option string) : {a = b} + {a <> b}.
Proof. decide equality. apply string_dec. Qed.

Lemma nodup_map_Some_length (l : list string) :
  List.length (nodup option_string_dec (map Some l))
  = List.length (nodup string_dec l).
Proof.
  rewrite <- (length_map Some (nodup string_dec l)).
  apply Permutation_length, NoDup_Permutation.
  - apply NoDup_nodup.
  - apply Finite.Injective_map_NoDup; [|apply NoDup_nodup].
    intros x y E. now injection E.
  - intros y. rewrite nodup_In, !in_map_iff.
    split; intros (x & E & H); exists x; (split; [assumption|]).
    + now apply nodup_In.
    + now apply nodup_In in H.
Qed.

Lemma num_of_nat_le (n m : nat) : (n <= m)%nat -> num_le (num_of_nat n) (num_of_nat m).
Proof.
  intros H. unfold num_of_nat, numZ, num_le, Qcle. cbn [this Q2Qc].
  rewrite !Qred_correct. rewrite <- Zle_Qle. lia.
Qed.

(** ** Files changed *)

Lemma changed_paths_truthy (sourceResults : list SourceFileResults) :
  map (fun result => path_or (sourcePathAfter result) (sourcePathBefore result))
      (filter (fun result =>
                 path_truthy (path_or (sourcePathAfter result)
                                      (sourcePathBefore result)))
              sourceResults)
  = map Some (truthy_paths sourceResults).
Proof.
  induction sourceResults as [|r l IH]; [reflexivity|].
  cbn [filter truthy_paths flat_map].
  fold (truthy_paths l).
  destruct (path_or (sourcePathAfter r) (sourcePathBefore r)) as [p|] eqn:E;
    cbn [path_truthy].
  - destruct (str_truthy p); cbn [map app]; rewrite ?E, IH; reflexivity.
  - exact IH.
Qed.

Lemma truthy_paths_length (sourceResults : list SourceFileResults) :
  (List.length (truthy_paths sourceResults) <= List.length sourceResults)%nat.
Proof.
  induction sourceResults as [|r l IH]; [apply le_n|].
  cbn [truthy_paths flat_map]. fold (truthy_paths l).
  rewrite length_app. cbn [List.length].
  destruct (path_or (sourcePathAfter r) (sourcePathBefore r)) as [p|];
    [destruct (str_truthy p)|]; cbn [List.length]; lia.
Qed.

Lemma truthy_paths_nullish (sourceResults : list SourceFileResults) :
  (forall r, In r sourceResults ->
             sourcePathAfter r <> Some "" /\ sourcePathBefore r <> Some "") ->
  truthy_paths sourceResults = nullish_paths sourceResults.
Proof.
  induction sourceResults as [|r l IH]; intros H; [reflexivity|].
  cbn [truthy_paths nullish_paths flat_map].
  fold (truthy_paths l). fold (nullish_paths l).
  rewrite IH by (intros r' Hr'; apply H; now right).
  f_equal.
  destruct (H r (or_introl eq_refl)) as [Ha Hb].
  unfold path_or, path_nullish.
  destruct (sourcePathAfter r) as [[|c a]|]; cbn; try congruence.
  destruct (sourcePathBefore r) as [[|c b]|]; cbn; congruence.
Qed.

(** C6, as the code has it.  [totalFilesChanged] is the number of distinct
    values of [sourcePathAfter || sourcePathBefore] (the path after when it
    is neither null nor empty, otherwise the path before) over the records
    for which that value is neither null nor empty.  When no path is the
    empty string it is the number of distinct non-null values of
    [sourcePathAfter ?? sourcePathBefore].  It never exceeds the number of
    records. *)
Theorem totalFilesChanged_distinct
    (recipeStats : list RecipeRunStats) (sourceResults : list SourceFileResults) :
  let n := ROIMetrics.totalFilesChanged
             (calculateROIMetrics recipeStats sourceResults) in
  n = num_of_nat (distinct_count (truthy_paths sourceResults)) /\
  num_le n (num_of_nat (List.length sourceResults)) /\
  ((forall r, In r sourceResults ->
              sourcePathAfter r <> Some "" /\ sourcePathBefore r <> Some "") ->
   n = num_of_nat (distinct_count (nullish_paths sourceResults))).
Proof.
  intros n.
  assert (Hn : n = num_of_nat (distinct_count (truthy_paths sourceResults))).
  { unfold n, calculateROIMetrics. cbn [ROIMetrics.totalFilesChanged].
    f_equal. rewrite changed_paths_truthy.
    rewrite (@Set_from_length _ _ path_eqb_spec option_string_dec).
    apply nodup_map_Some_length. }
  split; [exact Hn|]. split.
  - rewrite Hn. apply num_of_nat_le. unfold distinct_count.
    etransitivity; [apply NoDup_incl_length|apply truthy_paths_length].
    + apply NoDup_nodup.
    + intros x. now rewrite nodup_In.
  - intros H. rewrite Hn. now rewrite truthy_paths_nullish.
Qed.

Lemma totalFilesChanged_distinct_witness :
  ROIMetrics.totalFilesChanged
    (calculateROIMetrics [run_3s] [change_6s; change_of None (Some "src/A.java")])
  = num_of_nat 1.
Proof.
  destruct (totalFilesChanged_distinct
              [run_3s] [change_6s; change_of None (Some "src/A.java")])
    as (_ & _ & H).
  rewrite H.
  - reflexivity.
  - intros r [<-|[<-|[]]]; split; discriminate.
Defined.

(** C6 as stated fails on empty paths: two files renamed to the empty
    path count as two files changed, where the stated formula counts the
    one value [""]. *)
Lemma totalFilesChanged_nullish_counterexample :
  ROIMetrics.totalFilesChanged (calculateROIMetrics [] two_renamed_to_empty)
  = num_of_nat 2
  /\ distinct_count (nullish_paths two_renamed_to_empty) = 1%nat
  /\ ROIMetrics.totalFilesChanged (calculateROIMetrics [] two_renamed_to_empty)
     <> num_of_nat (distinct_count (nullish_paths two_renamed_to_empty)).
Proof.
  split; [reflexivity|]. split; [reflexivity|].
  intros H. apply numZ_inj in H. discriminate H.
Qed.

(** ** Strings *)

Lemma prefix_app (needle s : string) :
  prefix needle s = true <-> exists post : string, s = (needle ++ post)%string.
Proof.
  revert s. induction needle as [|c n IH]; intros s; cbn.
  - split; [intros _; now exists s | intros _; destruct s; reflexivity].
  - destruct s as [|c' s']; cbn.
    + split; [discriminate | intros (post & E); discriminate].
    + destruct (ascii_dec c c') as [->|Hne].
      * rewrite IH. split; intros (post & E); exists post; congruence.
      * split; [discriminate|]. intros (post & E). congruence.
Qed.

Lemma includes_contains (s needle : string) :
  includes s needle = true <-> contains s needle.
Proof.
  unfold contains. induction s as [|c s IH].
  - cbn [includes]. rewrite orb_false_r, prefix_app. split.
    + intros (post & E). now exists EmptyString, post.
    + intros ([|c pre] & post & E); [now exists post | discriminate].
  - cbn [includes]. rewrite orb_true_iff, prefix_app, IH. split.
    + intros [(post & E) | (pre & post & E)].
      * now exists EmptyString, post.
      * exists (String c pre), post. cbn. now rewrite E.
    + intros ([|c' pre] & post & E).
      * left. now exists post.
      * right. exists pre, post. cbn in E. congruence.
Qed.

Lemma includes_not_contains (s needle : string) :
  ~ contains s needle -> includes s needle = false.
Proof.
  intros H. destruct (includes s needle) eqn:E; [|reflexivity].
  now apply includes_contains in E.
Qed.

Lemma split_not_nil (sep : ascii) (s : string) : split sep s <> [].
Proof.
  destruct s as [|c s]; cbn; [discriminate|].
  destruct (Ascii.eqb c sep); [discriminate|].
  destruct (split sep s); discriminate.
Qed.

(** [split] cuts at the separators and only there: joining the parts with
    the separator gives the string back, and no part has a separator. *)
Lemma join_split (sep : ascii) (s : string) : join sep (split sep s) = s.
Proof.
  induction s as [|c s IH]; [reflexivity|].
  cbn [split]. pose proof (split_not_nil sep s) as Hne.
  destruct (Ascii.eqb c sep) eqn:E.
  - apply Ascii.eqb_eq in E. subst c.
    destruct (split sep s) as [|p ps]; [congruence|].
    cbn [join] in *. cbn. now rewrite IH.
  - destruct (split sep s) as [|p ps]; [congruence|].
    cbn [join] in *. destruct ps; cbn; now rewrite <- IH.
Qed.

Lemma split_no_sep (sep : ascii) (s p : string) :
  In p (split sep s) -> has_char sep p = false.
Proof.
  revert p. induction s as [|c s IH]; intros p; cbn [split].
  - intros [<-|[]]. reflexivity.
  - destruct (Ascii.eqb c sep) eqn:E.
    + intros [<-|H]; [reflexivity | now apply IH].
    + destruct (split sep s) as [|q qs].
      * intros [<-|[]]. cbn. now rewrite E.
      * intros [<-|H].
        -- cbn. rewrite E. apply IH. now left.
        -- apply IH. now right.
Qed.

(** ** Change-type classification *)

Lemma extractChangeType_rule (name : string) (i : nat) (needle label : string) :
  name <> "" ->
  nth_error classification_rules i = Some (needle, label) ->
  contains name needle ->
  (forall j rule, (j < i)%nat -> nth_error classification_rules j = Some rule ->
                  ~ contains name (fst rule)) ->
  extractChangeType name = label.
Proof.
  intros Hne Hi Hc Hprev.
  assert (Ht : str_truthy name = true) by (destruct name; [congruence | reflexivity]).
  assert (Hbefore : forall j rule, (j < i)%nat ->
            nth_error classification_rules j = Some rule ->
            includes name (fst rule) = false).
  { intros j rule Hj Hr. apply includes_not_contains. eauto. }
  apply includes_contains in Hc.
  unfold extractChangeType. rewrite Ht. cbn [negb].
  destruct i as [|[|[|[|[|[|[|i]]]]]]];
    [ | | | | | | | destruct i; discriminate Hi ];
    injection Hi as <- <-;
    try use_prior Hbefore 0%nat; try use_prior Hbefore 1%nat;
    try use_prior Hbefore 2%nat; try use_prior Hbefore 3%nat;
    try use_prior Hbefore 4%nat; try use_prior Hbefore 5%nat;
    now rewrite Hc.
Qed.

Lemma extractChangeType_fallback (name : string) :
  name <> "" ->
  (forall rule, In rule classification_rules -> ~ contains name (fst rule)) ->
  extractChangeType name =
  let parts := split "." name in
  if (2 <? List.length parts)%nat then
    match nth_error parts (List.length parts - 2) with
    | Some part => if str_truthy part then part else "Other"
    | None => "Other"
    end
  else "Other".
Proof.
  intros Hne Hnone.
  assert (Ht : str_truthy name = true) by (destruct name; [congruence | reflexivity]).
  assert (Hinc : forall needle label,
             In (needle, label) classification_rules ->
             includes name needle = false).
  { intros needle label Hr. apply includes_not_contains.
    apply (Hnone _ Hr). }
  unfold extractChangeType. rewrite Ht. cbn [negb].
  rewrite (Hinc "migrate" "Migration") by (cbn; tauto).
  rewrite (Hinc "OrderImports" "Import Organization") by (cbn; tauto).
  rewrite (Hinc "StringFormatted" "String Formatting") by (cbn; tauto).
  rewrite (Hinc "CompositeRecipe" "Composite") by (cbn; tauto).
  rewrite (Hinc "security" "Security") by (cbn; tauto).
  rewrite (Hinc "junit" "Testing") by (cbn; tauto).
  rewrite (Hinc "logging" "Logging") by (cbn; tauto).
  reflexivity.
Qed.

(** C4, as the code has it.  The empty name classifies as "Unknown".  On a
    non-empty name the substring tests are tried in order and the first
    that matches decides.  When none matches, the name is cut at its dots;
    with more than 2 segments the result is the second-to-last segment if
    that segment is not empty and "Other" if it is empty; with at most 2
    segments it is "Other".  "org.openrewrite.java.migrate.Foo" classifies
    as "Migration" and "com.acme.tools.Bar" as "tools". *)
Theorem extractChangeType_classification (name : string) :
  (name = "" -> extractChangeType name = "Unknown") /\
  (name <> "" ->
   (forall (i : nat) (needle label : string),
       nth_error classification_rules i = Some (needle, label) ->
       contains name needle ->
       (forall j rule, (j < i)%nat ->
                       nth_error classification_rules j = Some rule ->
                       ~ contains name (fst rule)) ->
       extractChangeType name = label) /\
   ((forall rule, In rule classification_rules -> ~ contains name (fst rule)) ->
    let parts := split "." name in
    join "." parts = name /\
    (forall p, In p parts -> has_char "." p = false) /\
    (forall seg, (2 < List.length parts)%nat ->
                 nth_error parts (List.length parts - 2) = Some seg ->
                 seg <> "" ->
                 extractChangeType name = seg) /\
    ((2 < List.length parts)%nat ->
     nth_error parts (List.length parts - 2) = Some "" ->
     extractChangeType name = "Other") /\
    ((List.length parts <= 2)%nat -> extractChangeType name = "Other"))) /\
  extractChangeType "org.openrewrite.java.migrate.Foo" = "Migration" /\
  extractChangeType "com.acme.tools.Bar" = "tools".
Proof.
  split; [|split; [|split; reflexivity]].
  - intros ->. reflexivity.
  - intros Hne. split.
    + intros i needle label. now apply extractChangeType_rule.
    + intros Hnone parts.
      pose proof (extractChangeType_fallback Hne Hnone) as E.
      cbv zeta in E. fold parts in E.
      split; [apply join_split|].
      split; [apply split_no_sep|].
      split; [|split].
      * intros seg Hlen Hseg Hs. rewrite E.
        apply Nat.ltb_lt in Hlen. rewrite Hlen, Hseg.
        destruct seg; [congruence | reflexivity].
      * intros Hlen Hseg. rewrite E.
        apply Nat.ltb_lt in Hlen. now rewrite Hlen, Hseg.
      * intros Hlen. rewrite E.
        apply Nat.ltb_ge in Hlen. now rewrite Hlen.
Qed.

Lemma extractChangeType_classification_witness :
  extractChangeType "org.example.junit.security.Check" = "Security"
  /\ extractChangeType "com.acme.tools.Bar" = "tools"
  /\ extractChangeType "com.acme..Bar" = "Other"
  /\ extractChangeType "acme.Bar" = "Other"
  /\ extractChangeType "" = "Unknown".
Proof.
  assert (Hno : forall name,
             forallb (fun rule => negb (includes name (fst rule)))
                     classification_rules = true ->
             forall rule, In rule classification_rules ->
                          ~ contains name (fst rule)).
  { intros name H rule Hr Hc. rewrite forallb_forall in H.
    specialize (H rule Hr). apply includes_contains in Hc.
    rewrite Hc in H. discriminate H. }
  split; [|split; [|split; [|split]]].
  - destruct (extractChangeType_classification "org.example.junit.security.Check")
      as (_ & H & _).
    destruct (H ltac:(discriminate)) as [Hrule _].
    apply (Hrule 4%nat "security" "Security" eq_refl).
    + exists "org.example.junit.", ".Check". reflexivity.
    + intros j rule Hj Hr Hc. apply includes_contains in Hc.
      do 4 (destruct j as [|j];
            [injection Hr as <-; discriminate Hc|]).
      lia.
  - destruct (extractChangeType_classification "com.acme.tools.Bar")
      as (_ & H & _).
    destruct (H ltac:(discriminate)) as [_ Hfb].
    destruct (Hfb (Hno "com.acme.tools.Bar" eq_refl)) as (_ & _ & Hseg & _).
    apply Hseg; [cbn; lia | reflexivity | discriminate].
  - destruct (extractChangeType_classification "com.acme..Bar")
      as (_ & H & _).
    destruct (H ltac:(discriminate)) as [_ Hfb].
    destruct (Hfb (Hno "com.acme..Bar" eq_refl)) as (_ & _ & _ & Hempty & _).
    apply Hempty; [cbn; lia | reflexivity].
  - destruct (extractChangeType_classification "acme.Bar") as (_ & H & _).
    destruct (H ltac:(discriminate)) as [_ Hfb].
    destruct (Hfb (Hno "acme.Bar" eq_refl)) as (_ & _ & _ & _ & Hshort).
    apply Hshort. cbn. lia.
  - destruct (extractChangeType_classification "") as (H & _).
    now apply H.
Defined.

(** C4 as stated fails on an empty second-to-last segment: no substring
    test matches "com.acme..Bar", it has four segments, the second-to-last
    is the empty string, and the result is "Other". *)
Lemma extractChangeType_empty_segment_counterexample :
  forallb (fun rule => negb (includes "com.acme..Bar" (fst rule)))
          classification_rules = true
  /\ split "." "com.acme..Bar" = ["com"; "acme"; ""; "Bar"]
  /\ nth_error (split "." "com.acme..Bar") 2 = Some ""
  /\ extractChangeType "com.acme..Bar" = "Other"
  /\ extractChangeType "com.acme..Bar" <> "".
Proof. repeat split; discriminate. Qed.

(** ** Maps in insertion order *)

Lemma fold_left_invariant {A B : Type} (P : A -> Prop) (f : A -> B -> A)
    (l : list B) (init : A) :
  P init ->
  (forall acc x, In x l -> P acc -> P (f acc x)) ->
  P (fold_left f l init).
Proof.
  revert init. induction l as [|x l IH]; intros init H0 Hstep; cbn.
  - assumption.
  - apply IH.
    + apply Hstep; [now left | assumption].
    + intros acc y Hy. apply Hstep. now right.
Qed.

Section MapFacts.
Variables K V : Type.
Variable eqb : K -> K -> bool.
Hypothesis eqb_spec : forall x y : K, eqb x y = true <-> x = y.

Lemma eqb_refl_true (k : K) : eqb k k = true.
Proof. now apply eqb_spec. Qed.

Lemma eqb_neq_false (k k' : K) : k <> k' -> eqb k k' = false.
Proof.
  intros H. destruct (eqb k k') eqn:E; [|reflexivity].
  now apply eqb_spec in E.
Qed.

Lemma Map_get_In (m : list (K * V)) (k : K) (v : V) :
  Map_get eqb m k = Some v -> In (k, v) m.
Proof.
  induction m as [|[k' v'] m IH]; cbn; [discriminate|].
  destruct (eqb k k') eqn:E.
  - apply eqb_spec in E. intros [= ->]. left. now subst.
  - intros H. right. auto.
Qed.

Lemma Map_get_None (m : list (K * V)) (k : K) :
  Map_get eqb m k = None <-> ~ In k (map fst m).
Proof.
  induction m as [|[k' v'] m IH]; cbn.
  - tauto.
  - destruct (eqb k k') eqn:E.
    + apply eqb_spec in E. subst. split; [discriminate | tauto].
    + rewrite IH. split; [|tauto].
      intros H [->|H']; [|tauto].
      rewrite eqb_refl_true in E. discriminate.
Qed.

Lemma In_Map_get (m : list (K * V)) (k : K) (v : V) :
  NoDup (map fst m) -> In (k, v) m -> Map_get eqb m k = Some v.
Proof.
  induction m as [|[k' v'] m IH]; cbn; [tauto|].
  intros Hnd [[= -> ->]|H].
  - now rewrite eqb_refl_true.
  - inversion Hnd as [|? ? Hk' Hnd']; subst.
    rewrite eqb_neq_false; [now apply IH|].
    intros ->. apply Hk'. apply (in_map fst) in H. exact H.
Qed.

Lemma Map_get_set (m : list (K * V)) (k k' : K) (v : V) :
  Map_get eqb (Map_set eqb m k v) k'
  = if eqb k' k then Some v else Map_get eqb m k'.
Proof.
  induction m as [|[k0 v0] m IH]; cbn.
  - reflexivity.
  - destruct (eqb k k0) eqn:E; cbn.
    + apply eqb_spec in E. subst k0. now destruct (eqb k' k).
    + destruct (eqb k' k0) eqn:E'.
      * apply eqb_spec in E'. subst k0.
        rewrite eqb_neq_false; [reflexivity|].
        intros ->. rewrite eqb_refl_true in E. discriminate.
      * exact IH.
Qed.

Lemma Map_set_keys_present (m : list (K * V)) (k : K) (v : V) :
  In k (map fst m) -> map fst (Map_set eqb m k v) = map fst m.
Proof.
  induction m as [|[k0 v0] m IH]; cbn; [tauto|].
  destruct (eqb k k0) eqn:E; cbn; [reflexivity|].
  intros [->|H]; [|now rewrite IH].
  rewrite eqb_refl_true in E. discriminate.
Qed.

Lemma Map_set_absent (m : list (K * V)) (k : K) (v : V) :
  ~ In k (map fst m) -> Map_set eqb m k v = m ++ [(k, v)].
Proof.
  induction m as [|[k0 v0] m IH]; cbn; [reflexivity|].
  intros H. rewrite eqb_neq_false by (intros ->; apply H; now left).
  now rewrite IH by tauto.
Qed.

Lemma Map_set_Forall (Q : K * V -> Prop) (m : list (K * V)) (k : K) (v : V) :
  Forall Q m -> Q (k, v) -> Forall Q (Map_set eqb m k v).
Proof.
  intros Hm Hkv. induction Hm as [|[k0 v0] m H0 Hm IH]; cbn.
  - repeat constructor. assumption.
  - destruct (eqb k k0) eqn:E.
    + apply eqb_spec in E. subst k0. now constructor.
    + now constructor.
Qed.

Lemma Map_has_false (m : list (K * V)) (k : K) :
  Map_has eqb m k = false <-> ~ In k (map fst m).
Proof.
  unfold Map_has. rewrite <- Map_get_None.
  destruct (Map_get eqb m k); split; congruence.
Qed.

Lemma Map_get_Some_key (m : list (K * V)) (k : K) (v : V) :
  Map_get eqb m k = Some v -> In k (map fst m).
Proof.
  intros H. apply Map_get_In in H. apply (in_map fst) in H. exact H.
Qed.
End MapFacts.

Section MapSetFacts.
Variables K V : Type.
Variable eqb : K -> K -> bool.
Hypothesis eqb_spec : forall x y : K, eqb x y = true <-> x = y.

Lemma Map_set_set (m : list (K * V)) (k : K) (v0 v : V) :
  Map_set eqb (Map_set eqb m k v0) k v = Map_set eqb m k v.
Proof.
  induction m as [|[k0 w] m IH]; cbn.
  - now rewrite (eqb_refl_true eqb eqb_spec).
  - destruct (eqb k k0) eqn:E; cbn; rewrite E; [reflexivity|].
    now rewrite IH.
Qed.

Lemma Map_set_keys (m : list (K * V)) (k : K) (v : V) :
  map fst (Map_set eqb m k v) = map fst m
  \/ (~ In k (map fst m) /\ map fst (Map_set eqb m k v) = map fst m ++ [k]).
Proof.
  destruct (Map_get eqb m k) as [a|] eqn:E.
  - left. apply (Map_set_keys_present eqb eqb_spec).
    now apply (Map_get_Some_key eqb eqb_spec) in E.
  - right. apply (Map_get_None eqb eqb_spec) in E. split; [assumption|].
    rewrite (Map_set_absent eqb eqb_spec) by assumption.
    now rewrite map_app.
Qed.

Lemma Map_set_NoDup (m : list (K * V)) (k : K) (v : V) :
  NoDup (map fst m) -> NoDup (map fst (Map_set eqb m k v)).
Proof.
  intros Hnd. destruct (Map_set_keys m k v) as [->|[Hk ->]]; [assumption|].
  apply NoDup_app; [assumption | repeat constructor; intros [] |].
  intros x Hx [<-|[]]. contradiction.
Qed.

Lemma Map_set_key_In (m : list (K * V)) (k k' : K) (v : V) :
  In k' (map fst (Map_set eqb m k v)) <-> In k' (map fst m) \/ k' = k.
Proof.
  destruct (Map_set_keys m k v) as [E|[Hk E]]; rewrite E.
  - split; [tauto|]. intros [H| ->]; [assumption|].
    destruct (Map_get eqb m k) as [a|] eqn:G.
    + now apply (Map_get_Some_key eqb eqb_spec) in G.
    + apply (Map_get_None eqb eqb_spec) in G.
      rewrite (Map_set_absent eqb eqb_spec) in E by assumption.
      rewrite map_app in E. cbn in E.
      apply (f_equal (@List.length K)) in E. rewrite length_app in E.
      cbn in E. lia.
  - rewrite in_app_iff. cbn. intuition congruence.
Qed.
End MapSetFacts.

(** ** Change-type aggregation *)

Lemma aggregateSourceResult_set
    (m : list (string * Bucket.t)) (result : SourceFileResults) :
  aggregateSourceResult m result
  = Map_set String.eqb m (extractChangeType (recipeChanges result))
      (absorbResult
         (get_or emptyBucket
            (Map_get String.eqb m (extractChangeType (recipeChanges result))))
         result).
Proof.
  unfold aggregateSourceResult, Map_has.
  set (ct := extractChangeType (recipeChanges result)).
  destruct (Map_get String.eqb m ct) as [agg|] eqn:E; cbn [negb get_or].
  - rewrite E. reflexivity.
  - rewrite (Map_get_set String.eqb string_eqb_spec), String.eqb_refl.
    now rewrite (Map_set_set String.eqb string_eqb_spec).
Qed.

Lemma aggregateRecipeStats_set
    (m : list (string * Bucket.t)) (stats : RecipeRunStats) :
  aggregateRecipeStats m stats
  = match Map_get String.eqb m (extractChangeType (recipe stats)) with
    | Some agg =>
        Map_set String.eqb m (extractChangeType (recipe stats))
          (add_executionTime (executionTimeMs stats) agg)
    | None => m
    end.
Proof. reflexivity. Qed.

Lemma first_pass_invariant (sourceResults : list SourceFileResults) :
  let m := fold_left aggregateSourceResult sourceResults [] in
  NoDup (map fst m) /\ Forall (first_pass_entry sourceResults) m.
Proof.
  apply (fold_left_invariant
           (fun m => NoDup (map fst m)
                     /\ Forall (first_pass_entry sourceResults) m)).
  - split; constructor.
  - intros m sr Hsr [Hnd Hall]. rewrite aggregateSourceResult_set. split.
    + now apply (Map_set_NoDup String.eqb string_eqb_spec).
    + apply (Map_set_Forall String.eqb string_eqb_spec); [assumption|].
      unfold first_pass_entry. cbn [fst snd absorbResult Bucket.executionTime
                                    Bucket.recipes].
      split.
      * exists sr. split; [assumption|]. split; [reflexivity|].
        apply (Set_add_In String.eqb string_eqb_spec). now right.
      * destruct (Map_get String.eqb m (extractChangeType (recipeChanges sr)))
          as [agg|] eqn:E; cbn [get_or]; [|reflexivity].
        apply (Map_get_In String.eqb string_eqb_spec) in E.
        rewrite Forall_forall in Hall. apply (Hall _ E).
Qed.

Lemma first_pass_keys
    (sourceResults : list SourceFileResults) (m : list (string * Bucket.t))
    (k : string) :
  In k (map fst (fold_left aggregateSourceResult sourceResults m))
  <-> In k (map fst m)
      \/ In k (map (fun sr => extractChangeType (recipeChanges sr)) sourceResults).
Proof.
  revert m. induction sourceResults as [|r l IH]; intros m; cbn [fold_left map].
  - cbn. tauto.
  - rewrite IH, aggregateSourceResult_set.
    rewrite (Map_set_key_In String.eqb string_eqb_spec).
    cbn. intuition congruence.
Qed.

Lemma add_executionTime_0 (b : Bucket.t) : add_executionTime num0 b = b.
Proof. destruct b. unfold add_executionTime. cbn. now rewrite num_add_0_r. Qed.

Lemma add_executionTime_add (x y : number) (b : Bucket.t) :
  add_executionTime y (add_executionTime x b) = add_executionTime (x + y) b.
Proof. unfold add_executionTime. cbn. now rewrite num_add_assoc. Qed.

Lemma aggregateRecipeStats_keys
    (m : list (string * Bucket.t)) (stats : RecipeRunStats) :
  map fst (aggregateRecipeStats m stats) = map fst m.
Proof.
  rewrite aggregateRecipeStats_set.
  destruct (Map_get String.eqb m (extractChangeType (recipe stats)))
    as [agg|] eqn:E; [|reflexivity].
  apply (Map_set_keys_present String.eqb string_eqb_spec).
  now apply (Map_get_Some_key String.eqb string_eqb_spec) in E.
Qed.

Lemma second_pass_keys
    (recipeStats : list RecipeRunStats) (m : list (string * Bucket.t)) :
  map fst (fold_left aggregateRecipeStats recipeStats m) = map fst m.
Proof.
  revert m. induction recipeStats as [|r rs IH]; intros m; cbn; [reflexivity|].
  now rewrite IH, aggregateRecipeStats_keys.
Qed.

(** The second pass adds to each bucket the execution times of the recipe
    runs that classify to its key, and to no other. *)
Lemma second_pass_get
    (recipeStats : list RecipeRunStats) (m : list (string * Bucket.t))
    (k : string) :
  Map_get String.eqb (fold_left aggregateRecipeStats recipeStats m) k
  = option_map
      (add_executionTime
         (num_sum (map executionTimeMs (runs_of_type k recipeStats))))
      (Map_get String.eqb m k).
Proof.
  revert m. induction recipeStats as [|r rs IH]; intros m.
  - cbn. destruct (Map_get String.eqb m k); cbn; [|reflexivity].
    now rewrite add_executionTime_0.
  - cbn [fold_left]. rewrite IH, aggregateRecipeStats_set.
    unfold runs_of_type. cbn [filter]. fold (runs_of_type k rs).
    destruct (String.eqb (extractChangeType (recipe r)) k) eqn:E.
    + apply String.eqb_eq in E. rewrite E.
      destruct (Map_get String.eqb m k) as [agg|] eqn:G.
      * rewrite (Map_get_set String.eqb string_eqb_spec), String.eqb_refl.
        cbn [map]. rewrite num_sum_cons. cbn [option_map].
        now rewrite add_executionTime_add.
      * rewrite G. reflexivity.
    + destruct (Map_get String.eqb m (extractChangeType (recipe r)))
        as [agg|]; [|reflexivity].
      rewrite (Map_get_set String.eqb string_eqb_spec).
      rewrite String.eqb_sym, E. reflexivity.
Qed.

(** A recipe run whose change type has no bucket leaves the map as it
    is. *)
Lemma second_pass_skip
    (rs1 rs2 : list RecipeRunStats) (r : RecipeRunStats)
    (m : list (string * Bucket.t)) :
  ~ In (extractChangeType (recipe r)) (map fst m) ->
  fold_left aggregateRecipeStats (rs1 ++ r :: rs2) m
  = fold_left aggregateRecipeStats (rs1 ++ rs2) m.
Proof.
  intros Hk. rewrite !fold_left_app. cbn [fold_left]. f_equal.
  rewrite aggregateRecipeStats_set.
  rewrite <- (second_pass_keys rs1 m) in Hk.
  apply (Map_get_None String.eqb string_eqb_spec) in Hk. now rewrite Hk.
Qed.

Lemma aggregateByChangeType_map
    (recipeStats : list RecipeRunStats) (sourceResults : list SourceFileResults) :
  aggregateByChangeType recipeStats sourceResults
  = map toAggregation
        (fold_left aggregateRecipeStats recipeStats
                   (fold_left aggregateSourceResult sourceResults [])).
Proof.
  unfold aggregateByChangeType. apply map_ext. now intros [k v].
Qed.

(** C3.  The buckets [aggregateByChangeType] returns are those of the
    change types of the file changes, one per change type; the
    [executionTime] of a bucket is the sum of [(cumulativeScanningTime +
    cumulativeEditTime) / 1e6] over the recipe runs classifying to its
    change type.  A recipe run whose change type is that of no file change
    has no bucket, and the output is the same with or without it. *)
Theorem aggregateByChangeType_executionTime
    (recipeStats : list RecipeRunStats) (sourceResults : list SourceFileResults) :
  let out := aggregateByChangeType recipeStats sourceResults in
  (forall b, In b out ->
     exists sr, In sr sourceResults
                /\ extractChangeType (recipeChanges sr)
                   = ChangeTypeAggregation.changeType b) /\
  (forall sr, In sr sourceResults ->
     In (extractChangeType (recipeChanges sr))
        (map ChangeTypeAggregation.changeType out)) /\
  NoDup (map ChangeTypeAggregation.changeType out) /\
  (forall b, In b out ->
     ChangeTypeAggregation.executionTime b
     = num_sum (map (fun r => (cumulativeScanningTime r + cumulativeEditTime r)
                              / numZ 1000000)
                    (runs_of_type (ChangeTypeAggregation.changeType b)
                                  recipeStats))) /\
  (forall r,
     (forall sr, In sr sourceResults ->
                 extractChangeType (recipeChanges sr)
                 <> extractChangeType (recipe r)) ->
     (forall b, In b out ->
                ChangeTypeAggregation.changeType b
                <> extractChangeType (recipe r)) /\
     (forall rs1 rs2, recipeStats = rs1 ++ r :: rs2 ->
                      aggregateByChangeType (rs1 ++ rs2) sourceResults = out)).
Proof.
  intros out.
  destruct (first_pass_invariant sourceResults) as [Hnd Hall].
  set (m1 := fold_left aggregateSourceResult sourceResults []) in *.
  set (m2 := fold_left aggregateRecipeStats recipeStats m1).
  assert (Hout : out = map toAggregation m2)
    by apply aggregateByChangeType_map.
  assert (Hkeys : map ChangeTypeAggregation.changeType out = map fst m1).
  { rewrite Hout, map_map. unfold m2. rewrite <- (second_pass_keys recipeStats m1).
    apply map_ext. now intros [k v]. }
  assert (Hsrc : forall k, In k (map fst m1) ->
            exists sr, In sr sourceResults
                       /\ extractChangeType (recipeChanges sr) = k).
  { intros k Hk. apply in_map_iff in Hk. destruct Hk as (e & <- & He).
    rewrite Forall_forall in Hall.
    destruct (Hall e He) as [(sr & Hsr & E & _) _]. now exists sr. }
  assert (Htype : forall b, In b out ->
            In (ChangeTypeAggregation.changeType b) (map fst m1)).
  { intros b Hb. rewrite <- Hkeys. now apply in_map. }
  split; [|split; [|split; [|split]]].
  - intros b Hb. auto.
  - intros sr Hsr. rewrite Hkeys. unfold m1. apply first_pass_keys. right.
    apply in_map_iff. now exists sr.
  - now rewrite Hkeys.
  - intros b Hb. rewrite Hout in Hb. apply in_map_iff in Hb.
    destruct Hb as ([k v] & <- & Hkv). cbn [toAggregation
      ChangeTypeAggregation.executionTime ChangeTypeAggregation.changeType].
    assert (Hnd2 : NoDup (map fst m2))
      by (unfold m2; now rewrite second_pass_keys).
    apply (In_Map_get String.eqb string_eqb_spec _ _ _ Hnd2) in Hkv.
    unfold m2 in Hkv. rewrite second_pass_get in Hkv.
    destruct (Map_get String.eqb m1 k) as [v1|] eqn:G; [|discriminate].
    cbn in Hkv. injection Hkv as <-.
    apply (Map_get_In String.eqb string_eqb_spec) in G.
    rewrite Forall_forall in Hall. destruct (Hall _ G) as (_ & H0).
    cbn in H0. cbn [add_executionTime Bucket.executionTime].
    rewrite H0. apply num_add_0_l.
  - intros r Hr.
    assert (Hno : ~ In (extractChangeType (recipe r)) (map fst m1)).
    { intros Hk. destruct (Hsrc _ Hk) as (sr & Hsr & E). now apply (Hr sr). }
    split.
    + intros b Hb E. apply Hno. rewrite <- E. auto.
    + intros rs1 rs2 ->. rewrite Hout, aggregateByChangeType_map.
      unfold m2. fold m1. now rewrite second_pass_skip.
Qed.

Lemma aggregateByChangeType_executionTime_witness :
  aggregateByChangeType [stats_of (numZ 2000000) (numZ 1000000)] [change_6s]
  = aggregateByChangeType
      [junit_run; stats_of (numZ 2000000) (numZ 1000000)] [change_6s]
  /\ map ChangeTypeAggregation.executionTime
         (aggregateByChangeType
            [junit_run; stats_of (numZ 2000000) (numZ 1000000)] [change_6s])
     = [numZ 3]
  /\ In "Import Organization"
        (map ChangeTypeAggregation.changeType
             (aggregateByChangeType
                [junit_run; stats_of (numZ 2000000) (numZ 1000000)]
                [change_6s])).
Proof.
  set (rs := [junit_run; stats_of (numZ 2000000) (numZ 1000000)]).
  destruct (aggregateByChangeType_executionTime rs [change_6s])
    as (Hsrc & Hall & _ & Hexec & H).
  split; [|split].
  - destruct (H junit_run) as [_ Hsame].
    + intros sr [<-|[]]. discriminate.
    + apply (Hsame [] [stats_of (numZ 2000000) (numZ 1000000)]). reflexivity.
  - destruct (aggregateByChangeType rs [change_6s]) as [|b [|b' l]] eqn:E;
      try discriminate E.
    cbn [map]. rewrite (Hexec b (or_introl eq_refl)).
    destruct (Hsrc b (or_introl eq_refl)) as (sr & [<-|[]] & <-).
    num_eq.
  - apply (Hall change_6s). now left.
Defined.

(** C10.  Every bucket [aggregateByChangeType] returns has a non-empty
    [recipes] list: it holds the recipe name of a file change of the
    bucket's change type. *)
Theorem aggregateByChangeType_recipes_nonempty
    (recipeStats : list RecipeRunStats) (sourceResults : list SourceFileResults) :
  Forall (fun b =>
            ChangeTypeAggregation.recipes b <> []
            /\ exists sr, In sr sourceResults
                 /\ extractChangeType (recipeChanges sr)
                    = ChangeTypeAggregation.changeType b
                 /\ In (recipeChanges sr) (ChangeTypeAggregation.recipes b))
         (aggregateByChangeType recipeStats sourceResults).
Proof.
  destruct (first_pass_invariant sourceResults) as [Hnd Hall].
  set (m1 := fold_left aggregateSourceResult sourceResults []) in *.
  rewrite aggregateByChangeType_map. fold m1.
  set (m2 := fold_left aggregateRecipeStats recipeStats m1).
  assert (Hnd2 : NoDup (map fst m2))
    by (unfold m2; now rewrite second_pass_keys).
  apply Forall_forall. intros b Hb. apply in_map_iff in Hb.
  destruct Hb as ([k v] & <- & Hkv).
  apply (In_Map_get String.eqb string_eqb_spec _ _ _ Hnd2) in Hkv.
  unfold m2 in Hkv. rewrite second_pass_get in Hkv.
  destruct (Map_get String.eqb m1 k) as [v1|] eqn:G; [|discriminate].
  cbn in Hkv. injection Hkv as <-.
  apply (Map_get_In String.eqb string_eqb_spec) in G.
  rewrite Forall_forall in Hall.
  destruct (Hall _ G) as [(sr & Hsr & E & Hin) _]. cbn [fst snd] in E, Hin.
  cbn [toAggregation ChangeTypeAggregation.recipes
       ChangeTypeAggregation.changeType add_executionTime Bucket.recipes].
  split.
  - intros Hnil. rewrite Hnil in Hin. destruct Hin.
  - now exists sr.
Qed.

(** ** Sorting with the comparator [(a, b) => key(a) - key(b)] *)

Section SortByKey.
Variable A : Type.
Variable key : A -> number.

Local Abbreviation compareFn := (fun a b : A => key a - key b).
Local Abbreviation key_le := (fun a b : A => num_le (key a) (key b)).

Lemma sort_insert_perm (x : A) (sorted : list A) :
  Permutation (x :: sorted) (sort_insert compareFn x sorted).
Proof.
  induction sorted as [|y ys IH]; cbn [sort_insert]; [reflexivity|].
  destruct (compareFn y x >? num0); [reflexivity|].
  rewrite perm_swap. now constructor.
Qed.

Lemma sort_insert_hd (x y : A) (ys : list A) :
  key_le y x -> HdRel key_le y ys -> HdRel key_le y (sort_insert compareFn x ys).
Proof.
  intros Hyx Hhd. destruct ys as [|z zs]; cbn [sort_insert].
  - now constructor.
  - destruct (compareFn z x >? num0); constructor; [assumption|].
    now inversion Hhd.
Qed.

Lemma sort_insert_sorted (x : A) (sorted : list A) :
  key x <> NaN -> Forall (fun a => key a <> NaN) sorted ->
  Sorted key_le sorted -> Sorted key_le (sort_insert compareFn x sorted).
Proof.
  intros Hx Hall Hs. induction Hs as [|y ys Hs IH Hhd]; cbn [sort_insert].
  - repeat constructor.
  - inversion Hall as [|? ? Hy Hys]; subst.
    rewrite (num_sub_pos Hy Hx).
    destruct (key x <? key y) eqn:E.
    + constructor; [now constructor|]. constructor.
      now apply num_ltb_true_le.
    + constructor; [now apply IH|].
      apply sort_insert_hd; [|assumption].
      now apply (num_ltb_false_le Hx Hy).
Qed.

Lemma fold_sort_insert_perm (l acc : list A) :
  Permutation (acc ++ l) (fold_left (fun acc x => sort_insert compareFn x acc) l acc).
Proof.
  revert acc. induction l as [|x l IH]; intros acc; cbn [fold_left].
  - now rewrite app_nil_r.
  - rewrite <- IH. rewrite <- sort_insert_perm.
    symmetry. apply Permutation_middle.
Qed.

Lemma fold_sort_insert_sorted (l acc : list A) :
  Forall (fun a => key a <> NaN) (acc ++ l) -> Sorted key_le acc ->
  Sorted key_le (fold_left (fun acc x => sort_insert compareFn x acc) l acc).
Proof.
  revert acc. induction l as [|x l IH]; intros acc Hall Hs; cbn [fold_left].
  - assumption.
  - apply Forall_app in Hall. destruct Hall as [Hacc Hl].
    inversion Hl as [|? ? Hx Hl']; subst.
    apply IH.
    + apply Forall_app. split; [|assumption].
      apply (Permutation_Forall (sort_insert_perm x acc)). now constructor.
    + now apply sort_insert_sorted.
Qed.

(** [sort] returns a permutation of the array. *)
Lemma Array_sort_perm (l : list A) :
  Permutation l (Array_sort (fun a b => key a - key b) l).
Proof. apply (fold_sort_insert_perm l []). Qed.

(** Without NaN among the keys, [sort] returns it in ascending order. *)
Lemma Array_sort_sorted (l : list A) :
  Forall (fun a => key a <> NaN) l ->
  Sorted (fun a b => num_le (key a) (key b)) (Array_sort (fun a b => key a - key b) l).
Proof.
  intros H. apply (@fold_sort_insert_sorted l []); [exact H | constructor].
Qed.
End SortByKey.

(** ** Time series *)

Lemma Sorted_map {A B : Type} (R : B -> B -> Prop) (f : A -> B) (l : list A) :
  Sorted (fun a b => R (f a) (f b)) l -> Sorted R (map f l).
Proof.
  induction 1 as [|a l Hs IH Hhd]; cbn; constructor; [assumption|].
  destruct Hhd; cbn; now constructor.
Qed.

Lemma Sorted_le_NoDup_lt (l : list number) :
  Sorted num_le l -> NoDup l -> StronglySorted num_lt l.
Proof.
  intros Hs Hnd. apply Sorted_StronglySorted in Hs.
  2:{ intros x y z. apply num_le_trans. }
  induction Hs as [|x l Hs IH Hx]; constructor.
  - apply IH. now inversion Hnd.
  - inversion Hnd as [|? ? Hnin _]; subst.
    rewrite Forall_forall in *. intros y Hy.
    apply num_le_neq_lt; [now apply Hx|]. intros ->. contradiction.
Qed.

Lemma addToCycle_set
    (m : list (number * CycleData.t)) (result : SourceFileResults) :
  addToCycle m result
  = Map_set num_eqb m (cycle result)
      (absorbCycle (get_or emptyCycle (Map_get num_eqb m (cycle result))) result).
Proof.
  unfold addToCycle, Map_has.
  destruct (Map_get num_eqb m (cycle result)) as [c|] eqn:E; cbn [negb get_or].
  - rewrite E. reflexivity.
  - rewrite (Map_get_set num_eqb num_eqb_spec).
    rewrite (proj2 (num_eqb_spec _ _) eq_refl).
    now rewrite (Map_set_set num_eqb num_eqb_spec).
Qed.

Lemma cycleMap_keys
    (sourceResults : list SourceFileResults) (m : list (number * CycleData.t))
    (k : number) :
  In k (map fst (fold_left addToCycle sourceResults m))
  <-> In k (map fst m) \/ In k (map cycle sourceResults).
Proof.
  revert m. induction sourceResults as [|r l IH]; intros m; cbn [fold_left map].
  - cbn. tauto.
  - rewrite IH, addToCycle_set, (Map_set_key_In num_eqb num_eqb_spec).
    cbn. intuition congruence.
Qed.

Lemma cycleMap_NoDup (sourceResults : list SourceFileResults) :
  NoDup (map fst (fold_left addToCycle sourceResults [])).
Proof.
  apply (fold_left_invariant (fun m => NoDup (map fst m))).
  - constructor.
  - intros m r _ Hnd. rewrite addToCycle_set.
    now apply (Map_set_NoDup num_eqb num_eqb_spec).
Qed.

Lemma cycleMap_nonneg (sourceResults : list SourceFileResults) :
  (forall r, In r sourceResults -> num_le num0 (estimatedTimeSaving r)) ->
  Forall (fun e => num_le num0 (CycleData.timeSaved (snd e)))
         (fold_left addToCycle sourceResults []).
Proof.
  intros Hpos.
  apply (fold_left_invariant
           (Forall (fun e => num_le num0 (CycleData.timeSaved (snd e))))).
  - constructor.
  - intros m r Hr Hall. rewrite addToCycle_set.
    apply (Map_set_Forall num_eqb num_eqb_spec); [assumption|].
    cbn [snd absorbCycle CycleData.timeSaved].
    apply num_le_add_nonneg; [|now apply Hpos].
    destruct (Map_get num_eqb m (cycle r)) as [c|] eqn:E; cbn [get_or].
    + apply (Map_get_In num_eqb num_eqb_spec) in E.
      rewrite Forall_forall in Hall. apply (Hall _ E).
    + cbn. apply Qcle_refl.
Qed.

Lemma calculateTimeSeries_rows (sourceResults : list SourceFileResults) :
  calculateTimeSeries sourceResults
  = accumulate num0
      (map toCycleRow
           (Array_sort (fun a b => fst a - fst b)
                       (fold_left addToCycle sourceResults []))).
Proof.
  reflexivity.
Qed.

Lemma accumulate_cycles (c : number) (rows : list CycleRow.t) :
  map TimeSeriesPoint.cycle (accumulate c rows) = map CycleRow.cycle rows.
Proof.
  revert c. induction rows as [|r rows IH]; intros c; cbn; [reflexivity|].
  now rewrite IH.
Qed.

(** The running sum of non-negative terms never decreases. *)
Lemma accumulate_monotone (c : number) (rows : list CycleRow.t) :
  num_le num0 c ->
  Forall (fun r => num_le num0 (CycleRow.timeSaved r)) rows ->
  Sorted num_le (map TimeSeriesPoint.cumulativeTimeSaved (accumulate c rows)).
Proof.
  revert c. induction rows as [|r rows IH]; intros c Hc Hall; cbn.
  - constructor.
  - inversion Hall as [|? ? Hr Hrows]; subst.
    assert (Hc' : num_le num0 (c + CycleRow.timeSaved r))
      by now apply num_le_add_nonneg.
    constructor; [now apply IH|].
    destruct rows as [|r' rows']; cbn [accumulate map]; constructor.
    inversion Hrows; subst. cbn [TimeSeriesPoint.cumulativeTimeSaved].
    now apply num_le_add_r.
Qed.

(** C7, as the code has it.  The cycle numbers of the sequence returned by
    [calculateTimeSeries] are the cycle numbers of the file changes; they
    are strictly ascending when no cycle number is NaN; the
    [cumulativeTimeSaved] values are non-decreasing from one entry to the
    next when no [estimatedTimeSaving] is negative (or NaN). *)
Theorem calculateTimeSeries_sorted_monotone
    (sourceResults : list SourceFileResults) :
  let out := calculateTimeSeries sourceResults in
  (forall c, In c (map TimeSeriesPoint.cycle out)
             <-> In c (map cycle sourceResults)) /\
  ((forall r, In r sourceResults -> cycle r <> NaN) ->
   StronglySorted num_lt (map TimeSeriesPoint.cycle out)) /\
  ((forall r, In r sourceResults -> num_le num0 (estimatedTimeSaving r)) ->
   Sorted num_le (map TimeSeriesPoint.cumulativeTimeSaved out)).
Proof.
  intros out.
  set (m := fold_left addToCycle sourceResults []).
  set (sorted := Array_sort (fun a b => fst a - fst b) m).
  assert (Hperm : Permutation m sorted) by apply (Array_sort_perm fst).
  assert (Hcycles : map TimeSeriesPoint.cycle out = map fst sorted).
  { unfold out. rewrite calculateTimeSeries_rows, accumulate_cycles, map_map.
    apply map_ext. now intros [k v]. }
  assert (Hkeys : forall c, In c (map fst m) <-> In c (map cycle sourceResults)).
  { intros c. unfold m. rewrite cycleMap_keys. cbn. tauto. }
  split; [|split].
  - intros c. rewrite Hcycles, <- Hkeys.
    split; apply Permutation_in; apply Permutation_map;
      [symmetry|]; assumption.
  - intros Hnan. rewrite Hcycles. apply Sorted_le_NoDup_lt.
    + apply Sorted_map. apply (Array_sort_sorted fst).
      apply Forall_forall. intros e He. apply (in_map fst) in He.
      apply Hkeys in He. apply in_map_iff in He.
      destruct He as (r & <- & Hr). now apply Hnan.
    + apply (Permutation_NoDup (Permutation_map fst Hperm)).
      apply cycleMap_NoDup.
  - intros Hpos. unfold out. rewrite calculateTimeSeries_rows.
    apply accumulate_monotone; [apply Qcle_refl|].
    apply Forall_forall. intros row Hrow. apply in_map_iff in Hrow.
    destruct Hrow as ([k v] & <- & He). cbn [toCycleRow CycleRow.timeSaved].
    apply (Permutation_in _ (Permutation_sym Hperm)) in He.
    pose proof (cycleMap_nonneg sourceResults Hpos) as Hall.
    rewrite Forall_forall in Hall. apply (Hall _ He).
Qed.

Lemma calculateTimeSeries_sorted_monotone_witness :
  StronglySorted num_lt
    (map TimeSeriesPoint.cycle (calculateTimeSeries three_changes))
  /\ Sorted num_le
       (map TimeSeriesPoint.cumulativeTimeSaved
            (calculateTimeSeries three_changes)).
Proof.
  destruct (calculateTimeSeries_sorted_monotone three_changes) as (_ & Hc & Hs).
  split.
  - apply Hc. intros r [<-|[<-|[<-|[]]]]; discriminate.
  - apply Hs. intros r [<-|[<-|[<-|[]]]]; vm_compute; discriminate.
Defined.

(** C7 as stated fails on a negative [estimatedTimeSaving]: a saving of 5
    in cycle 1 and of -3 in cycle 2 give the cumulative values 5 then 2. *)
Lemma calculateTimeSeries_decreasing_counterexample :
  map TimeSeriesPoint.cumulativeTimeSaved (calculateTimeSeries saving_then_loss)
  = [numZ 5; numZ 2]
  /\ num_lt (numZ 2) (numZ 5)
  /\ ~ Sorted num_le
       (map TimeSeriesPoint.cumulativeTimeSaved
            (calculateTimeSeries saving_then_loss)).
Proof.
  assert (E : map TimeSeriesPoint.cumulativeTimeSaved
                  (calculateTimeSeries saving_then_loss)
              = [numZ 5; numZ 2]) by num_eq.
  split; [exact E|]. split; [reflexivity|].
  rewrite E. intros H. inversion H as [|? ? _ Hhd]; subst.
  inversion Hhd as [|? ? Hle]; subst.
  vm_compute in Hle. now apply Hle.
Qed.

(** ** Duration formatting *)

Lemma num_le_ltb_false (x y : number) : num_le y x -> (x <? y) = false.
Proof.
  intros H. destruct (num_le_not_NaN _ _ H) as [Hy Hx].
  now apply num_ltb_false_le.
Qed.

(** X12.  On a whole number of seconds below 2^53 in absolute value, where
    the quotients of Number are the integer quotients once floored, the
    three tiers are the integer quotients and remainders, printed in
    decimal. *)
Lemma formatDuration_integer_seconds (z : Z) :
  (- 9007199254740992 < z < 9007199254740992)%Z ->
  ((z < 60)%Z -> formatDuration (numZ z) = (Z_toString z ++ "s")%string) /\
  ((60 <= z < 3600)%Z ->
   formatDuration (numZ z)
   = (Z_toString (z / 60) ++ "min " ++ Z_toString (z mod 60) ++ "s")%string) /\
  ((3600 <= z)%Z ->
   formatDuration (numZ z)
   = (Z_toString (z / 3600) ++ "h " ++ Z_toString (z mod 3600 / 60)
      ++ "min")%string).
Proof.
  intros _. unfold formatDuration. rewrite !numZ_ltb. split; [|split].
  - intros H. rewrite (proj2 (Z.ltb_lt _ _) H), Math_round_numZ. reflexivity.
  - intros [H1 H2].
    rewrite (proj2 (Z.ltb_ge _ _) H1), (proj2 (Z.ltb_lt _ _) H2).
    rewrite Math_floor_div by discriminate.
    rewrite num_rem_numZ by lia. rewrite Math_round_numZ. reflexivity.
  - intros H.
    rewrite (proj2 (Z.ltb_ge z 60)) by lia.
    rewrite (proj2 (Z.ltb_ge _ _) H).
    rewrite Math_floor_div by discriminate.
    rewrite num_rem_numZ by lia.
    rewrite Math_floor_div by discriminate. reflexivity.
Qed.

(** C8.  [formatDuration s] is [round(s)] followed by "s" when [s < 60];
    [floor(s / 60)], "min ", [round(s % 60)] and "s" when
    [60 <= s < 3600]; [floor(s / 3600)], "h ", [floor((s % 3600) / 60)] and
    "min" when [s >= 3600].  On 45, 125 and 3725 seconds it is "45s",
    "2min 5s" and "1h 2min". *)
Theorem formatDuration_tiers (s : number) :
  (num_lt s (numZ 60) ->
   formatDuration s = (toString (Math_round s) ++ "s")%string) /\
  (num_le (numZ 60) s -> num_lt s (numZ 3600) ->
   formatDuration s
   = (toString (Math_floor (s / numZ 60)) ++ "min "
      ++ toString (Math_round (num_rem s (numZ 60))) ++ "s")%string) /\
  (num_le (numZ 3600) s ->
   formatDuration s
   = (toString (Math_floor (s / numZ 3600)) ++ "h "
      ++ toString (Math_floor (num_rem s (numZ 3600) / numZ 60))
      ++ "min")%string) /\
  formatDuration (numZ 45) = "45s" /\
  formatDuration (numZ 125) = "2min 5s" /\
  formatDuration (numZ 3725) = "1h 2min".
Proof.
  split; [|split; [|split; [|repeat split; reflexivity]]].
  - unfold num_lt, formatDuration. intros H. now rewrite H.
  - unfold num_lt, formatDuration. intros Hge Hlt.
    now rewrite (num_le_ltb_false _ _ Hge), Hlt.
  - unfold formatDuration. intros Hge.
    assert (H60 : num_le (numZ 60) s).
    { apply num_le_trans with (numZ 3600); [|assumption].
      vm_compute. discriminate. }
    now rewrite (num_le_ltb_false _ _ H60), (num_le_ltb_false _ _ Hge).
Qed.

Lemma formatDuration_tiers_witness :
  formatDuration (numQ (595 # 10)) = "60s"
  /\ formatDuration (numQ (1197 # 10)) = "1min 60s"
  /\ formatDuration (numZ 7384) = "2h 3min".
Proof.
  split; [|split].
  - destruct (formatDuration_tiers (numQ (595 # 10))) as (H & _).
    rewrite H; reflexivity.
  - destruct (formatDuration_tiers (numQ (1197 # 10))) as (_ & H & _).
    rewrite H; [reflexivity | vm_compute; discriminate | reflexivity].
  - destruct (formatDuration_tiers (numZ 7384)) as (_ & _ & H & _).
    rewrite H; [reflexivity | vm_compute; discriminate].
Defined.

(** ** Distribution statistics *)

Lemma Math_floor_percentile (n : Z) :
  Math_floor (numZ n * numQ (95 # 100)) = IntZ (n * 95 / 100).
Proof.
  unfold numZ, numQ. cbn [num_mul Math_floor]. f_equal.
  assert (E : (this (Q2Qc (inject_Z n) * Q2Qc (95 # 100))%Qc
               == inject_Z (n * 95) / inject_Z 100)%Q).
  { cbn [this Qcmult Q2Qc]. rewrite !Qred_correct.
    rewrite inject_Z_mult. rewrite (Qmake_Qdiv 95 100). field. }
  rewrite (Qfloor_comp _ _ E). symmetry. apply Zdiv_Qdiv.
Qed.

Lemma num_strict_eqb_numZ (a b : Z) : num_strict_eqb (numZ a) (numZ b) = (a =? b)%Z.
Proof. unfold numZ. cbn [num_strict_eqb num_eqb]. apply Qc_eq_bool_numZ. Qed.

Lemma num_le_refl (x : number) : x <> NaN -> num_le x x.
Proof. destruct x; cbn; try tauto. intros _. apply Qcle_refl. Qed.

Lemma StronglySorted_nth (l : list number) (i j : nat) :
  StronglySorted num_le l -> Forall (fun v => v <> NaN) l ->
  (i <= j)%nat -> (j < List.length l)%nat ->
  num_le (nth i l num0) (nth j l num0).
Proof.
  intros Hs. revert i j. induction Hs as [|x l Hs IH Hx]; intros i j Hnan Hij Hj.
  - cbn in Hj. lia.
  - inversion Hnan as [|? ? Hxn Hl]; subst.
    destruct i as [|i], j as [|j]; cbn [nth]; cbn [List.length] in Hj.
    + now apply num_le_refl.
    + rewrite Forall_forall in Hx. apply Hx. apply nth_In. lia.
    + lia.
    + apply IH; [assumption|lia|lia].
Qed.

Lemma nth_error_nth_or_zero (l : list number) (i : nat) :
  Forall (fun v => v <> NaN) l -> (i < List.length l)%nat ->
  or_zero (nth_error l i) = nth i l num0.
Proof.
  intros Hnan Hi. rewrite (nth_error_nth' l num0 Hi).
  apply or_zero_Some. rewrite Forall_forall in Hnan. apply Hnan.
  now apply nth_In.
Qed.

Lemma fold_left_add_sum (values : list number) :
  fold_left (fun sum val => sum + val) values num0 = num_sum values.
Proof.
  rewrite (fold_left_num_sum (fun v => v)). now rewrite map_id.
Qed.

Lemma Z_of_nat_div_to_nat (n m : nat) :
  Z.to_nat (Z.of_nat n / Z.of_nat m) = (n / m)%nat.
Proof. rewrite <- Nat2Z.inj_div. apply Nat2Z.id. Qed.

Lemma percentile_index_lt (n : nat) : (0 < n)%nat -> (n * 95 / 100 < n)%nat.
Proof. intros Hn. apply Nat.Div0.div_lt_upper_bound; lia. Qed.

(** The median branch: the middle of an array of non-NaN numbers. *)
Lemma median_branch (sorted : list number) :
  sorted <> [] -> Forall (fun v => v <> NaN) sorted ->
  let len := num_of_nat (List.length sorted) in
  (if num_strict_eqb (num_rem len (numZ 2)) num0
   then (or_zero (Array_get sorted (len / numZ 2 - numZ 1))
         + or_zero (Array_get sorted (len / numZ 2))) / numZ 2
   else or_zero
          (Array_get sorted (num_of_integral (Math_floor (len / numZ 2)))))
  = median_of sorted.
Proof.
  intros Hne Hnan len. unfold median_of.
  set (n := List.length sorted) in *.
  assert (Hn : (0 < n)%nat).
  { unfold n. destruct sorted; [congruence | cbn; lia]. }
  unfold len, num_of_nat.
  rewrite num_rem_numZ by lia.
  change num0 with (numZ 0). rewrite num_strict_eqb_numZ.
  destruct (Nat.even n) eqn:E.
  - apply Nat.even_spec in E. destruct E as [k Hk].
    assert (Hmod : (Z.of_nat n mod 2 = 0)%Z).
    { rewrite Hk, Nat2Z.inj_mul, Z.mul_comm. apply Z.mod_mul. discriminate. }
    rewrite Hmod. cbn [Z.eqb].
    assert (Hdiv : numZ (Z.of_nat n) / numZ 2 = numZ (Z.of_nat k)).
    { rewrite <- (numZ_div_exact (Z.of_nat k) (b := 2)) by discriminate.
      do 2 f_equal. lia. }
    rewrite Hdiv, numZ_sub, !Array_get_numZ by lia.
    assert (Hk2 : (n / 2 = k)%nat).
    { rewrite Hk, Nat.mul_comm. apply Nat.div_mul. discriminate. }
    rewrite Hk2.
    replace (Z.to_nat (Z.of_nat k - 1)) with (k - 1)%nat by lia.
    rewrite Nat2Z.id.
    rewrite !nth_error_nth_or_zero by (assumption || (fold n; lia)).
    reflexivity.
  - assert (Hodd : Nat.odd n = true).
    { rewrite <- Nat.negb_even, E. reflexivity. }
    apply Nat.odd_spec in Hodd. destruct Hodd as [k Hk].
    assert (Hmod : (Z.of_nat n mod 2 = 1)%Z).
    { rewrite Hk. replace (Z.of_nat (2 * k + 1)) with (1 + Z.of_nat k * 2)%Z by lia.
      rewrite Z.mod_add by discriminate. reflexivity. }
    rewrite Hmod. cbn [Z.eqb].
    rewrite Math_floor_div by discriminate. cbn [num_of_integral].
    rewrite Array_get_numZ by (apply Z.div_pos; lia).
    change 2%Z with (Z.of_nat 2). rewrite Z_of_nat_div_to_nat.
    apply nth_error_nth_or_zero; [assumption|].
    fold n. apply Nat.div_lt; lia.
Qed.

Section DistributionFacts.
Variable Math_sqrt : number -> number.

(** The fields of the result on a non-empty array without NaN, in terms
    of the sorted copy. *)
Lemma calculateDistributionStats_fields (values : list number) :
  values <> [] -> Forall (fun v => v <> NaN) values ->
  let sorted := Array_sort (fun a b => a - b) values in
  let n := List.length values in
  calculateDistributionStats Math_sqrt values
  = {| DistributionStats.mean := num_sum values / num_of_nat n;
       DistributionStats.median := median_of sorted;
       DistributionStats.min := nth 0 sorted num0;
       DistributionStats.max := nth (n - 1) sorted num0;
       DistributionStats.stdDev := Math_sqrt (population_variance values);
       DistributionStats.percentile95 := nth (n * 95 / 100) sorted num0 |}.
Proof.
  intros Hne Hnan sorted n.
  assert (Hperm : Permutation values sorted)
    by apply (Array_sort_perm (fun v => v)).
  assert (Hlen : List.length sorted = n)
    by (symmetry; now apply Permutation_length).
  assert (Hsn : Forall (fun v => v <> NaN) sorted)
    by now apply (Permutation_Forall Hperm).
  assert (Hn : (0 < n)%nat).
  { unfold n. destruct values; [congruence | cbn; lia]. }
  assert (Hsne : sorted <> []).
  { intros E. rewrite E in Hlen. cbn in Hlen. lia. }
  unfold calculateDistributionStats.
  destruct (List.length values =? 0)%nat eqn:E0.
  { apply Nat.eqb_eq in E0. fold n in E0. lia. }
  fold sorted. unfold statsFromSorted. rewrite (median_branch Hsne Hsn).
  rewrite fold_left_add_sum.
  rewrite (fold_left_num_sum
             (fun val => (val - num_sum values / num_of_nat (List.length values))
                         * (val - num_sum values / num_of_nat (List.length values)))).
  rewrite Hlen. fold n.
  rewrite (Math_floor_percentile (Z.of_nat n) : Math_floor (num_of_nat n * _) = _).
  cbn [num_of_integral].
  rewrite (numZ_sub (Z.of_nat n) 1 : num_of_nat n - _ = _).
  change num0 with (numZ 0) at 1.
  rewrite !Array_get_numZ by (try apply Z.div_pos; lia).
  replace (Z.to_nat (Z.of_nat n - 1)) with (n - 1)%nat by lia.
  change (Z.to_nat 0) with 0%nat.
  replace (Z.to_nat (Z.of_nat n * 95 / 100)) with (n * 95 / 100)%nat.
  2:{ change 95%Z with (Z.of_nat 95). change 100%Z with (Z.of_nat 100).
      rewrite <- Nat2Z.inj_mul. now rewrite Z_of_nat_div_to_nat. }
  rewrite !nth_error_nth_or_zero
    by (try assumption; rewrite Hlen; try apply percentile_index_lt; lia).
  reflexivity.
Qed.
End DistributionFacts.

(** C5, as the code has it.  On the empty array every field is 0.  On a
    non-empty array without NaN, with [sorted] its ascending
    rearrangement: [mean] is the sum over the length; [median] is the mean
    of the two middle elements of [sorted] for an even length and its
    middle element for an odd one; [min] and [max] are the first and last
    elements of [sorted], the least and the greatest value; [stdDev] is
    [Math.sqrt] of the population variance (the squared deviations summed
    and divided by N); [percentile95] is the element of [sorted] at index
    [floor(0.95 * N)].  On [5] the fields are 5, 5, 5, 5, 0 (the square
    root of 0 being 0) and 5. *)
Theorem calculateDistributionStats_spec
    (Math_sqrt : number -> number) (values : list number) :
  calculateDistributionStats Math_sqrt [] = zeroStats /\
  (Math_sqrt num0 = num0 ->
   calculateDistributionStats Math_sqrt [numZ 5] = statsOfFive) /\
  (values <> [] -> Forall (fun v => v <> NaN) values ->
   let d := calculateDistributionStats Math_sqrt values in
   let N := List.length values in
   exists sorted : list number,
     Permutation values sorted /\ Sorted num_le sorted /\
     DistributionStats.mean d = num_sum values / num_of_nat N /\
     DistributionStats.median d = median_of sorted /\
     DistributionStats.min d = nth 0 sorted num0 /\
     DistributionStats.max d = nth (N - 1) sorted num0 /\
     In (DistributionStats.min d) values /\
     In (DistributionStats.max d) values /\
     (forall v, In v values ->
                num_le (DistributionStats.min d) v
                /\ num_le v (DistributionStats.max d)) /\
     DistributionStats.stdDev d = Math_sqrt (population_variance values) /\
     DistributionStats.percentile95 d = nth (N * 95 / 100) sorted num0).
Proof.
  split; [reflexivity|]. split.
  - intros Hsqrt.
    rewrite calculateDistributionStats_fields
      by (try discriminate; repeat constructor; discriminate).
    unfold statsOfFive.
    f_equal; try num_eq.
    transitivity (Math_sqrt num0); [f_equal; num_eq | exact Hsqrt].
  - intros Hne Hnan d N.
    set (sorted := Array_sort (fun a b => a - b) values).
    assert (Hperm : Permutation values sorted)
      by apply (Array_sort_perm (fun v => v)).
    assert (Hsorted : Sorted num_le sorted)
      by now apply (Array_sort_sorted (fun v => v)).
    assert (Hlen : List.length sorted = N)
      by (symmetry; now apply Permutation_length).
    assert (Hsn : Forall (fun v => v <> NaN) sorted)
      by now apply (Permutation_Forall Hperm).
    assert (HN : (0 < N)%nat).
    { unfold N. destruct values; [congruence | cbn; lia]. }
    assert (Hss : StronglySorted num_le sorted).
    { apply Sorted_StronglySorted; [|assumption].
      intros x y z. apply num_le_trans. }
    unfold d. rewrite (calculateDistributionStats_fields Math_sqrt Hne Hnan).
    fold sorted. fold N.
    cbn [DistributionStats.mean DistributionStats.median DistributionStats.min
         DistributionStats.max DistributionStats.stdDev
         DistributionStats.percentile95].
    exists sorted. repeat (split; [first [assumption | reflexivity]|]).
    split; [|split; [|split; [|split; reflexivity]]].
    + apply (Permutation_in _ (Permutation_sym Hperm)). apply nth_In. lia.
    + apply (Permutation_in _ (Permutation_sym Hperm)). apply nth_In. lia.
    + intros v Hv. apply (Permutation_in _ Hperm) in Hv.
      destruct (In_nth _ _ num0 Hv) as (j & Hj & <-).
      split; apply StronglySorted_nth; try assumption; lia.
Qed.

Lemma calculateDistributionStats_spec_witness :
  calculateDistributionStats sqrt_lower [numZ 5] = statsOfFive
  /\ exists sorted : list number,
       Permutation [numZ 3; numZ 1; numZ 4; numZ 2] sorted
       /\ Sorted num_le sorted
       /\ DistributionStats.median
            (calculateDistributionStats sqrt_lower
               [numZ 3; numZ 1; numZ 4; numZ 2])
          = median_of sorted.
Proof.
  destruct (calculateDistributionStats_spec
              sqrt_lower [numZ 3; numZ 1; numZ 4; numZ 2]) as (_ & H5 & H).
  split.
  - apply H5. num_eq.
  - destruct H as (sorted & Hp & Hs & _ & Hm & _).
    + discriminate.
    + repeat constructor; discriminate.
    + exists sorted. repeat split; assumption.
Defined.

(** C5 as stated fails on NaN: the sorted copy of [NaN] is [NaN], the
    index [floor(0.95 * 1)] is 0, and [percentile95] (like [min], [max]
    and [median]) is 0, not the sorted value NaN. *)
Lemma calculateDistributionStats_NaN_counterexample :
  let d := calculateDistributionStats sqrt_lower [NaN] in
  let sorted := Array_sort (fun a b => a - b) [NaN] in
  sorted = [NaN]
  /\ Math_floor (num_of_nat 1 * numQ (95 # 100)) = IntZ 0
  /\ nth 0 sorted num0 = NaN
  /\ DistributionStats.percentile95 d = num0
  /\ DistributionStats.min d = num0
  /\ DistributionStats.percentile95 d <> nth 0 sorted num0.
Proof.
  cbv zeta. repeat split; try num_eq.
  intros H. vm_compute in H. discriminate H.
Qed.

(** ** The derivations leave their inputs as they are *)

Lemma preserved_app (h ext : heap) : preserved h (h ++ ext).
Proof.
  intros r o H. rewrite nth_error_app1; [assumption|].
  apply nth_error_Some. congruence.
Qed.

Lemma preserved_refl (h : heap) : preserved h h.
Proof. intros r o H. exact H. Qed.

Lemma preserved_holds_records {A : Type} (inj : A -> object)
    (h h' : heap) (arr : ref) (vs : list A) :
  preserved h h' -> holds_records inj h arr vs -> holds_records inj h' arr vs.
Proof.
  intros Hp (refs & Harr & Hall). exists refs. split; [now apply Hp|].
  clear Harr. induction Hall as [|r v refs vs Hr Hall IH]; constructor.
  - now apply Hp.
  - exact IH.
Qed.

Lemma load_numbers_holds (h : heap) (arr : ref) (vs : list number) :
  holds_numbers h arr vs -> load_numbers arr h = Some (vs, h).
Proof.
  unfold holds_numbers, load_numbers, bind, load. intros H. now rewrite H.
Qed.

Lemma load_recipe_holds (h : heap) (r : ref) (v : RecipeRunStats) :
  nth_error h r = Some (ObjRecipeRunStats v) -> load_recipe r h = Some (v, h).
Proof. unfold load_recipe, bind, load. intros H. now rewrite H. Qed.

Lemma load_result_holds (h : heap) (r : ref) (v : SourceFileResults) :
  nth_error h r = Some (ObjSourceFileResults v) -> load_result r h = Some (v, h).
Proof. unfold load_result, bind, load. intros H. now rewrite H. Qed.

Section LoadRecords.
Variable A : Type.
Variable inj : A -> object.
Variable get : ref -> M A.
Hypothesis get_holds :
  forall (h : heap) (r : ref) (v : A),
    nth_error h r = Some (inj v) -> get r h = Some (v, h).

Lemma load_each_holds (h : heap) (refs : list ref) (vs : list A) :
  Forall2 (fun r v => nth_error h r = Some (inj v)) refs vs ->
  load_each get refs h = Some (vs, h).
Proof.
  induction 1 as [|r v refs vs Hr Hall IH]; cbn [load_each]; [reflexivity|].
  unfold bind. rewrite (get_holds _ _ Hr), IH. reflexivity.
Qed.

(** Reading an array of records gives the records and leaves the store. *)
Lemma load_records_holds (h : heap) (arr : ref) (vs : list A) :
  holds_records inj h arr vs -> load_records get arr h = Some (vs, h).
Proof.
  intros (refs & Harr & Hall). unfold load_records, bind, load.
  rewrite Harr. now apply load_each_holds.
Qed.
End LoadRecords.

(** [sort] writes the sorted elements over its receiver. *)
Lemma sort_numbers_in_place (h : heap) (arr : ref) (vs : list number)
    (compareFn : number -> number -> number) :
  holds_numbers h arr vs ->
  exists h' : heap,
    sort_numbers arr compareFn h = Some (tt, h')
    /\ holds_numbers h' arr (Array_sort compareFn vs)
    /\ List.length h' = List.length h.
Proof.
  intros H. unfold sort_numbers, bind. rewrite (load_numbers_holds H).
  unfold store, holds_numbers in *.
  assert (Hlt : (arr < List.length h)%nat)
    by (apply nth_error_Some; congruence).
  rewrite (proj2 (Nat.ltb_lt _ _) Hlt). eexists. split; [reflexivity|].
  split.
  - rewrite nth_error_app2 by (rewrite length_firstn; lia).
    rewrite length_firstn, Nat.min_l by lia. now rewrite Nat.sub_diag.
  - rewrite length_app, length_firstn. cbn [List.length].
    rewrite length_skipn. lia.
Qed.

(** Sorting the sample array itself would change it in the store. *)
Lemma sort_numbers_overwrites_sample :
  exists h' : heap,
    sort_numbers 4%nat (fun a b => a - b) sample_heap = Some (tt, h')
    /\ holds_numbers h' 4%nat [numZ 1; numZ 2; numZ 3]
    /\ ~ preserved sample_heap h'.
Proof.
  destruct (@sort_numbers_in_place sample_heap 4%nat
              [numZ 3; numZ 1; numZ 2] (fun a b => a - b) eq_refl)
    as (h' & E & Hsorted & _).
  exists h'. split; [exact E|].
  assert (Hs : Array_sort (fun a b => a - b) [numZ 3; numZ 1; numZ 2]
               = [numZ 1; numZ 2; numZ 3]) by num_eq.
  rewrite Hs in Hsorted. split; [exact Hsorted|].
  intros Hp. specialize (Hp 4%nat _ eq_refl).
  unfold holds_numbers in Hsorted. rewrite Hsorted in Hp.
  discriminate Hp.
Qed.

(** On the store, [calculateDistributionStats] computes what it computes
    on the elements, and only adds the sorted copy to the store. *)
Lemma calculateDistributionStats_ref_run
    (Math_sqrt : number -> number) (h : heap) (values : ref) (vs : list number) :
  holds_numbers h values vs ->
  exists ext : heap,
    calculateDistributionStats_ref Math_sqrt values h
    = Some (calculateDistributionStats Math_sqrt vs, h ++ ext).
Proof.
  intros H. unfold calculateDistributionStats_ref, calculateDistributionStats.
  unfold bind at 1. rewrite (load_numbers_holds H).
  destruct (List.length vs =? 0)%nat.
  { exists []. now rewrite app_nil_r. }
  unfold bind at 1. unfold spread_numbers, bind at 1.
  rewrite (load_numbers_holds H). unfold alloc.
  assert (Hcopy : holds_numbers (h ++ [ObjNumbers vs]) (List.length h) vs).
  { unfold holds_numbers. rewrite nth_error_app2 by lia.
    now rewrite Nat.sub_diag. }
  unfold bind at 1. unfold sort_numbers, bind at 1.
  rewrite (load_numbers_holds Hcopy). unfold store.
  rewrite length_app. cbn [List.length].
  rewrite (proj2 (Nat.ltb_lt _ _)) by lia.
  rewrite firstn_app, firstn_all, Nat.sub_diag. cbn [firstn].
  rewrite app_nil_r.
  rewrite skipn_all2 by (rewrite length_app; cbn [List.length]; lia).
  exists [ObjNumbers (Array_sort (fun a b => a - b) vs)].
  unfold bind, load_numbers, bind, load.
  rewrite nth_error_app2 by lia. rewrite Nat.sub_diag. reflexivity.
Qed.

(** C9.  With the input arrays and their records in the store, each of
    the five derivations returns (it runs into no type error) what it
    computes on the arrays' contents, and every object the store held
    before the call, the input arrays and their records among them, is
    unchanged after it; [calculateDistributionStats] sorts a copy it has
    allocated. *)
Theorem derivations_preserve_inputs
    (Math_sqrt : number -> number) (h : heap)
    (recipeStats sourceResults values : ref)
    (rs : list RecipeRunStats) (srs : list SourceFileResults)
    (vs : list number) :
  holds_records ObjRecipeRunStats h recipeStats rs ->
  holds_records ObjSourceFileResults h sourceResults srs ->
  holds_numbers h values vs ->
  (exists h', calculateROIMetrics_ref recipeStats sourceResults h
              = Some (calculateROIMetrics rs srs, h')
              /\ preserved h h') /\
  (exists h', enrichRecipeStats_ref recipeStats sourceResults h
              = Some (enrichRecipeStats rs srs, h')
              /\ preserved h h') /\
  (exists h', aggregateByChangeType_ref recipeStats sourceResults h
              = Some (aggregateByChangeType rs srs, h')
              /\ preserved h h') /\
  (exists h', calculateTimeSeries_ref sourceResults h
              = Some (calculateTimeSeries srs, h')
              /\ preserved h h') /\
  (exists h', calculateDistributionStats_ref Math_sqrt values h
              = Some (calculateDistributionStats Math_sqrt vs, h')
              /\ preserved h h') /\
  (forall h', preserved h h' ->
              holds_records ObjRecipeRunStats h' recipeStats rs
              /\ holds_records ObjSourceFileResults h' sourceResults srs
              /\ holds_numbers h' values vs).
Proof.
  intros Hrs Hsrs Hvs.
  pose proof (load_records_holds load_recipe load_recipe_holds Hrs) as Lrs.
  pose proof (load_records_holds load_result load_result_holds Hsrs) as Lsrs.
  split; [|split; [|split; [|split; [|split]]]].
  - exists h. split; [|apply preserved_refl].
    unfold calculateROIMetrics_ref, bind. now rewrite Lrs, Lsrs.
  - exists h. split; [|apply preserved_refl].
    unfold enrichRecipeStats_ref, bind. now rewrite Lrs, Lsrs.
  - exists h. split; [|apply preserved_refl].
    unfold aggregateByChangeType_ref, bind. now rewrite Lsrs, Lrs.
  - exists h. split; [|apply preserved_refl].
    unfold calculateTimeSeries_ref, bind. now rewrite Lsrs.
  - destruct (calculateDistributionStats_ref_run Math_sqrt Hvs) as [ext E].
    exists (h ++ ext). split; [exact E | apply preserved_app].
  - intros h' Hp. split; [|split].
    + exact (preserved_holds_records Hp Hrs).
    + exact (preserved_holds_records Hp Hsrs).
    + apply Hp. exact Hvs.
Qed.

Lemma derivations_preserve_inputs_witness :
  exists h' : heap,
    calculateDistributionStats_ref sqrt_lower 4%nat sample_heap
    = Some (calculateDistributionStats sqrt_lower [numZ 3; numZ 1; numZ 2], h')
    /\ holds_numbers h' 4%nat [numZ 3; numZ 1; numZ 2]
    /\ holds_records ObjRecipeRunStats h' 2%nat [run_3s].
Proof.
  destruct (@derivations_preserve_inputs sqrt_lower sample_heap
              2%nat 3%nat 4%nat [run_3s] [change_6s] [numZ 3; numZ 1; numZ 2])
    as (_ & _ & _ & _ & (h' & E & Hp) & Hkeep).
  - exists [0%nat]. split; [reflexivity|]. repeat constructor.
  - exists [1%nat]. split; [reflexivity|]. repeat constructor.
  - reflexivity.
  - exists h'. split; [exact E|]. destruct (Hkeep h' Hp) as (Hr & _ & Hn).
    split; assumption.
Defined.

(** ** Unit conversion *)

Lemma Qc_pos_numZ (z : Z) : (0 < z)%Z -> (Qc_zero < Q2Qc (inject_Z z))%Qc.
Proof.
  intros Hz. unfold Qclt. rewrite this_numZ.
  change (this (Q2Qc 0)) with (inject_Z 0). now rewrite <- Zlt_Qlt.
Qed.

Lemma Qc_le_numZ (a b : Z) :
  (a <= b)%Z -> (Q2Qc (inject_Z a) <= Q2Qc (inject_Z b))%Qc.
Proof. intros H. unfold Qcle. rewrite !this_numZ. now rewrite <- Zle_Qle. Qed.

Lemma Qc_div_le_compat (a b c : Qc) :
  (Qc_zero < c)%Qc -> (a <= b)%Qc -> (a / c <= b / c)%Qc.
Proof.
  intros Hc H.
  assert (Hc0 : c <> Qc_zero) by (intros ->; now apply Qclt_not_eq in Hc).
  apply (Qcmult_lt_0_le_reg_r _ _ c Hc).
  replace (a / c * c)%Qc with a by (field; assumption).
  replace (b / c * c)%Qc with b by (field; assumption).
  exact H.
Qed.

Lemma Qc_div_le_divisor (a c d : Qc) :
  (Qc_zero <= a)%Qc -> (Qc_zero < c)%Qc -> (c <= d)%Qc -> (a / d <= a / c)%Qc.
Proof.
  intros Ha Hc Hcd.
  assert (Hd : (Qc_zero < d)%Qc) by (eapply Qclt_le_trans; eassumption).
  assert (Hc0 : c <> Qc_zero) by (intros ->; now apply Qclt_not_eq in Hc).
  assert (Hd0 : d <> Qc_zero) by (intros ->; now apply Qclt_not_eq in Hd).
  assert (Hcd0 : (Qc_zero < c * d)%Qc).
  { replace Qc_zero with (Qc_zero * d)%Qc by ring.
    now apply Qcmult_lt_compat_r. }
  apply (Qcmult_lt_0_le_reg_r _ _ (c * d)%Qc Hcd0).
  replace (a / d * (c * d))%Qc with (c * a)%Qc by (field; assumption).
  replace (a / c * (c * d))%Qc with (d * a)%Qc by (field; assumption).
  now apply Qcmult_le_compat_r.
Qed.

(** Dividing by a positive number keeps the order. *)
Lemma num_div_le_compat (x y : number) (c : Qc) :
  (Qc_zero < c)%Qc -> num_le x y -> num_le (x / Fin c) (y / Fin c).
Proof.
  intros Hc H. rewrite !(num_div_pos _ Hc).
  destruct x, y; cbn [num_le] in *; try tauto.
  now apply Qc_div_le_compat.
Qed.

(** Of a number that is not negative, the quotient by the greater of two
    positive numbers is the smaller. *)
Lemma num_div_le_divisor (x : number) (c d : Qc) :
  (Qc_zero < c)%Qc -> (c <= d)%Qc -> num_le num0 x ->
  num_le (x / Fin d) (x / Fin c).
Proof.
  intros Hc Hcd Hx.
  assert (Hd : (Qc_zero < d)%Qc) by (eapply Qclt_le_trans; eassumption).
  rewrite (num_div_pos _ Hc), (num_div_pos _ Hd).
  destruct x; cbn [num_le] in *; try tauto.
  now apply Qc_div_le_divisor.
Qed.

Lemma num_div_le_self (x : number) (c : Z) :
  (1 <= c)%Z -> num_le num0 x -> num_le (x / numZ c) x.
Proof.
  intros Hc Hx. unfold numZ.
  assert (Hpos : (Qc_zero < Q2Qc (inject_Z c))%Qc) by (apply Qc_pos_numZ; lia).
  rewrite (num_div_pos _ Hpos).
  destruct x as [a| | |]; cbn [num_le] in *; try tauto.
  replace a with (a / Q2Qc (inject_Z 1))%Qc at 2.
  - apply Qc_div_le_divisor; [exact Hx| |now apply Qc_le_numZ].
    now apply Qc_pos_numZ.
  - change (Q2Qc (inject_Z 1)) with 1%Qc. field. discriminate.
Qed.

(** X1.  [convertTimeUnit] keeps the order of durations in every unit, and
    the units are in order: a duration that is not negative is, in hours, no
    greater a number than in minutes, in minutes than in seconds, in seconds
    than in milliseconds, in milliseconds than in nanoseconds. *)
Theorem convertTimeUnit_ordered (x y : number) :
  (num_le x y ->
   forall targetUnit,
     num_le (convertTimeUnit x targetUnit) (convertTimeUnit y targetUnit))
  /\ (num_le num0 x ->
      num_le (convertTimeUnit x TimeUnit.h) (convertTimeUnit x TimeUnit.min)
      /\ num_le (convertTimeUnit x TimeUnit.min) (convertTimeUnit x TimeUnit.s)
      /\ num_le (convertTimeUnit x TimeUnit.s) (convertTimeUnit x TimeUnit.ms)
      /\ num_le (convertTimeUnit x TimeUnit.ms) (convertTimeUnit x TimeUnit.ns)).
Proof.
  split.
  - intros H targetUnit.
    destruct targetUnit; cbn [convertTimeUnit]; [exact H| | | |];
      unfold numZ; apply num_div_le_compat; try assumption;
      apply Qc_pos_numZ; lia.
  - intros Hx. cbn [convertTimeUnit]. unfold numZ at 1 2 3 4 5 6.
    split; [|split; [|split]].
    + apply num_div_le_divisor;
        [apply Qc_pos_numZ; lia | apply Qc_le_numZ; lia | exact Hx].
    + apply num_div_le_divisor;
        [apply Qc_pos_numZ; lia | apply Qc_le_numZ; lia | exact Hx].
    + apply num_div_le_divisor;
        [apply Qc_pos_numZ; lia | apply Qc_le_numZ; lia | exact Hx].
    + apply num_div_le_self; [lia | exact Hx].
Qed.

Lemma convertTimeUnit_ordered_witness :
  num_le (convertTimeUnit (numZ 7200000000000) TimeUnit.h)
         (convertTimeUnit (numZ 7200000000000) TimeUnit.min)
  /\ num_le (convertTimeUnit (numZ 1) TimeUnit.ms)
            (convertTimeUnit (numZ 2) TimeUnit.ms).
Proof.
  destruct (convertTimeUnit_ordered (numZ 7200000000000) (numZ 1)) as [_ H].
  destruct (convertTimeUnit_ordered (numZ 1) (numZ 2)) as [Hmono _].
  split.
  - apply H. vm_compute. discriminate.
  - apply Hmono. vm_compute. discriminate.
Defined.

(** ** Maps built by successive [set] *)

Section MapBuild.
Variables A K V : Type.
Variable eqb : K -> K -> bool.
Variable key : A -> K.
Variable val : A -> V.

Lemma Map_set_keys_Set_add (m : list (K * V)) (k : K) (v : V) :
  map fst (Map_set eqb m k v) = Set_add eqb (map fst m) k.
Proof.
  unfold Set_add, Set_has. induction m as [|[k0 v0] m IH]; [reflexivity|].
  cbn [Map_set map fst existsb]. destruct (eqb k k0); cbn [orb map fst].
  - reflexivity.
  - rewrite IH. now destruct (existsb (eqb k) (map fst m)).
Qed.

(** The keys of the map are the distinct keys set, in the order of their
    first [set]. *)
Lemma fold_Map_set_keys (l : list A) (m0 : list (K * V)) :
  map fst (fold_left (fun m x => Map_set eqb m (key x) (val x)) l m0)
  = fold_left (Set_add eqb) (map key l) (map fst m0).
Proof.
  revert m0. induction l as [|x l IH]; intros m0; [reflexivity|].
  cbn [fold_left map]. now rewrite IH, Map_set_keys_Set_add.
Qed.

Hypothesis eqb_spec : forall x y : K, eqb x y = true <-> x = y.

(** A key holds the value of its last [set]. *)
Lemma fold_Map_set_get (l : list A) (m0 : list (K * V)) (k : K) :
  Map_get eqb (fold_left (fun m x => Map_set eqb m (key x) (val x)) l m0) k
  = match find_last (fun x => eqb k (key x)) l with
    | Some x => Some (val x)
    | None => Map_get eqb m0 k
    end.
Proof.
  induction l as [|x l IH] using rev_ind; [reflexivity|].
  rewrite fold_left_app. cbn [fold_left].
  rewrite (Map_get_set eqb eqb_spec). unfold find_last in *.
  rewrite rev_app_distr. cbn [rev app find].
  destruct (eqb k (key x)); [reflexivity | exact IH].
Qed.

(** Distinct keys make one entry each, in order. *)
Lemma fold_Map_set_distinct (l : list A) (m0 : list (K * V)) :
  NoDup (map fst m0 ++ map key l) ->
  fold_left (fun m x => Map_set eqb m (key x) (val x)) l m0
  = m0 ++ map (fun x => (key x, val x)) l.
Proof.
  revert m0. induction l as [|x l IH]; intros m0 Hnd; cbn [fold_left map].
  - now rewrite app_nil_r.
  - cbn [map] in Hnd.
    rewrite (Map_set_absent eqb eqb_spec).
    + rewrite IH.
      * now rewrite <- app_assoc.
      * rewrite map_app. cbn [map fst]. now rewrite <- app_assoc.
    + apply NoDup_remove_2 in Hnd. intros H. apply Hnd.
      apply in_or_app. now left.
Qed.
End MapBuild.

(** ** Recipe hierarchy *)

Lemma enrichRecipeStats_recipes
    (recipeStats : list RecipeRunStats) (sourceResults : list SourceFileResults) :
  map recipeOf (enrichRecipeStats recipeStats sourceResults)
  = map recipe recipeStats.
Proof. unfold enrichRecipeStats. rewrite map_map. reflexivity. Qed.

Lemma buildRecipeHierarchy_fold
    (recipeStats : list RecipeRunStats) (sourceResults : list SourceFileResults) :
  buildRecipeHierarchy recipeStats sourceResults
  = map snd (fold_left (fun m x => Map_set String.eqb m (recipeOf x) (rootNode x))
                       (enrichRecipeStats recipeStats sourceResults) []).
Proof. reflexivity. Qed.

(** X5.  [buildRecipeHierarchy] makes one node per distinct recipe name, in
    the order of first appearance among the recipe runs. Every node is a
    root without children, at depth 0, and carries the metrics of the last
    recipe run of its name. When no name is repeated the nodes carry the
    entries of [enrichRecipeStats], one each and in order. *)
Theorem buildRecipeHierarchy_nodes
    (recipeStats : list RecipeRunStats) (sourceResults : list SourceFileResults) :
  let nodes := buildRecipeHierarchy recipeStats sourceResults in
  map RecipeHierarchy.name nodes = Set_from String.eqb (map recipe recipeStats)
  /\ NoDup (map RecipeHierarchy.name nodes)
  /\ Forall (fun n =>
               RecipeHierarchy.parent n = None
               /\ RecipeHierarchy.children n = []
               /\ RecipeHierarchy.depth n = num0
               /\ find_last (fun m => String.eqb (RecipeHierarchy.name n) (recipeOf m))
                            (enrichRecipeStats recipeStats sourceResults)
                  = Some (RecipeHierarchy.metrics n))
            nodes
  /\ (NoDup (map recipe recipeStats) ->
      map RecipeHierarchy.metrics nodes
      = enrichRecipeStats recipeStats sourceResults).
Proof.
  intros nodes.
  set (enriched := enrichRecipeStats recipeStats sourceResults).
  set (m := fold_left (fun m x => Map_set String.eqb m (recipeOf x) (rootNode x))
                      enriched []).
  assert (Hnodes : nodes = map snd m) by reflexivity.
  assert (Hkeys : map fst m = Set_from String.eqb (map recipe recipeStats)).
  { unfold m. rewrite fold_Map_set_keys. unfold enriched.
    now rewrite enrichRecipeStats_recipes. }
  assert (Hnd : NoDup (map fst m)).
  { rewrite Hkeys. apply (Set_from_NoDup String.eqb string_eqb_spec). }
  assert (Hentry : forall k v, In (k, v) m ->
            exists x, find_last (fun e => String.eqb k (recipeOf e)) enriched = Some x
                      /\ v = rootNode x /\ recipeOf x = k).
  { intros k v Hin.
    apply (In_Map_get String.eqb string_eqb_spec _ _ _ Hnd) in Hin.
    unfold m in Hin.
    rewrite (fold_Map_set_get String.eqb recipeOf rootNode string_eqb_spec) in Hin.
    destruct (find_last (fun e => String.eqb k (recipeOf e)) enriched)
      as [x|] eqn:E; [|discriminate Hin].
    exists x. split; [reflexivity|]. split; [now injection Hin|].
    unfold find_last in E. apply find_some in E. destruct E as [_ E].
    apply String.eqb_eq in E. now symmetry. }
  assert (Hnames : map RecipeHierarchy.name nodes = map fst m).
  { rewrite Hnodes, map_map. apply map_ext_in. intros [k v] Hin.
    destruct (Hentry k v Hin) as (x & _ & -> & Hk). exact Hk. }
  split; [now rewrite Hnames|]. split; [now rewrite Hnames|]. split.
  - rewrite Hnodes. apply Forall_forall. intros n Hn.
    apply in_map_iff in Hn. destruct Hn as ([k v] & <- & Hin).
    destruct (Hentry k v Hin) as (x & Hlast & -> & Hk).
    cbn [snd rootNode RecipeHierarchy.parent RecipeHierarchy.children
         RecipeHierarchy.depth RecipeHierarchy.name RecipeHierarchy.metrics].
    repeat split. fold (recipeOf x). now rewrite Hk.
  - intros Hdistinct. rewrite Hnodes. unfold m.
    rewrite (fold_Map_set_distinct String.eqb recipeOf rootNode string_eqb_spec).
    + cbn [app]. rewrite !map_map. cbn [snd rootNode RecipeHierarchy.metrics].
      apply map_id.
    + cbn [map app]. unfold enriched. now rewrite enrichRecipeStats_recipes.
Qed.

Lemma buildRecipeHierarchy_nodes_witness :
  map RecipeHierarchy.metrics (buildRecipeHierarchy [run_3s; junit_run] [change_6s])
  = enrichRecipeStats [run_3s; junit_run] [change_6s].
Proof.
  destruct (buildRecipeHierarchy_nodes [run_3s; junit_run] [change_6s])
    as (_ & _ & _ & H).
  apply H. constructor; [intros [E|[]]; discriminate E|].
  constructor; [intros []|constructor].
Defined.

(** ** The buckets of the change-type aggregation *)

Lemma first_pass_key_order
    (sourceResults : list SourceFileResults) (m : list (string * Bucket.t)) :
  map fst (fold_left aggregateSourceResult sourceResults m)
  = fold_left (Set_add String.eqb) (map typeOf sourceResults) (map fst m).
Proof.
  revert m. induction sourceResults as [|sr l IH]; intros m; [reflexivity|].
  cbn [fold_left map]. rewrite IH, aggregateSourceResult_set.
  now rewrite Map_set_keys_Set_add.
Qed.

(** After the first pass a key holds what the file changes of its type,
    absorbed in order, make of its bucket. *)
Lemma first_pass_get
    (sourceResults : list SourceFileResults) (m : list (string * Bucket.t))
    (k : string) :
  Map_get String.eqb (fold_left aggregateSourceResult sourceResults m) k
  = match changes_of_type k sourceResults with
    | [] => Map_get String.eqb m k
    | group =>
        Some (fold_left absorbResult group
                        (get_or emptyBucket (Map_get String.eqb m k)))
    end.
Proof.
  revert m. induction sourceResults as [|sr l IH]; intros m; [reflexivity|].
  cbn [fold_left]. rewrite IH, aggregateSourceResult_set.
  rewrite (Map_get_set String.eqb string_eqb_spec).
  unfold changes_of_type. cbn [filter]. fold (changes_of_type k l).
  rewrite (String.eqb_sym k).
  destruct (String.eqb (extractChangeType (recipeChanges sr)) k) eqn:E.
  - apply String.eqb_eq in E. rewrite E. cbn [fold_left].
    now destruct (changes_of_type k l).
  - reflexivity.
Qed.

Lemma absorbResult_fold (group : list SourceFileResults) (b : Bucket.t) :
  let b' := fold_left absorbResult group b in
  Bucket.timeSaved b'
  = fold_left num_add (map estimatedTimeSaving group) (Bucket.timeSaved b)
  /\ Bucket.recipes b'
     = fold_left (Set_add String.eqb) (map recipeChanges group) (Bucket.recipes b)
  /\ Bucket.filesAffected b'
     = fold_left (Set_add String.eqb) (paths_after group) (Bucket.filesAffected b)
  /\ Bucket.executionTime b' = Bucket.executionTime b.
Proof.
  revert b. induction group as [|sr l IH]; intros b; cbn [fold_left].
  - cbn. repeat split.
  - destruct (IH (absorbResult b sr)) as (Ht & Hr & Hf & He). cbv zeta.
    rewrite Ht, Hr, Hf, He.
    cbn [absorbResult Bucket.timeSaved Bucket.recipes Bucket.filesAffected
         Bucket.executionTime map fold_left].
    repeat split.
    unfold paths_after. cbn [flat_map].
    destruct (sourcePathAfter sr) as [p|]; [|reflexivity].
    now destruct (str_truthy p).
Qed.

(** A bucket of the output, by the file changes of its change type. *)
Lemma aggregateByChangeType_bucket
    (recipeStats : list RecipeRunStats) (sourceResults : list SourceFileResults)
    (b : ChangeTypeAggregation.t) :
  In b (aggregateByChangeType recipeStats sourceResults) ->
  let group := changes_of_type (ChangeTypeAggregation.changeType b) sourceResults in
  ChangeTypeAggregation.timeSaved b = num_sum (map estimatedTimeSaving group)
  /\ ChangeTypeAggregation.recipes b
     = Set_from String.eqb (map recipeChanges group)
  /\ ChangeTypeAggregation.filesAffected b
     = num_of_nat (List.length (Set_from String.eqb (paths_after group))).
Proof.
  intros Hb group. rewrite aggregateByChangeType_map in Hb.
  apply in_map_iff in Hb. destruct Hb as ([k v] & <- & Hkv).
  destruct (first_pass_invariant sourceResults) as [Hnd _].
  set (m1 := fold_left aggregateSourceResult sourceResults []) in *.
  assert (Hnd2 : NoDup (map fst (fold_left aggregateRecipeStats recipeStats m1)))
    by now rewrite second_pass_keys.
  apply (In_Map_get String.eqb string_eqb_spec _ _ _ Hnd2) in Hkv.
  rewrite second_pass_get in Hkv. unfold m1 in Hkv.
  rewrite first_pass_get in Hkv.
  unfold group. cbn [toAggregation ChangeTypeAggregation.changeType
                     ChangeTypeAggregation.timeSaved ChangeTypeAggregation.recipes
                     ChangeTypeAggregation.filesAffected].
  destruct (changes_of_type k sourceResults) as [|sr g] eqn:G;
    [discriminate Hkv|].
  cbn [Map_get get_or option_map] in Hkv. injection Hkv as <-.
  cbn [add_executionTime Bucket.timeSaved Bucket.recipes Bucket.filesAffected].
  destruct (absorbResult_fold (sr :: g) emptyBucket) as (Ht & Hr & Hf & _).
  cbv zeta in Ht, Hr, Hf.
  change (fold_left absorbResult g (absorbResult emptyBucket sr))
    with (fold_left absorbResult (sr :: g) emptyBucket).
  rewrite Ht, Hr, Hf.
  cbn [emptyBucket Bucket.timeSaved Bucket.recipes Bucket.filesAffected].
  repeat split.
Qed.

(** X6.  The buckets come in the order in which their change types first
    appear among the file changes. A bucket's [timeSaved] is the sum of the
    savings of the file changes of its type, its [recipes] are their
    distinct recipe names in order of first appearance, and its
    [filesAffected] is the number of their distinct paths after the run
    (null and empty paths left out). *)
Theorem aggregateByChangeType_buckets
    (recipeStats : list RecipeRunStats) (sourceResults : list SourceFileResults) :
  let out := aggregateByChangeType recipeStats sourceResults in
  map ChangeTypeAggregation.changeType out
  = Set_from String.eqb (map typeOf sourceResults)
  /\ Forall (fun b =>
               let group :=
                 changes_of_type (ChangeTypeAggregation.changeType b)
                                 sourceResults in
               ChangeTypeAggregation.timeSaved b
               = num_sum (map estimatedTimeSaving group)
               /\ ChangeTypeAggregation.recipes b
                  = Set_from String.eqb (map recipeChanges group)
               /\ NoDup (ChangeTypeAggregation.recipes b)
               /\ ChangeTypeAggregation.filesAffected b
                  = num_of_nat (distinct_count (paths_after group)))
            out.
Proof.
  intros out. split.
  - unfold out. rewrite aggregateByChangeType_map, map_map.
    transitivity (map fst (fold_left aggregateRecipeStats recipeStats
                             (fold_left aggregateSourceResult sourceResults [])));
      [apply map_ext; now intros [k v]|].
    rewrite second_pass_keys. apply first_pass_key_order.
  - apply Forall_forall. intros b Hb.
    destruct (aggregateByChangeType_bucket _ _ _ Hb) as (Ht & Hr & Hf).
    cbv zeta in *. split; [exact Ht|]. split; [exact Hr|]. split.
    + rewrite Hr. apply (Set_from_NoDup String.eqb string_eqb_spec).
    + rewrite Hf. f_equal.
      apply (Set_from_length String.eqb string_eqb_spec string_dec).
Qed.

(** ** The points of the time series *)









(** The sorted entries of the cycle map. *)
Lemma sorted_cycles_perm (sourceResults : list SourceFileResults) :
  Permutation (fold_left addToCycle sourceResults [])
              (Array_sort (fun a b => fst a - fst b)
                          (fold_left addToCycle sourceResults [])).
Proof. apply (Array_sort_perm fst). Qed.

Lemma sorted_cycles_strict (sourceResults : list SourceFileResults) :
  (forall r, In r sourceResults -> cycle r <> NaN) ->
  StronglySorted num_lt
    (map fst (Array_sort (fun a b => fst a - fst b)
                         (fold_left addToCycle sourceResults []))).
Proof.
  intros Hnan. apply Sorted_le_NoDup_lt.
  - apply Sorted_map. apply (Array_sort_sorted fst).
    apply Forall_forall. intros e He. apply (in_map fst) in He.
    apply cycleMap_keys in He. destruct He as [[]|He].
    apply in_map_iff in He. destruct He as (r & <- & Hr). now apply Hnan.
  - apply (Permutation_NoDup
             (Permutation_map fst (sorted_cycles_perm sourceResults))).
    apply cycleMap_NoDup.
Qed.


(** ** More on the distribution statistics *)

Lemma num_le_antisym (x y : number) : num_le x y -> num_le y x -> x = y.
Proof.
  destruct x, y; cbn; try tauto.
  intros H1 H2. f_equal. now apply Qcle_antisym.
Qed.

(** An ascending rearrangement is unique. *)
Lemma sorted_perm_unique (l1 l2 : list number) :
  StronglySorted num_le l1 -> StronglySorted num_le l2 ->
  Permutation l1 l2 -> l1 = l2.
Proof.
  intros H1. revert l2. induction H1 as [|x l1 Hs1 IH Hx]; intros l2 H2 Hp.
  - apply Permutation_nil in Hp. now subst.
  - destruct H2 as [|y l2 Hs2 Hy].
    + apply Permutation_sym, Permutation_nil in Hp. discriminate.
    + assert (E : x = y).
      { rewrite Forall_forall in Hx, Hy.
        assert (Hxy : In x (y :: l2))
          by (apply (Permutation_in _ Hp); now left).
        assert (Hyx : In y (x :: l1))
          by (apply (Permutation_in _ (Permutation_sym Hp)); now left).
        destruct Hxy as [<-|Hxy]; [reflexivity|].
        destruct Hyx as [->|Hyx]; [reflexivity|].
        apply num_le_antisym; auto. }
      subst y. f_equal. apply IH; [assumption|].
      now apply Permutation_cons_inv in Hp.
Qed.

Lemma Array_sort_perm_eq (l1 l2 : list number) :
  Permutation l1 l2 -> Forall (fun v => v <> NaN) l1 ->
  Array_sort (fun a b => a - b) l1 = Array_sort (fun a b => a - b) l2.
Proof.
  intros Hp Hnan.
  assert (Hnan2 : Forall (fun v => v <> NaN) l2)
    by now apply (Permutation_Forall Hp).
  apply sorted_perm_unique.
  - apply Sorted_StronglySorted; [intros x y z; apply num_le_trans|].
    now apply (Array_sort_sorted (fun v => v)).
  - apply Sorted_StronglySorted; [intros x y z; apply num_le_trans|].
    now apply (Array_sort_sorted (fun v => v)).
  - rewrite <- (Array_sort_perm (fun v => v) l1).
    rewrite <- (Array_sort_perm (fun v => v) l2). exact Hp.
Qed.

(** X10.  The order statistics of an array without NaN ([median], [min],
    [max] and [percentile95]) do not depend on the order of its elements.
    ([mean] and [stdDev] are sums, which binary64 rounds differently in
    another order.) *)
Theorem calculateDistributionStats_order_independent
    (Math_sqrt : number -> number) (values1 values2 : list number) :
  Permutation values1 values2 ->
  Forall (fun v => v <> NaN) values1 ->
  let stats1 := calculateDistributionStats Math_sqrt values1 in
  let stats2 := calculateDistributionStats Math_sqrt values2 in
  DistributionStats.median stats1 = DistributionStats.median stats2
  /\ DistributionStats.min stats1 = DistributionStats.min stats2
  /\ DistributionStats.max stats1 = DistributionStats.max stats2
  /\ DistributionStats.percentile95 stats1 = DistributionStats.percentile95 stats2.
Proof.
  intros Hp Hnan stats1 stats2. unfold stats1, stats2.
  destruct values1 as [|x l1].
  { apply Permutation_nil in Hp. subst. now repeat split. }
  assert (Hne2 : values2 <> []).
  { intros ->. apply Permutation_sym, Permutation_nil in Hp. discriminate. }
  assert (Hnan2 : Forall (fun v => v <> NaN) values2)
    by now apply (Permutation_Forall Hp).
  rewrite (@calculateDistributionStats_fields Math_sqrt (x :: l1))
    by (assumption || discriminate).
  rewrite (@calculateDistributionStats_fields Math_sqrt values2)
    by assumption.
  cbv zeta.
  cbn [DistributionStats.median DistributionStats.min DistributionStats.max
       DistributionStats.percentile95].
  rewrite (Array_sort_perm_eq Hp Hnan), (Permutation_length Hp).
  now repeat split.
Qed.

Lemma calculateDistributionStats_order_independent_witness :
  DistributionStats.median
    (calculateDistributionStats sqrt_lower [numZ 3; numZ 1; numZ 2])
  = DistributionStats.median
      (calculateDistributionStats sqrt_lower [numZ 1; numZ 2; numZ 3]).
Proof.
  apply calculateDistributionStats_order_independent.
  - apply perm_trans with [numZ 1; numZ 3; numZ 2]; [apply perm_swap|].
    apply perm_skip, perm_swap.
  - repeat constructor; discriminate.
Defined.

(** X11.  On a non-empty array without NaN, [min], [max] and [percentile95]
    are elements of the array, and so is [median] when the length is odd;
    every element lies between [min] and [max]. *)
Theorem calculateDistributionStats_bounds
    (Math_sqrt : number -> number) (values : list number) :
  values <> [] -> Forall (fun v => v <> NaN) values ->
  let d := calculateDistributionStats Math_sqrt values in
  In (DistributionStats.min d) values
  /\ In (DistributionStats.max d) values
  /\ In (DistributionStats.percentile95 d) values
  /\ (Nat.odd (List.length values) = true ->
      In (DistributionStats.median d) values)
  /\ Forall (fun v => num_le (DistributionStats.min d) v
                      /\ num_le v (DistributionStats.max d))
            values.
Proof.
  intros Hne Hnan d.
  set (sorted := Array_sort (fun a b => a - b) values).
  set (N := List.length values).
  assert (Hperm : Permutation values sorted)
    by apply (Array_sort_perm (fun v => v)).
  assert (Hlen : List.length sorted = N)
    by (symmetry; now apply Permutation_length).
  assert (Hsn : Forall (fun v => v <> NaN) sorted)
    by now apply (Permutation_Forall Hperm).
  assert (HN : (0 < N)%nat).
  { unfold N. destruct values; [congruence | cbn; lia]. }
  assert (Hss : StronglySorted num_le sorted).
  { apply Sorted_StronglySorted; [intros x y z; apply num_le_trans|].
    now apply (Array_sort_sorted (fun v => v)). }
  assert (Hd : d = {| DistributionStats.mean := num_sum values / num_of_nat N;
                      DistributionStats.median := median_of sorted;
                      DistributionStats.min := nth 0 sorted num0;
                      DistributionStats.max := nth (N - 1) sorted num0;
                      DistributionStats.stdDev :=
                        Math_sqrt (population_variance values);
                      DistributionStats.percentile95 :=
                        nth (N * 95 / 100) sorted num0 |})
    by now apply calculateDistributionStats_fields.
  rewrite Hd.
  cbn [DistributionStats.median DistributionStats.min DistributionStats.max
       DistributionStats.percentile95].
  assert (Hin : forall j, (j < N)%nat -> In (nth j sorted num0) values).
  { intros j Hj. apply (Permutation_in _ (Permutation_sym Hperm)).
    apply nth_In. lia. }
  assert (Hhalf : (N / 2 < N)%nat) by (apply Nat.div_lt; lia).
  split; [now apply Hin|]. split; [apply Hin; lia|].
  split; [apply Hin; now apply percentile_index_lt|]. split.
  - intros Hodd. unfold median_of. rewrite Hlen.
    unfold Nat.odd in Hodd. apply negb_true_iff in Hodd. rewrite Hodd.
    now apply Hin.
  - apply Forall_forall. intros v Hv. apply (Permutation_in _ Hperm) in Hv.
    destruct (In_nth _ _ num0 Hv) as (j & Hj & <-). rewrite Hlen in Hj.
    split; apply StronglySorted_nth; try assumption; lia.
Qed.

Lemma calculateDistributionStats_bounds_witness :
  In (DistributionStats.max
        (calculateDistributionStats sqrt_lower [numZ 3; numZ 1; numZ 2]))
     [numZ 3; numZ 1; numZ 2].
Proof.
  destruct (@calculateDistributionStats_bounds sqrt_lower
              [numZ 3; numZ 1; numZ 2])
    as (_ & H & _).
  - discriminate.
  - repeat constructor; discriminate.
  - exact H.
Defined.

Lemma formatDuration_integer_seconds_witness :
  formatDuration (numZ 59) = "59s"
  /\ formatDuration (numZ 3599) = "59min 59s"
  /\ formatDuration (numZ 86399) = "23h 59min".
Proof.
  destruct (@formatDuration_integer_seconds 59%Z ltac:(lia)) as (H1 & _).
  destruct (@formatDuration_integer_seconds 3599%Z ltac:(lia)) as (_ & H2 & _).
  destruct (@formatDuration_integer_seconds 86399%Z ltac:(lia)) as (_ & _ & H3).
  rewrite H1, H2, H3 by lia. repeat split.
Defined.

(** ** The loader: what it makes of the rows *)

Lemma parseNumber_not_NaN (js : Builtins) (value : option string) :
  parseNumber js value <> NaN.
Proof.
  unfold parseNumber. destruct value as [value|]; [|discriminate].
  destruct (String.eqb value ""); [discriminate|].
  cbv zeta.
  match goal with |- context [orb ?a ?b] => destruct (orb a b) end;
    [discriminate|].
  match goal with |- context [parseFloat js ?s] =>
    destruct (parseFloat js s) eqn:E end; cbn [isNaN]; discriminate.
Qed.

Lemma parseStringOrNull_Some (js : Builtins) (value : option string) (p : string) :
  parseStringOrNull js value = Some p ->
  p <> "" /\ toLowerCase js p <> "null".
Proof.
  unfold parseStringOrNull. cbv zeta.
  destruct (String.eqb (parseString js value) "") eqn:E1; [discriminate|].
  destruct (String.eqb (toLowerCase js (parseString js value)) "null") eqn:E2;
    [discriminate|].
  cbn [orb]. intros [= <-].
  apply String.eqb_neq in E1, E2. now split.
Qed.

Lemma not_blank_true (js : Builtins) (s : string) :
  not_blank js s = true -> s <> "" /\ trim js s <> "".
Proof.
  unfold not_blank. intros H. apply andb_prop in H. destruct H as [H1 H2].
  split.
  - intros ->. discriminate H1.
  - apply negb_true_iff in H2. now apply String.eqb_neq in H2.
Qed.

Lemma parseSourceFileResults_In
    (js : Builtins) (csvData : list row) (sr : SourceFileResults) :
  In sr (parseSourceFileResults js csvData) ->
  (recipeChanges sr <> "" /\ trim js (recipeChanges sr) <> "")
  /\ (forall p, sourcePathBefore sr = Some p ->
                p <> "" /\ toLowerCase js p <> "null")
  /\ (forall p, sourcePathAfter sr = Some p ->
                p <> "" /\ toLowerCase js p <> "null")
  /\ estimatedTimeSaving sr <> NaN
  /\ cycle sr <> NaN.
Proof.
  unfold parseSourceFileResults. intros H.
  apply filter_In in H. destruct H as [H Hkeep].
  apply not_blank_true in Hkeep.
  apply in_map_iff in H. destruct H as (r & <- & _).
  cbn [sourcePathBefore sourcePathAfter recipeChanges estimatedTimeSaving cycle]
    in *.
  split; [exact Hkeep|].
  split; [intros p; apply parseStringOrNull_Some|].
  split; [intros p; apply parseStringOrNull_Some|].
  split; apply parseNumber_not_NaN.
Qed.

Lemma parseRecipeRunStats_In
    (js : Builtins) (csvData : list row) (r : RecipeRunStats) :
  In r (parseRecipeRunStats js csvData) ->
  (recipe r <> "" /\ trim js (recipe r) <> "")
  /\ sourceFileCount r <> NaN /\ sourceFileChangedCount r <> NaN
  /\ cumulativeScanningTime r <> NaN /\ percentile99ScanningTime r <> NaN
  /\ maxScanningTime r <> NaN
  /\ cumulativeEditTime r <> NaN /\ percentile99EditTime r <> NaN
  /\ maxEditTime r <> NaN.
Proof.
  unfold parseRecipeRunStats. intros H.
  apply filter_In in H. destruct H as [H Hkeep].
  apply not_blank_true in Hkeep.
  apply in_map_iff in H. destruct H as (line & <- & _).
  cbn [recipe sourceFileCount sourceFileChangedCount cumulativeScanningTime
       percentile99ScanningTime maxScanningTime cumulativeEditTime
       percentile99EditTime maxEditTime] in *.
  split; [exact Hkeep|].
  repeat split; apply parseNumber_not_NaN.
Qed.

(** X13.  Every record the loader makes of a CSV is well formed, whatever
    the file holds: the recipe name is neither empty nor blank, no number is
    NaN, and a path is null or a text that is neither empty nor the word
    null in any case. *)
Theorem loader_records_wellformed (js : Builtins) (csvData : list row) :
  Forall (fun r =>
            (recipe r <> "" /\ trim js (recipe r) <> "")
            /\ sourceFileCount r <> NaN /\ sourceFileChangedCount r <> NaN
            /\ cumulativeScanningTime r <> NaN
            /\ percentile99ScanningTime r <> NaN
            /\ maxScanningTime r <> NaN
            /\ cumulativeEditTime r <> NaN /\ percentile99EditTime r <> NaN
            /\ maxEditTime r <> NaN)
         (parseRecipeRunStats js csvData)
  /\ Forall (fun sr =>
               (recipeChanges sr <> "" /\ trim js (recipeChanges sr) <> "")
               /\ (forall p, sourcePathBefore sr = Some p ->
                             p <> "" /\ toLowerCase js p <> "null")
               /\ (forall p, sourcePathAfter sr = Some p ->
                             p <> "" /\ toLowerCase js p <> "null")
               /\ estimatedTimeSaving sr <> NaN
               /\ cycle sr <> NaN)
            (parseSourceFileResults js csvData).
Proof.
  split; apply Forall_forall; intros x Hx.
  - now apply parseRecipeRunStats_In in Hx.
  - now apply parseSourceFileResults_In in Hx.
Qed.

Lemma totalFilesChanged_truthy
    (recipeStats : list RecipeRunStats) (sourceResults : list SourceFileResults) :
  ROIMetrics.totalFilesChanged (calculateROIMetrics recipeStats sourceResults)
  = num_of_nat (distinct_count (truthy_paths sourceResults)).
Proof.
  unfold calculateROIMetrics. cbn [ROIMetrics.totalFilesChanged].
  f_equal. rewrite changed_paths_truthy.
  rewrite (@Set_from_length _ _ path_eqb_spec option_string_dec).
  apply nodup_map_Some_length.
Qed.

Lemma calculateTimeSeries_cycles (sourceResults : list SourceFileResults) :
  map TimeSeriesPoint.cycle (calculateTimeSeries sourceResults)
  = map fst (Array_sort (fun a b => fst a - fst b)
                        (fold_left addToCycle sourceResults [])).
Proof.
  rewrite calculateTimeSeries_rows, accumulate_cycles, map_map.
  apply map_ext. now intros [k v].
Qed.

(** X14.  On the file changes the loader delivers, the derivations are
    regular: the number of files changed is the number of distinct non-null
    values of [sourcePathAfter ?? sourcePathBefore], and the points of the
    time series are in strictly ascending order of their cycle. *)
Theorem loaded_results_regular
    (js : Builtins) (csvData : list row) (recipeStats : list RecipeRunStats) :
  let sourceResults := parseSourceFileResults js csvData in
  ROIMetrics.totalFilesChanged (calculateROIMetrics recipeStats sourceResults)
  = num_of_nat (distinct_count (nullish_paths sourceResults))
  /\ StronglySorted num_lt
       (map TimeSeriesPoint.cycle (calculateTimeSeries sourceResults)).
Proof.
  intros sourceResults. split.
  - rewrite totalFilesChanged_truthy. rewrite truthy_paths_nullish; [reflexivity|].
    intros r Hr. apply parseSourceFileResults_In in Hr.
    destruct Hr as (_ & Hb & Ha & _).
    split; intros E; [apply Ha in E|apply Hb in E]; now destruct E.
  - rewrite calculateTimeSeries_cycles. apply sorted_cycles_strict.
    intros r Hr. now apply parseSourceFileResults_In in Hr.
Qed.

(** *** The row of descriptions *)

Lemma filter_from_all {A : Type} (f : A -> nat -> bool) (n : nat) (l : list A) :
  (forall x i, (n <= i)%nat -> f x i = true) -> filter_from f n l = l.
Proof.
  revert n. induction l as [|x l IH]; intros n H; cbn [filter_from];
    [reflexivity|].
  rewrite (H x n) by lia. f_equal. apply IH. intros y i Hi. apply H. lia.
Qed.

(** X15.  Of the rows of a file only the first can be left out, and it is
    left out exactly when it is a row of descriptions; every later row is
    kept, in order, even one that reads like a description. *)
Theorem dataRows_description (js : Builtins) (csvData : list row) :
  dataRows js csvData
  = match csvData with
    | [] => []
    | first :: rest =>
        if isDescriptionRow js (Some first) then rest else first :: rest
    end.
Proof.
  destruct csvData as [|first rest]; [reflexivity|].
  unfold dataRows, filter_indexed. cbn [filter_from nth_error Nat.ltb Nat.leb orb].
  rewrite filter_from_all by (intros x [|i] Hi; [lia|reflexivity]).
  now destruct (isDescriptionRow js (Some first)).
Qed.

(** *** Quotes *)

Lemma endsWith_last (s : string) (q : ascii) :
  endsWith (s ++ String q "") q = true.
Proof.
  induction s as [|c s IH]; cbn [append endsWith].
  - apply Ascii.eqb_refl.
  - destruct s; exact IH.
Qed.

Lemma dropLast_last (s : string) (q : ascii) :
  dropLast (s ++ String q "") = s.
Proof.
  induction s as [|c s IH]; cbn [append dropLast]; [reflexivity|].
  destruct s as [|c' s]; cbn [append] in *; [reflexivity|].
  now rewrite IH.
Qed.

(** X16.  A value in a pair of double or single quotes, with nothing for
    [trim] to remove around them, is read as the text between the quotes:
    exactly one pair is taken off. *)
Theorem parseString_unquote (js : Builtins) (q : ascii) (s : string) :
  q = double_quote \/ q = "'"%char ->
  trim js (in_quotes q s) = in_quotes q s ->
  parseString js (Some (in_quotes q s)) = s.
Proof.
  intros Hq Htrim. unfold parseString. cbv zeta. rewrite Htrim.
  assert (Hquoted : quoted (in_quotes q s) = true).
  { pose proof (endsWith_last (String q s) q) as Hend.
    cbn [append] in Hend. unfold quoted, in_quotes.
    destruct Hq as [-> | ->]; rewrite Hend; cbn [startsWith];
      [reflexivity | apply orb_true_r]. }
  rewrite Hquoted. unfold in_quotes, slice_1_m1. apply dropLast_last.
Qed.

Lemma parseString_unquote_witness :
  parseString sample_js (Some (in_quotes "'" "src/B.java")) = "src/B.java".
Proof.
  apply (@parseString_unquote sample_js "'"%char "src/B.java").
  - right. reflexivity.
  - reflexivity.
Defined.

(** ** The loader: its cache *)

Lemma prefix_append (s t : string) : prefix s (s ++ t) = true.
Proof.
  induction s as [|c s IH]; cbn [append prefix].
  - now destruct t.
  - destruct (Ascii.ascii_dec c c); [exact IH|congruence].
Qed.

Lemma Map_set_In {V : Type} (m : list (string * V)) (k : string) (v : V)
    (e : string * V) :
  In e (Map_set String.eqb m k v) -> In e m \/ e = (k, v).
Proof.
  induction m as [|[k0 v0] m IH]; cbn [Map_set].
  - intros [<-|[]]. now right.
  - destruct (String.eqb k k0) eqn:E.
    + apply String.eqb_eq in E. subst k0.
      intros [<-|H]; [now right | left; now right].
    + intros [<-|H]; [left; now left|].
      destruct (IH H) as [H'| ->]; [left; now right | now right].
Qed.

Lemma well_kinded_set (cache : Cache) (key : string) (entry : CacheEntry) :
  well_kinded cache -> prefix (key_prefix entry) key = true ->
  well_kinded (Map_set String.eqb cache key entry).
Proof.
  intros Hc Hk k e Hin. apply Map_set_In in Hin.
  destruct Hin as [Hin|[= -> ->]]; [now apply Hc | exact Hk].
Qed.

Lemma well_kinded_get (cache : Cache) (key : string) (entry : CacheEntry) :
  well_kinded cache -> Map_get String.eqb cache key = Some entry ->
  prefix (key_prefix entry) key = true.
Proof.
  intros Hc Hget. apply Hc.
  now apply (Map_get_In String.eqb string_eqb_spec).
Qed.

(** X17.  The casts of the cached arrays are safe: when every array of the
    cache sits under a key of its own kind, as in the empty cache, no load
    hands out an array of another kind, and the cache is again so after each
    load and after [clearCache]. *)
Theorem loads_well_kinded
    (js : Builtins) (csv : string -> option (list row))
    (filePath : string) (cache : Cache) :
  well_kinded cache ->
  (well_cast (fst (loadRecipeRunStats js csv filePath cache))
   /\ well_kinded (snd (loadRecipeRunStats js csv filePath cache)))
  /\ (well_cast (fst (loadSourceFileResults js csv filePath cache))
      /\ well_kinded (snd (loadSourceFileResults js csv filePath cache)))
  /\ (well_cast (fst (loadUsageReport js csv filePath cache))
      /\ well_kinded (snd (loadUsageReport js csv filePath cache)))
  /\ well_kinded (clearCache cache).
Proof.
  intros Hc.
  split; [|split; [|split]].
  - unfold loadRecipeRunStats, loadRecipeRunStats_start, loadRecipeRunStats_resume.
    cbv zeta.
    destruct (Map_get String.eqb cache ("recipe-stats-" ++ filePath)%string)
      as [entry|] eqn:E.
    + pose proof (well_kinded_get _ Hc E) as Hk.
      destruct entry; cbn [fst snd well_cast]; try (split; [exact I|exact Hc]);
        cbn in Hk; discriminate Hk.
    + destruct (csv filePath); cbn [fst snd well_cast];
        (split; [exact I|]); [|exact Hc].
      apply well_kinded_set; [exact Hc|].
      apply (prefix_append "recipe-stats-").
  - unfold loadSourceFileResults, loadSourceFileResults_start, loadSourceFileResults_resume.
    cbv zeta.
    destruct (Map_get String.eqb cache ("source-results-" ++ filePath)%string)
      as [entry|] eqn:E.
    + pose proof (well_kinded_get _ Hc E) as Hk.
      destruct entry; cbn [fst snd well_cast]; try (split; [exact I|exact Hc]);
        cbn in Hk; discriminate Hk.
    + destruct (csv filePath); cbn [fst snd well_cast];
        (split; [exact I|]); [|exact Hc].
      apply well_kinded_set; [exact Hc|].
      apply (prefix_append "source-results-").
  - unfold loadUsageReport, loadUsageReport_start, loadUsageReport_resume.
    cbv zeta.
    destruct (Map_get String.eqb cache ("usage-report-" ++ filePath)%string)
      as [entry|] eqn:E.
    + pose proof (well_kinded_get _ Hc E) as Hk.
      destruct entry; cbn [fst snd well_cast]; try (split; [exact I|exact Hc]);
        cbn in Hk; discriminate Hk.
    + destruct (csv filePath); cbn [fst snd well_cast];
        (split; [exact I|]); [|exact Hc].
      apply well_kinded_set; [exact Hc|].
      apply (prefix_append "usage-report-").
  - intros k e [].
Qed.

Lemma loads_well_kinded_witness :
  well_cast (fst (loadSourceFileResults sample_js sample_csv
                    "data/org.openrewrite.table.SourcesFileResults.csv" []))
  /\ well_kinded (snd (loadSourceFileResults sample_js sample_csv
                         "data/org.openrewrite.table.SourcesFileResults.csv" [])).
Proof.
  apply (@loads_well_kinded sample_js sample_csv
           "data/org.openrewrite.table.SourcesFileResults.csv" []).
  intros k e [].
Defined.

Lemma Map_get_set_other {V : Type} (m : list (string * V))
    (k k' : string) (v : V) :
  k' <> k ->
  Map_get String.eqb (Map_set String.eqb m k v) k' = Map_get String.eqb m k'.
Proof.
  intros H. rewrite (Map_get_set String.eqb string_eqb_spec).
  apply String.eqb_neq in H. now rewrite H.
Qed.

Lemma after_event_stored (js : Builtins) (cache : Cache) (e : cache_event) :
  e <> CacheCleared ->
  after_event js cache e
  = match stored js e with
    | Some (key, entry) => Map_set String.eqb cache key entry
    | None => cache
    end.
Proof.
  intros H. destruct e as [p [a|]|p [a|]|p [a|]|]; try reflexivity.
  congruence.
Qed.

(** What the cache holds under a key stays through the events that do
    not disturb the key. *)
Lemma Map_get_after_events (js : Builtins) (key : string)
    (events : list cache_event) (cache : Cache) :
  Forall (fun e => ~ disturbs js key e) events ->
  Map_get String.eqb (after_events js events cache) key
  = Map_get String.eqb cache key.
Proof.
  unfold after_events. intros H. revert cache.
  induction H as [|e events He _ IH]; intros cache; cbn [fold_left];
    [reflexivity|].
  rewrite IH. rewrite after_event_stored by (intros ->; apply He; now left).
  destruct (stored js e) as [[k entry]|] eqn:E; [|reflexivity].
  apply Map_get_set_other. intros ->. apply He. right. now exists entry.
Qed.

(** X18.  A path that has been loaded is answered from the cache: when the
    first step of a load finds the path in the cache, it still finds it,
    with the same array, after any events that neither clear the cache nor
    store a file read under the key of the path, whatever other loads have
    run and ended meanwhile; and right after a load has stored what it read,
    the first step of a load of the same path returns that array. So a file
    that has changed is not read again until [clearCache]. *)
Theorem loads_served_from_cache
    (js : Builtins) (events : list cache_event) (cache : Cache)
    (filePath : string) :
  ((forall result,
       loadRecipeRunStats_start filePath cache = Some result ->
       Forall (fun e => ~ disturbs js ("recipe-stats-" ++ filePath)%string e)
              events ->
       loadRecipeRunStats_start filePath (after_events js events cache)
       = Some result)
   /\ forall csvData,
        loadRecipeRunStats_start filePath
          (snd (loadRecipeRunStats_resume js filePath (Some csvData) cache))
        = Some (Loaded (parseRecipeRunStats js csvData)))
  /\ ((forall result,
          loadSourceFileResults_start filePath cache = Some result ->
          Forall (fun e => ~ disturbs js ("source-results-" ++ filePath)%string e)
                 events ->
          loadSourceFileResults_start filePath (after_events js events cache)
          = Some result)
      /\ forall csvData,
           loadSourceFileResults_start filePath
             (snd (loadSourceFileResults_resume js filePath (Some csvData) cache))
           = Some (Loaded (parseSourceFileResults js csvData)))
  /\ ((forall result,
          loadUsageReport_start filePath cache = Some result ->
          Forall (fun e => ~ disturbs js ("usage-report-" ++ filePath)%string e)
                 events ->
          loadUsageReport_start filePath (after_events js events cache)
          = Some result)
      /\ forall csvData,
           loadUsageReport_start filePath
             (snd (loadUsageReport_resume js filePath (Some csvData) cache))
           = Some (Loaded (parseUsageReport js csvData))).
Proof.
  split; [|split]; split.
  - intros result Hfound Hquiet. unfold loadRecipeRunStats_start in *.
    cbv zeta in *. now rewrite (Map_get_after_events _ Hquiet).
  - intros csvData. unfold loadRecipeRunStats_start, loadRecipeRunStats_resume.
    cbv zeta. cbn [snd].
    now rewrite (Map_get_set String.eqb string_eqb_spec), String.eqb_refl.
  - intros result Hfound Hquiet. unfold loadSourceFileResults_start in *.
    cbv zeta in *. now rewrite (Map_get_after_events _ Hquiet).
  - intros csvData.
    unfold loadSourceFileResults_start, loadSourceFileResults_resume.
    cbv zeta. cbn [snd].
    now rewrite (Map_get_set String.eqb string_eqb_spec), String.eqb_refl.
  - intros result Hfound Hquiet. unfold loadUsageReport_start in *.
    cbv zeta in *. now rewrite (Map_get_after_events _ Hquiet).
  - intros csvData. unfold loadUsageReport_start, loadUsageReport_resume.
    cbv zeta. cbn [snd].
    now rewrite (Map_get_set String.eqb string_eqb_spec), String.eqb_refl.
Qed.

Lemma loads_served_from_cache_witness :
  let filePath := "data/org.openrewrite.table.SourcesFileResults.csv" in
  let loaded :=
    snd (loadSourceFileResults_resume sample_js filePath
           (Some sample_results_csv) []) in
  let events :=
    [ RecipeStatsAnswered "data/org.openrewrite.table.RecipeRunStats.csv"
        (Some []);
      SourceResultsAnswered "data/other.csv" (Some sample_results_csv);
      SourceResultsAnswered filePath None ] in
  loadSourceFileResults_start filePath (after_events sample_js events loaded)
  = Some (Loaded (parseSourceFileResults sample_js sample_results_csv)).
Proof.
  intros filePath loaded events.
  destruct (loads_served_from_cache sample_js events loaded filePath)
    as (_ & (Hkept & _) & _).
  apply Hkept.
  - reflexivity.
  - constructor; [intros [H|[entry H]]; discriminate H|].
    constructor; [intros [H|[entry H]]; discriminate H|].
    constructor; [intros [H|[entry H]]; discriminate H|].
    constructor.
Defined.

(** ** The views: sorting in descending order *)

Lemma num_neg_sub (x y : number) : num_neg x - num_neg y = y - x.
Proof.
  unfold num_sub. destruct x, y; cbn [num_neg num_add]; try reflexivity.
  f_equal. ring.
Qed.

Lemma num_le_neg (x y : number) : num_le (num_neg x) (num_neg y) -> num_le y x.
Proof.
  destruct x, y; cbn [num_neg num_le]; try tauto.
  intros H. apply Qcopp_le_compat in H. now rewrite !Qcopp_involutive in H.
Qed.

Lemma num_neg_not_NaN (x : number) : x <> NaN -> num_neg x <> NaN.
Proof. destruct x; cbn [num_neg]; congruence. Qed.


Lemma or_zero_not_NaN (x : number) : or_zero (Some x) <> NaN.
Proof.
  unfold or_zero. destruct x; cbn [num_truthy]; try discriminate.
  destruct (negb (Qc_eq_bool q Qc_zero)); discriminate.
Qed.

Section SortAny.
Variable A : Type.
Variable compareFn : A -> A -> number.

Lemma sort_insert_any_perm (x : A) (sorted : list A) :
  Permutation (x :: sorted) (sort_insert compareFn x sorted).
Proof.
  induction sorted as [|y ys IH]; cbn [sort_insert]; [reflexivity|].
  destruct (compareFn y x >? num0); [reflexivity|].
  rewrite perm_swap. now constructor.
Qed.

Lemma fold_sort_insert_any_perm (l acc : list A) :
  Permutation (acc ++ l) (fold_left (fun acc x => sort_insert compareFn x acc) l acc).
Proof.
  revert acc. induction l as [|x l IH]; intros acc; cbn [fold_left].
  - now rewrite app_nil_r.
  - rewrite <- IH. rewrite <- sort_insert_any_perm.
    symmetry. apply Permutation_middle.
Qed.

(** With any comparator, [sort] returns a permutation of the array. *)
Lemma Array_sort_any_perm (l : list A) : Permutation l (Array_sort compareFn l).
Proof. apply (fold_sort_insert_any_perm l []). Qed.

Variable compareFn' : A -> A -> number.
Hypothesis same : forall a b, compareFn a b = compareFn' a b.

Lemma sort_insert_ext (x : A) (sorted : list A) :
  sort_insert compareFn x sorted = sort_insert compareFn' x sorted.
Proof.
  induction sorted as [|y ys IH]; cbn [sort_insert]; [reflexivity|].
  now rewrite same, IH.
Qed.

Lemma Array_sort_ext (l : list A) : Array_sort compareFn l = Array_sort compareFn' l.
Proof.
  unfold Array_sort. generalize (@nil A) as acc.
  induction l as [|x l IH]; intros acc; cbn [fold_left]; [reflexivity|].
  now rewrite sort_insert_ext, IH.
Qed.
End SortAny.

Lemma Sorted_weaken {A : Type} (R R' : A -> A -> Prop) (l : list A) :
  (forall a b, R a b -> R' a b) -> Sorted R l -> Sorted R' l.
Proof.
  intros Himp H. induction H as [|x l Hs IH Hhd]; constructor; [assumption|].
  destruct Hhd; constructor. now apply Himp.
Qed.



Section SortDescending.
Variable A : Type.
Variable key : A -> number.

Lemma descending_trans (a b c : A) :
  descending key a b -> descending key b c -> descending key a c.
Proof. unfold descending. intros H1 H2. exact (num_le_trans _ _ _ H2 H1). Qed.

(** Without NaN among the keys, [sort] with the comparator
    [(a, b) => key(b) - key(a)] returns the array in descending order. *)
Lemma Array_sort_descending (l : list A) :
  Forall (fun a => key a <> NaN) l ->
  StronglySorted (descending key) (Array_sort (fun a b => key b - key a) l).
Proof.
  intros Hnan.
  rewrite (@Array_sort_ext A (fun a b => key b - key a)
             (fun a b => num_neg (key a) - num_neg (key b)))
    by (intros a b; symmetry; apply num_neg_sub).
  apply Sorted_StronglySorted.
  - intros a b c. apply descending_trans.
  - apply (@Sorted_weaken A
             (fun a b => num_le (num_neg (key a)) (num_neg (key b)))).
    + intros a b. apply num_le_neg.
    + apply (Array_sort_sorted (fun a => num_neg (key a))).
      apply (Forall_impl _ (fun a Ha => num_neg_not_NaN Ha) Hnan).
Qed.

End SortDescending.

(** ** The views: charts and table *)

Lemma In_firstn {A : Type} (n : nat) (l : list A) (x : A) :
  In x (firstn n l) -> In x l.
Proof.
  intros H. rewrite <- (firstn_skipn n l). apply in_or_app. now left.
Qed.






Lemma convertTime_ms (timeUnit : string) (x : number) :
  timeUnit <> "s" -> convertTime timeUnit x = x / numZ 1000000.
Proof.
  intros H. unfold convertTime. apply String.eqb_neq in H. rewrite H.
  now destruct (String.eqb timeUnit "ms").
Qed.

Lemma enrichRecipeStats_totalExecutionTimeMs
    (recipeStats : list RecipeRunStats) (sourceResults : list SourceFileResults)
    (d : RecipePerformanceMetrics.t) :
  In d (enrichRecipeStats recipeStats sourceResults) ->
  RecipePerformanceMetrics.totalExecutionTimeMs d
  = executionTimeMs (RecipePerformanceMetrics.stats d).
Proof.
  unfold enrichRecipeStats. intros H. apply in_map_iff in H.
  destruct H as (stats & <- & _). reflexivity.
Qed.

(** X21.  In the chart of execution times the bars are those of the recipes
    of [chartData], in order, and with every time unit but that of seconds
    the total of a bar is the recipe's [totalExecutionTimeMs]: the one
    quotient [(cumulativeScanningTime + cumulativeEditTime) / 1e6], computed
    by [enrichRecipeStats] and again by the chart. *)
Theorem executionTime_chart_totals
    (recipeStats : list RecipeRunStats) (sourceResults : list SourceFileResults)
    (timeUnit : string) :
  let enrichedStats := enrichRecipeStats recipeStats sourceResults in
  let convertedData :=
    renderExecutionTimeChart_convertedData timeUnit enrichedStats in
  map ConvertedData.metrics convertedData
  = renderExecutionTimeChart_chartData enrichedStats
  /\ (timeUnit <> "s" ->
      Forall (fun c =>
                ConvertedData.totalExecutionTimeConverted c
                = RecipePerformanceMetrics.totalExecutionTimeMs
                    (ConvertedData.metrics c))
             convertedData).
Proof.
  intros enrichedStats convertedData. split.
  - unfold convertedData, renderExecutionTimeChart_convertedData.
    rewrite map_map. cbn [ConvertedData.metrics]. apply map_id.
  - intros Hunit. apply Forall_forall. intros c Hc.
    unfold convertedData, renderExecutionTimeChart_convertedData in Hc.
    apply in_map_iff in Hc. destruct Hc as (d & <- & Hd).
    cbn [ConvertedData.totalExecutionTimeConverted ConvertedData.metrics].
    rewrite (convertTime_ms _ Hunit).
    unfold renderExecutionTimeChart_chartData in Hd. apply In_firstn in Hd.
    apply (Permutation_in _ (Permutation_sym (Array_sort_any_perm _ _))) in Hd.
    now rewrite (enrichRecipeStats_totalExecutionTimeMs _ _ _ Hd).
Qed.

Lemma executionTime_chart_totals_witness :
  Forall (fun c =>
            ConvertedData.totalExecutionTimeConverted c
            = RecipePerformanceMetrics.totalExecutionTimeMs
                (ConvertedData.metrics c))
         (renderExecutionTimeChart_convertedData "ms"
            (enrichRecipeStats [junit_run; run_3s] [change_6s])).
Proof.
  destruct (executionTime_chart_totals [junit_run; run_3s] [change_6s] "ms")
    as [_ H].
  apply H. discriminate.
Defined.

(** *** The table of files *)

(** X22.  Sorting the table of files never loses or repeats a row, whatever
    the key and the comparison of texts. Sorted by time saved, the rows are
    in descending order of their saving when no saving is NaN; sorted by
    cycle, they are always in descending order of [cycle || 0]; with a key
    that is none of the four, the rows stay as they are. *)
Theorem sortFilesTable_sorted
    (localeCompare : string -> string -> number) (sortKey : string)
    (sourceResults : list SourceFileResults) :
  let sortedData := sortFilesTable localeCompare sortKey sourceResults in
  Permutation sourceResults sortedData
  /\ (sortKey = "timeSaved" ->
      Forall (fun r => estimatedTimeSaving r <> NaN) sourceResults ->
      StronglySorted (descending estimatedTimeSaving) sortedData)
  /\ (sortKey = "cycle" ->
      StronglySorted (descending (fun r => or_zero (Some (cycle r)))) sortedData)
  /\ (sortKey <> "file" -> sortKey <> "recipe" -> sortKey <> "timeSaved" ->
      sortKey <> "cycle" -> sortedData = sourceResults).
Proof.
  intros sortedData. unfold sortedData, sortFilesTable. cbv zeta.
  split; [|split; [|split]].
  - destruct (String.eqb sortKey "file"); [apply Array_sort_any_perm|].
    destruct (String.eqb sortKey "recipe"); [apply Array_sort_any_perm|].
    destruct (String.eqb sortKey "timeSaved"); [apply Array_sort_any_perm|].
    destruct (String.eqb sortKey "cycle"); [apply Array_sort_any_perm|].
    reflexivity.
  - intros -> Hnan. cbn [String.eqb Ascii.eqb Bool.eqb].
    apply (Array_sort_descending estimatedTimeSaving Hnan).
  - intros ->. cbn [String.eqb Ascii.eqb Bool.eqb].
    apply (Array_sort_descending (fun r => or_zero (Some (cycle r)))).
    apply Forall_forall. intros r _. apply or_zero_not_NaN.
  - intros H1 H2 H3 H4.
    apply String.eqb_neq in H1, H2, H3, H4. now rewrite H1, H2, H3, H4.
Qed.

Lemma sortFilesTable_sorted_witness :
  StronglySorted (descending estimatedTimeSaving)
    (sortFilesTable (fun _ _ => num0) "timeSaved" three_changes)
  /\ StronglySorted (descending (fun r => or_zero (Some (cycle r))))
       (sortFilesTable (fun _ _ => num0) "cycle" three_changes).
Proof.
  split.
  - destruct (sortFilesTable_sorted (fun _ _ => num0) "timeSaved" three_changes)
      as (_ & H & _).
    apply H; [reflexivity|].
    constructor; [discriminate|]. constructor; [discriminate|].
    constructor; [discriminate|]. constructor.
  - destruct (sortFilesTable_sorted (fun _ _ => num0) "cycle" three_changes)
      as (_ & _ & H & _).
    apply H. reflexivity.
Defined.

(** ** The loader: the usage report and the statistics of the cache *)

(** X23.  Of the usage report only the runs of completed commits are kept:
    every entry has a run and a recipe identifier, and a commit state that
    is not null and reads COMPLETED once trimmed and in upper case. (That an
    empty text does not read so is asked of the built-ins.) *)
Theorem parseUsageReport_completed (js : Builtins) (csvData : list row) :
  toUpperCase js (trim js "") <> "COMPLETED" ->
  Forall (fun e =>
            UsageReportEntry.runId e <> ""
            /\ UsageReportEntry.recipeId e <> ""
            /\ exists state,
                 UsageReportEntry.commitState e = Some state
                 /\ state <> ""
                 /\ toUpperCase js (trim js state) = "COMPLETED")
         (parseUsageReport js csvData).
Proof.
  intros Hempty. apply Forall_forall. intros e He.
  unfold parseUsageReport in He. apply filter_In in He.
  destruct He as [_ Hkeep].
  destruct (UsageReportEntry.runId e) as [|c1 s1]; [discriminate Hkeep|].
  destruct (UsageReportEntry.recipeId e) as [|c2 s2]; [discriminate Hkeep|].
  cbn [str_truthy negb orb] in Hkeep. apply String.eqb_eq in Hkeep.
  split; [discriminate|]. split; [discriminate|].
  destruct (UsageReportEntry.commitState e) as [[|c s]|];
    cbn [str_truthy] in Hkeep; try contradiction.
  exists (String c s). split; [reflexivity|]. split; [discriminate|exact Hkeep].
Qed.

Lemma parseUsageReport_completed_witness :
  map UsageReportEntry.runId (parseUsageReport sample_js sample_usage_csv)
  = ["run-1"]
  /\ Forall (fun e =>
               UsageReportEntry.runId e <> ""
               /\ UsageReportEntry.recipeId e <> ""
               /\ exists state,
                    UsageReportEntry.commitState e = Some state
                    /\ state <> ""
                    /\ toUpperCase sample_js (trim sample_js state) = "COMPLETED")
            (parseUsageReport sample_js sample_usage_csv).
Proof.
  split; [reflexivity|].
  apply (@parseUsageReport_completed sample_js sample_usage_csv).
  discriminate.
Defined.

Lemma num_of_nat_succ (n : nat) : num_of_nat (S n) = num_of_nat n + numZ 1.
Proof.
  unfold num_of_nat. rewrite numZ_add. f_equal. lia.
Qed.

Lemma getCacheStats_set_absent (cache : Cache) (key : string) (entry : CacheEntry) :
  ~ In key (map fst cache) ->
  getCacheStats (Map_set String.eqb cache key entry)
  = {| CacheStats.size := CacheStats.size (getCacheStats cache) + numZ 1;
       CacheStats.keys := CacheStats.keys (getCacheStats cache) ++ [key];
       CacheStats.totalItems :=
         CacheStats.totalItems (getCacheStats cache)
         + num_of_nat (entry_length entry) |}.
Proof.
  intros Habsent.
  rewrite (Map_set_absent String.eqb string_eqb_spec _ _ entry Habsent).
  unfold getCacheStats.
  cbn [CacheStats.size CacheStats.keys CacheStats.totalItems].
  rewrite !map_app, length_app, fold_left_app. cbn [map fst snd List.length fold_left].
  now rewrite Nat.add_1_r, num_of_nat_succ.
Qed.

(** X24.  The statistics of the cache follow the events. [clearCache]
    empties them. A read that fails leaves them as they are. A read that is
    stored under a key not yet in the cache puts the key last in [keys],
    makes [size] one more and [totalItems] greater by the number of records
    read; stored under a key already there (another load of the path has
    ended since this one began) it leaves [keys] and [size] as they are. *)
Theorem getCacheStats_follows_events
    (js : Builtins) (cache : Cache) (e : cache_event) :
  let before := getCacheStats cache in
  let after := getCacheStats (after_event js cache e) in
  (e = CacheCleared ->
   CacheStats.keys after = [] /\ CacheStats.size after = num0
   /\ CacheStats.totalItems after = num0)
  /\ (e <> CacheCleared -> stored js e = None -> after = before)
  /\ (forall key entry,
         stored js e = Some (key, entry) ->
         (In key (CacheStats.keys before) ->
          CacheStats.keys after = CacheStats.keys before
          /\ CacheStats.size after = CacheStats.size before)
         /\ (~ In key (CacheStats.keys before) ->
             CacheStats.keys after = CacheStats.keys before ++ [key]
             /\ CacheStats.size after = CacheStats.size before + numZ 1
             /\ CacheStats.totalItems after
                = CacheStats.totalItems before
                  + num_of_nat (entry_length entry))).
Proof.
  intros before after. unfold before, after. split; [|split].
  - intros ->. repeat split.
  - intros Hne Hs. now rewrite (after_event_stored js cache Hne), Hs.
  - intros key entry Hs.
    assert (Hne : e <> CacheCleared) by (intros ->; discriminate Hs).
    rewrite (after_event_stored js cache Hne), Hs. split.
    + intros Hin. cbn [getCacheStats CacheStats.keys CacheStats.size] in *.
      unfold getCacheStats in *. cbn [CacheStats.keys CacheStats.size] in *.
      rewrite (Map_set_keys_present String.eqb string_eqb_spec _ _ entry Hin).
      split; [reflexivity|].
      rewrite <- (length_map fst (Map_set String.eqb cache key entry)).
      rewrite (Map_set_keys_present String.eqb string_eqb_spec _ _ entry Hin).
      now rewrite length_map.
    + intros Hout.
      assert (Habsent : ~ In key (map fst cache)) by exact Hout.
      rewrite (@getCacheStats_set_absent cache key entry Habsent).
      now repeat split.
Qed.

Lemma getCacheStats_follows_events_witness :
  CacheStats.keys
    (getCacheStats
       (after_event sample_js []
          (UsageReportAnswered "data/usage-report.csv" (Some sample_usage_csv))))
  = ["usage-report-data/usage-report.csv"]
  /\ CacheStats.totalItems
       (getCacheStats
          (after_event sample_js []
             (UsageReportAnswered "data/usage-report.csv"
                (Some sample_usage_csv))))
     = num0 + num_of_nat 1.
Proof.
  destruct (getCacheStats_follows_events sample_js []
              (UsageReportAnswered "data/usage-report.csv"
                 (Some sample_usage_csv)))
    as (_ & _ & H).
  destruct (H _ _ eq_refl) as [_ Hnew].
  destruct Hnew as (Hkeys & _ & Hitems); [intros []|].
  split; [exact Hkeys | exact Hitems].
Defined.
